(** * TimeSeriesAnalysis: the indicator layer of [src/main.cpp]

    A shallow embedding of class [TimeSeriesAnalyzer]: its two vectors, the
    parser that fills them and the seven indicator methods that read them.

    - [double] is IEEE-754 binary64, taken from the standard library's
      executable specification [SpecFloat] with [prec = 53], [emax = 1024]
      and round-to-nearest-even, which is what [+ - * /] and [std::sqrt] do on
      the platforms the program targets.  Every operation rounds on its own:
      no fused multiply-add, no extended intermediate precision.  Division is
      total (x/0 is an infinity or a NaN), as IEC 559 prescribes, and raises
      no trap.  [std::pow(x, 2)] is taken to be the correctly rounded square,
      as a compiler that turns it into [x * x] computes it; a library [pow]
      may differ from it in the last bit.
    - [int] is a 32-bit two's-complement integer kept as a [Z]; the one place
      where the source can overflow ([period + 1]) wraps.
    - [size_t] is 64 bits; comparing it with an [int] converts the [int].
    - The methods are member functions of one mutable object, so they are
      written in a state monad over the object, with an outcome for C++
      exceptions and one for undefined behaviour ([prices[i]] out of range).
    - [std::stod] and the timestamp conversion are library code; the parser
      is written over them as section variables.
    - The transfer is libcurl's: what one call of [fetchData] meets is a
      record saying whether a handle is made and which chunks arrive.  The
      loop of [run] has no exit; it is written turn by turn over a trace of
      what it prints and how long it sleeps, [json::parse] being one more
      section variable. *)

From Stdlib Require Import ZArith List Bool Lia String.
From Stdlib Require Import Floats.SpecFloat.
Import ListNotations.
Local Open Scope Z_scope.

(** ** Machine integers *)

Definition INT_MIN : Z := - 2 ^ 31.
Definition INT_MAX : Z := 2 ^ 31 - 1.

Definition in_int (z : Z) : Prop := INT_MIN <= z <= INT_MAX.

(** Two's-complement wrap-around of a mathematical result into [int]. *)
Definition wrap_int (z : Z) : Z := (z + 2 ^ 31) mod 2 ^ 32 - 2 ^ 31.

Definition int_add (a b : Z) : Z := wrap_int (a + b).
Definition int_sub (a b : Z) : Z := wrap_int (a - b).

(** Conversion of an [int] to [size_t] in [prices.size() < period]. *)
Definition size_t_of_int (z : Z) : Z := z mod 2 ^ 64.

(** ** Doubles *)

Definition prec : Z := 53.
Definition emax : Z := 1024.

Definition double : Type := spec_float.

Definition fadd : double -> double -> double := SFadd prec emax.
Definition fsub : double -> double -> double := SFsub prec emax.
Definition fmul : double -> double -> double := SFmul prec emax.
Definition fdiv : double -> double -> double := SFdiv prec emax.
Definition fsqrt : double -> double := SFsqrt prec emax.

(** [a < b], [a > b] and [a == b] on doubles; all three are false on a NaN. *)
Definition flt (a b : double) : bool := SFltb a b.
Definition fgt (a b : double) : bool := SFltb b a.
Definition feq (a b : double) : bool := SFeqb a b.

(** Conversion of an [int] to [double]; exact, since [|n| < 2^53]. *)
Definition of_int (n : Z) : double := binary_normalize prec emax n 0 false.

(** [std::pow(x, 2)]: the square, correctly rounded. *)
Definition pow2 (x : double) : double := fmul x x.

(** A value of the type: every finite double has a canonical mantissa and
    an exponent in range. *)
Definition is_double (x : double) : Prop := valid_binary prec emax x = true.

Definition is_finite (x : double) : bool :=
  match x with
  | S754_zero _ | S754_finite _ _ _ => true
  | S754_infinity _ | S754_nan => false
  end.

Definition is_nan (x : double) : bool :=
  match x with S754_nan => true | _ => false end.

(** ** The object and its monad *)

Record TimeSeriesAnalyzer := mkAnalyzer {
  api_key : string;
  symbol : string;
  update_interval : Z;
  prices : list double;
  timestamps : list Z
}.

Inductive exn :=
| parse_error        (* json::parse on text that is not JSON *)
| type_error         (* json: the value asked for has another type *)
| invalid_argument   (* std::stod: no conversion could be performed *)
| out_of_range.      (* std::stod: the value does not fit a double *)

Inductive outcome (A : Type) :=
| Ret (a : A)
| Throw (e : exn)
| Undefined.
Arguments Ret {A} a.
Arguments Throw {A} e.
Arguments Undefined {A}.

Definition M (A : Type) : Type :=
  TimeSeriesAnalyzer -> outcome A * TimeSeriesAnalyzer.

Definition ret {A} (a : A) : M A := fun s => (Ret a, s).

Definition bind {A B} (m : M A) (k : A -> M B) : M B :=
  fun s =>
    match m s with
    | (Ret a, s') => k a s'
    | (Throw e, s') => (Throw e, s')
    | (Undefined, s') => (Undefined, s')
    end.

Definition throw {A} (e : exn) : M A := fun s => (Throw e, s).

Notation "x <- m ;; k" := (bind m (fun x => k))
  (at level 61, m at next level, right associativity).
Notation "m ;;; k" := (bind m (fun _ => k))
  (at level 61, right associativity).

(** [prices.size()] *)
Definition prices_size : M Z :=
  fun s => (Ret (Z.of_nat (List.length (prices s))), s).

(** [prices[i]]: [operator[]] is unchecked, an index outside the vector is
    undefined behaviour. *)
Definition price_at (i : Z) : M double :=
  fun s =>
    if i <? 0 then (Undefined, s)
    else match nth_error (prices s) (Z.to_nat i) with
         | Some p => (Ret p, s)
         | None => (Undefined, s)
         end.

(** [for (int i = lo; i < hi; i++) acc = body(i, acc);], the counter never
    leaves [lo .. hi], so [i++] does not overflow. *)
Fixpoint for_loop {A} (n : nat) (i : Z) (body : Z -> A -> M A) (acc : A) : M A :=
  match n with
  | O => ret acc
  | S n' => acc' <- body i acc ;; for_loop n' (i + 1) body acc'
  end.

Definition for_range {A} (lo hi : Z) (body : Z -> A -> M A) (acc : A) : M A :=
  for_loop (Z.to_nat (hi - lo)) lo body acc.

(** [std::accumulate(prices.begin(), prices.begin() + n, init)] *)
Definition accumulate (n : Z) (init : double) : M double :=
  for_range 0 n (fun i acc => p <- price_at i ;; ret (fadd acc p)) init.

(** ** Parsing *)

(** What [json::parse] and [j["Time Series (1min)"]] hand to the loop: either
    the text is not JSON, or there is a sequence of entries in iteration
    order (the library keeps an object sorted by key), empty when the key is
    absent.  An entry has its key and what is stored under ["4. close"]:
    a string, or anything else, a missing field included. *)
Inductive json_field :=
| JString (s : string)
| JOther.

Record entry := mkEntry { entry_key : string; entry_close : json_field }.

Inductive payload :=
| NotJson
| TimeSeries (entries : list entry).

Inductive stod_result :=
| Converted (v : double)
| NoConversion
| Overflow.

Definition clear_vectors : M unit :=
  fun s => (Ret tt, mkAnalyzer (api_key s) (symbol s) (update_interval s) [] []).

Definition push_price (p : double) : M unit :=
  fun s => (Ret tt, mkAnalyzer (api_key s) (symbol s) (update_interval s)
                               (prices s ++ [p]) (timestamps s)).

Definition push_timestamp (t : Z) : M unit :=
  fun s => (Ret tt, mkAnalyzer (api_key s) (symbol s) (update_interval s)
                               (prices s) (timestamps s ++ [t])).

(** [value["4. close"].get<std::string>()] *)
Definition get_string (f : json_field) : M string :=
  match f with
  | JString s => ret s
  | JOther => throw type_error
  end.

Section Parsing.
  (** The two library conversions the parser calls: [std::stod], and the
      chain [std::get_time], [std::mktime], [duration_cast<milliseconds>],
      which never throws. *)
Variable stod : string -> stod_result.
Variable to_millis : string -> Z.

Definition call_stod (s : string) : M double :=
    match stod s with
    | Converted v => ret v
    | NoConversion => throw invalid_argument
    | Overflow => throw out_of_range
    end.

Fixpoint parse_entries (es : list entry) : M unit :=
    match es with
    | [] => ret tt
    | e :: rest =>
        s <- get_string (entry_close e) ;;
        price <- call_stod s ;;
        push_price price ;;;
        push_timestamp (to_millis (entry_key e)) ;;;
        parse_entries rest
    end.

Definition parseData (data : payload) : M unit :=
    match data with
    | NotJson => throw parse_error
    | TimeSeries es => clear_vectors ;;; parse_entries es
    end.
End Parsing.

(** ** Moving averages *)

Definition calculateSMA (period : Z) : M double :=
  sz <- prices_size ;;
  if sz <? size_t_of_int period then ret (of_int 0)
  else
    total <- accumulate period (S754_zero false) ;;
    ret (fdiv total (of_int period)).

Definition calculateEMA (period : Z) : M double :=
  sz <- prices_size ;;
  if sz <? size_t_of_int period then ret (of_int 0)
  else
    let alpha := fdiv (of_int 2) (of_int (int_add period 1)) in
    ema0 <- price_at 0 ;;
    for_range 1 period
      (fun i ema =>
         p <- price_at i ;;
         ret (fadd (fmul alpha p) (fmul (fsub (of_int 1) alpha) ema)))
      ema0.

Definition calculateWMA (period : Z) : M double :=
  sz <- prices_size ;;
  if sz <? size_t_of_int period then ret (of_int 0)
  else
    sw <- for_range 0 period
            (fun i '(sum, weightSum) =>
               let weight := of_int (int_sub period i) in
               p <- price_at i ;;
               ret (fadd sum (fmul p weight), fadd weightSum weight))
            (of_int 0, of_int 0) ;;
    ret (fdiv (fst sw) (snd sw)).

(** ** Volatility *)

Definition calculateStandardDeviation (period : Z) : M double :=
  sz <- prices_size ;;
  if sz <? size_t_of_int period then ret (of_int 0)
  else
    mean <- calculateSMA period ;;
    sum_sq_diff <- for_range 0 period
                     (fun i acc =>
                        p <- price_at i ;;
                        ret (fadd acc (pow2 (fsub p mean))))
                     (of_int 0) ;;
    ret (fsqrt (fdiv sum_sq_diff (of_int period))).

Definition calculateBollingerBands (period : Z) (multiplier : double)
    (upper : bool) : M double :=
  sma <- calculateSMA period ;;
  std_dev <- calculateStandardDeviation period ;;
  ret (if upper then fadd sma (fmul multiplier std_dev)
       else fsub sma (fmul multiplier std_dev)).

(** ** Trend and momentum *)

Definition detectTrend (shortPeriod longPeriod : Z) : M string :=
  sz <- prices_size ;;
  if sz <? size_t_of_int longPeriod then ret "Insufficient data"%string
  else
    shortMA <- calculateSMA shortPeriod ;;
    longMA <- calculateSMA longPeriod ;;
    if fgt shortMA longMA then ret "Uptrend"%string
    else if flt shortMA longMA then ret "Downtrend"%string
    else ret "Sideways"%string.

(** [period + 1] is the one [int] sum that can wrap, at [INT_MAX]; it then
    converts to a [size_t] no vector is as long as, and the guard returns
    before the loop. *)
Definition calculateRSI (period : Z) : M double :=
  sz <- prices_size ;;
  if sz <? size_t_of_int (int_add period 1) then ret (of_int 0)
  else
    gl <- for_range 1 (period + 1)
            (fun i '(avg_gain, avg_loss) =>
               prev <- price_at (i - 1) ;;
               cur <- price_at i ;;
               let change := fsub prev cur in
               if fgt change (of_int 0) then ret (fadd avg_gain change, avg_loss)
               else ret (avg_gain, fsub avg_loss change))
            (of_int 0, of_int 0) ;;
    let avg_gain := fdiv (fst gl) (of_int period) in
    let avg_loss := fdiv (snd gl) (of_int period) in
    let rs := fdiv avg_gain avg_loss in
    ret (fsub (of_int 100) (fdiv (of_int 100) (fadd (of_int 1) rs))).

(** ** Pure views of the vector and of the loops

    The lemmas below evaluate the monadic methods on the inputs where no
    index leaves the vector; these are the values they evaluate to. *)

Definition size (a : TimeSeriesAnalyzer) : Z := Z.of_nat (List.length (prices a)).

Definition price (ps : list double) (i : Z) : double :=
  nth (Z.to_nat i) ps (S754_zero false).

Fixpoint loop_pure {A} (n : nat) (i : Z) (g : Z -> A -> A) (acc : A) : A :=
  match n with
  | O => acc
  | S n' => loop_pure n' (i + 1) g (g i acc)
  end.

(** A computation that leaves the object as it found it. *)
Definition readonly {A} (m : M A) : Prop := forall s, snd (m s) = s.

Definition sum_first (ps : list double) (n : Z) : double :=
  loop_pure (Z.to_nat n) 0 (fun i acc => fadd acc (price ps i)) (S754_zero false).

Definition sma_value (ps : list double) (period : Z) : double :=
  fdiv (sum_first ps period) (of_int period).

(** What [calculateSMA] returns, sentinel included. *)
Definition sma_result (a : TimeSeriesAnalyzer) (period : Z) : double :=
  if size a <? period then of_int 0 else sma_value (prices a) period.

Definition sd_value (ps : list double) (period : Z) : double :=
  fsqrt (fdiv (loop_pure (Z.to_nat period) 0
                 (fun i acc => fadd acc (pow2 (fsub (price ps i) (sma_value ps period))))
                 (of_int 0))
              (of_int period)).

Definition wma_step (ps : list double) (period i : Z) (sw : double * double)
    : double * double :=
  let weight := of_int (period - i) in
  (fadd (fst sw) (fmul (price ps i) weight), fadd (snd sw) weight).

Definition wma_sums (ps : list double) (period : Z) (n : nat) : double * double :=
  loop_pure n 0 (wma_step ps period) (of_int 0, of_int 0).

(** The sum of the first [k] weights [period - i]. *)
Fixpoint weight_total (period : Z) (k : nat) : Z :=
  match k with
  | O => 0
  | S k' => weight_total period k' + (period - Z.of_nat k')
  end.

(** [prices[i-1] - prices[i]] *)
Definition price_change (ps : list double) (i : Z) : double :=
  fsub (price ps (i - 1)) (price ps i).

Definition rsi_step (ps : list double) (i : Z) (gl : double * double)
    : double * double :=
  if fgt (price_change ps i) (of_int 0)
  then (fadd (fst gl) (price_change ps i), snd gl)
  else (fst gl, fsub (snd gl) (price_change ps i)).

Definition rsi_sums (ps : list double) (n : nat) : double * double :=
  loop_pure n 1 (rsi_step ps) (of_int 0, of_int 0).

Definition rsi_formula (gain loss : double) (period : Z) : double :=
  fsub (of_int 100)
       (fdiv (of_int 100)
             (fadd (of_int 1)
                   (fdiv (fdiv gain (of_int period)) (fdiv loss (of_int period))))).

Definition trend_label (shortMA longMA : double) : string :=
  if fgt shortMA longMA then "Uptrend"
  else if flt shortMA longMA then "Downtrend"
  else "Sideways".

(** ** Predicates on doubles *)

(** The least exponent of binary64, [3 - emax - prec]. *)
Definition emin : Z := -1074.

Arguments emin : simpl never.

Definition is_negative (x : double) : bool := flt x (of_int 0).
Definition is_positive (x : double) : bool := fgt x (of_int 0).

(** [x] is not a NaN and carries the sign bit [s]. *)
Definition has_sign (s : bool) (x : double) : Prop :=
  match x with
  | S754_zero s' | S754_infinity s' | S754_finite s' _ _ => s' = s
  | S754_nan => False
  end.

Definition nonneg_or_nan (x : double) : Prop :=
  match x with
  | S754_nan => True
  | S754_zero s | S754_infinity s | S754_finite s _ _ => s = false
  end.

(** [x] is [+inf] or a positive finite double worth at least [T] units of
    [2^emin], the least subnormal. *)
Definition at_least (T : Z) (x : double) : Prop :=
  match x with
  | S754_infinity false => True
  | S754_finite false m e => emin <= e /\ T <= Z.pos m * 2 ^ (e - emin)
  | _ => False
  end.

(** ** The indicators as the specification words them *)

(** EMA: seeded with [price[0]], then
    [ema_i = alpha * price_i + (1 - alpha) * ema_(i-1)]. *)
Fixpoint ema_rec (alpha : double) (ps : list double) (i : nat) : double :=
  match i with
  | O => price ps 0
  | S j => fadd (fmul alpha (price ps (Z.of_nat (S j))))
                (fmul (fsub (of_int 1) alpha) (ema_rec alpha ps j))
  end.

Definition ema_spec (ps : list double) (period : Z) : double :=
  ema_rec (fdiv (of_int 2) (of_int (period + 1))) ps (Z.to_nat (period - 1)).

(** RSI: the changes at indices [1 .. period]; the positive ones summed,
    the magnitudes of the negative ones summed; both averaged over
    [period]; then [100 - 100 / (1 + avg_gain / avg_loss)]. *)
Definition changes (ps : list double) (n : nat) : list double :=
  map (fun i => price_change ps (Z.of_nat i)) (seq 1 n).

Definition gains (cs : list double) : double :=
  fold_left (fun g c => if fgt c (of_int 0) then fadd g c else g) cs (of_int 0).

Definition losses (cs : list double) : double :=
  fold_left (fun l c => if flt c (of_int 0) then fadd l (SFabs c) else l) cs (of_int 0).

Definition rsi_spec (ps : list double) (period : Z) : double :=
  let cs := changes ps (Z.to_nat period) in
  let avg_gain := fdiv (gains cs) (of_int period) in
  let avg_loss := fdiv (losses cs) (of_int period) in
  fsub (of_int 100) (fdiv (of_int 100) (fadd (of_int 1) (fdiv avg_gain avg_loss))).

(** A window whose changes are all gains. *)
Definition all_gaining (ps : list double) (period : Z) : Prop :=
  forall i, 1 <= i <= period -> is_positive (price_change ps i) = true.

(** A window of one repeated price. *)
Definition uniform (ps : list double) (period : Z) (c : double) : Prop :=
  forall i, 0 <= i < period -> price ps i = c.

(** Twice the half-width of the band. *)
Definition two_m_sd (m sd : double) : double := fmul (of_int 2) (fmul m sd).

(** ** Calls on one object, in sequence *)

Inductive indicator_call :=
| CallSMA (period : Z)
| CallEMA (period : Z)
| CallWMA (period : Z)
| CallStandardDeviation (period : Z)
| CallBollingerBands (period : Z) (multiplier : double) (upper : bool)
| CallTrend (shortPeriod longPeriod : Z)
| CallRSI (period : Z).

Inductive indicator_value :=
| Number (v : double)
| Label (s : string).

Definition map_outcome {A B} (f : A -> B) (m : M A) : M B :=
  x <- m ;; ret (f x).

Definition run_call (c : indicator_call) : M indicator_value :=
  match c with
  | CallSMA p => map_outcome Number (calculateSMA p)
  | CallEMA p => map_outcome Number (calculateEMA p)
  | CallWMA p => map_outcome Number (calculateWMA p)
  | CallStandardDeviation p => map_outcome Number (calculateStandardDeviation p)
  | CallBollingerBands p m u => map_outcome Number (calculateBollingerBands p m u)
  | CallTrend s l => map_outcome Label (detectTrend s l)
  | CallRSI p => map_outcome Number (calculateRSI p)
  end.

(** The object after a sequence of calls. *)
Definition run_calls (cs : list indicator_call) (a : TimeSeriesAnalyzer)
    : TimeSeriesAnalyzer :=
  fold_left (fun s c => snd (run_call c s)) cs a.

(** ** Parsing, entry by entry *)

(** What the two library calls of one loop iteration yield for an entry:
    its price, or the exception that ends the loop. *)
Definition entry_price (stod : string -> stod_result) (e : entry) : exn + double :=
  match entry_close e with
  | JOther => inl type_error
  | JString s =>
      match stod s with
      | Converted v => inr v
      | NoConversion => inl invalid_argument
      | Overflow => inl out_of_range
      end
  end.

Definition entry_millis (to_millis : string -> Z) (es : list entry) : list Z :=
  map (fun e => to_millis (entry_key e)) es.

Definition with_vectors (a : TimeSeriesAnalyzer) (ps : list double) (ts : list Z)
    : TimeSeriesAnalyzer :=
  mkAnalyzer (api_key a) (symbol a) (update_interval a) ps ts.

(** Construction of a price series as the specification words it (section
    4.1): a record is kept when its timestamp is parseable and its price is
    a non-negative finite number, dropped otherwise; no valid record at all
    is the error [EmptySeries]. *)
Inductive construction :=
| Constructed (ps : list double) (ts : list Z)
| EmptySeries.

Definition acceptable_price (v : double) : bool :=
  is_finite v && negb (is_negative v).

Definition record_valid (stod : string -> stod_result)
    (timestamp_parseable : string -> bool) (e : entry) : bool :=
  timestamp_parseable (entry_key e) &&
  match entry_price stod e with
  | inr v => acceptable_price v
  | inl _ => false
  end.

Definition construct_spec (stod : string -> stod_result) (to_millis : string -> Z)
    (timestamp_parseable : string -> bool) (es : list entry) : construction :=
  match filter (record_valid stod timestamp_parseable) es with
  | [] => EmptySeries
  | good =>
      Constructed
        (map (fun e => match entry_price stod e with
                       | inr v => v
                       | inl _ => S754_nan
                       end) good)
        (entry_millis to_millis good)
  end.

(** The parser's result is the construction the specification asks for. *)
Definition construction_agrees (r : outcome unit * TimeSeriesAnalyzer)
    (c : construction) : Prop :=
  match c with
  | Constructed ps ts =>
      fst r = Ret tt /\ prices (snd r) = ps /\ timestamps (snd r) = ts
  | EmptySeries => exists x, fst r = Throw x
  end.

(** ** Sample objects and payloads *)

Definition analyzer_of (ps : list double) : TimeSeriesAnalyzer :=
  mkAnalyzer "demo" "IBM" 60 ps
    (map (fun i => 1704186000000 - 60000 * Z.of_nat i) (seq 0 (List.length ps))).

Definition flat4 : TimeSeriesAnalyzer := analyzer_of (map of_int [10; 10; 10; 10]).
Definition falling4 : TimeSeriesAnalyzer := analyzer_of (map of_int [10; 9; 1; 1]).
Definition gaining4 : TimeSeriesAnalyzer := analyzer_of (map of_int [10; 9; 8; 7]).
Definition mixed4 : TimeSeriesAnalyzer := analyzer_of (map of_int [10; 12; 11; 11]).
Definition sevens : TimeSeriesAnalyzer := analyzer_of (map of_int [7; 7; 7; 7]).
Definition band3 : TimeSeriesAnalyzer := analyzer_of (map of_int [1; 1; 4]).
Definition empty_series : TimeSeriesAnalyzer := analyzer_of [].

(** 0.1, the double nearest to one tenth. *)
Definition tenth : double := fdiv (of_int 1) (of_int 10).
Definition tenths : TimeSeriesAnalyzer := analyzer_of [tenth; tenth].

(** [std::stod] and the timestamp conversion on the strings of the sample
    payload; ["n/a"] is text [std::stod] cannot convert. *)
Definition sample_stod (s : string) : stod_result :=
  if String.eqb s "101.5" then Converted (fdiv (of_int 203) (of_int 2))
  else NoConversion.

Definition sample_millis (s : string) : Z :=
  if String.eqb s "2024-01-02 09:00:00" then 1704186000000
  else if String.eqb s "2024-01-02 09:01:00" then 1704186060000
  else 0.

Definition sample_parseable (s : string) : bool :=
  String.eqb s "2024-01-02 09:00:00" || String.eqb s "2024-01-02 09:01:00".

Definition good_entry : entry := mkEntry "2024-01-02 09:00:00" (JString "101.5").
Definition malformed_entry : entry := mkEntry "2024-01-02 09:01:00" (JString "n/a").
(** ** The transfer callback and the fetch *)

(** [size * nmemb] on [size_t]. *)
Definition size_t_mul (a b : Z) : Z := (a * b) mod 2 ^ 64.

(** [WriteCallback]: [contents] stands for the bytes readable at the pointer
    it is given; [append] copies [total_size] of them, and reading more than
    there are is undefined behaviour, [None].  The result is the new value of
    [*output] and the count returned. *)
Definition WriteCallback (contents : string) (size nmemb : Z) (output : string)
    : option (string * Z) :=
  let total_size := size_t_mul size nmemb in
  if total_size <=? Z.of_nat (String.length contents)
  then Some (append output (substring 0 (Z.to_nat total_size) contents), total_size)
  else None.

(** The network as one call of [fetchData] meets it: whether
    [curl_easy_init] gives a handle, and what [curl_easy_perform] does with a
    URL, which is to hand the body over in chunks and return a result code. *)
Record curl_env := mkCurl {
  curl_easy_init : bool;
  curl_easy_perform : string -> list string * Z
}.

(** libcurl's side of [CURLOPT_WRITEFUNCTION]: each chunk goes to the callback
    with [size = 1] and [nmemb] its length, and a returned count other than
    that length aborts the transfer. *)
Fixpoint deliver (chunks : list string) (readBuffer : string) : option string :=
  match chunks with
  | [] => Some readBuffer
  | c :: rest =>
      match WriteCallback c 1 (Z.of_nat (String.length c)) readBuffer with
      | None => None
      | Some (readBuffer', written) =>
          if written =? Z.of_nat (String.length c) then deliver rest readBuffer'
          else Some readBuffer'
      end
  end.

(** The chunks of a body, put end to end. *)
Definition body_of (chunks : list string) : string :=
  fold_right append EmptyString chunks.

Definition query_url (symbol api_key : string) : string :=
  append "https://www.alphavantage.co/query?function=TIME_SERIES_INTRADAY&symbol="
    (append symbol (append "&interval=1min&apikey=" api_key)).

(** [fetchData]; the result code [res] is not looked at. *)
Definition fetchData (net : curl_env) : M string :=
  fun s =>
    if curl_easy_init net then
      let url := query_url (symbol s) (api_key s) in
      match deliver (fst (curl_easy_perform net url)) EmptyString with
      | Some readBuffer => (Ret readBuffer, s)
      | None => (Undefined, s)
      end
    else (Ret EmptyString, s).

(** What a fetch of the object [a] hands back when every chunk arrives. *)
Definition fetched (net : curl_env) (a : TimeSeriesAnalyzer) : string :=
  if curl_easy_init net
  then body_of (fst (curl_easy_perform net (query_url (symbol a) (api_key a))))
  else EmptyString.

(** Chunks whose length a [size_t] holds. *)
Definition short_chunks (net : curl_env) (a : TimeSeriesAnalyzer) : Prop :=
  Forall (fun c => Z.of_nat (String.length c) < 2 ^ 64)
    (fst (curl_easy_perform net (query_url (symbol a) (api_key a)))).

(** ** The polling loop

    What [run] writes to [std::cout] and its sleeps are events appended to a
    trace that goes with the object. *)

Inductive event :=
| Print (s : string)
| PrintDouble (d : double)
| PrintInt (z : Z)
| Endl
| SleepFor (seconds : Z).

Record process := mkProcess {
  object : TimeSeriesAnalyzer;
  trace : list event
}.

Definition IO (A : Type) : Type := process -> outcome A * process.

Definition io_ret {A} (a : A) : IO A := fun p => (Ret a, p).

Definition io_bind {A B} (m : IO A) (k : A -> IO B) : IO B :=
  fun p =>
    match m p with
    | (Ret a, p') => k a p'
    | (Throw e, p') => (Throw e, p')
    | (Undefined, p') => (Undefined, p')
    end.

Notation "x <~ m ;; k" := (io_bind m (fun x => k))
  (at level 61, m at next level, right associativity).
Notation "m ;;~ k" := (io_bind m (fun _ => k))
  (at level 61, right associativity).

(** A method of the object, run inside the loop. *)
Definition lift {A} (m : M A) : IO A :=
  fun p => (fst (m (object p)), mkProcess (snd (m (object p))) (trace p)).

Definition emit (e : event) : IO unit :=
  fun p => (Ret tt, mkProcess (object p) (trace p ++ [e])).

Definition get_symbol : M string := fun s => (Ret (symbol s), s).
Definition get_update_interval : M Z := fun s => (Ret (update_interval s), s).

Definition newline : string := String (Ascii.ascii_of_nat 10) EmptyString.

Section Polling.
Variable stod : string -> stod_result.
Variable to_millis : string -> Z.
(** [json::parse] followed by [j["Time Series (1min)"]]. *)
Variable json_parse : string -> payload.

(** One turn of the [while (true)] of [run].  The operands of a chain of
    [<<] are evaluated from left to right, each text written before the
    next call is made. *)
Definition run_cycle (net : curl_env) : IO unit :=
  data <~ lift (fetchData net) ;;
  lift (parseData stod to_millis (json_parse data)) ;;~
  sym <~ lift get_symbol ;;
  emit (Print "Analysis for ") ;;~ emit (Print sym) ;;~
  emit (Print (append ":" newline)) ;;~
  emit (Print "Latest price: $") ;;~
  latest <~ lift (price_at 0) ;;
  emit (PrintDouble latest) ;;~ emit Endl ;;~
  emit (Print (append "Moving Averages:" newline)) ;;~
  emit (Print "  5-period SMA: $") ;;~
  sma <~ lift (calculateSMA 5) ;;
  emit (PrintDouble sma) ;;~ emit Endl ;;~
  emit (Print "  10-period EMA: $") ;;~
  ema <~ lift (calculateEMA 10) ;;
  emit (PrintDouble ema) ;;~ emit Endl ;;~
  emit (Print "  20-period WMA: $") ;;~
  wma <~ lift (calculateWMA 20) ;;
  emit (PrintDouble wma) ;;~ emit Endl ;;~
  emit (Print (append "Volatility:" newline)) ;;~
  emit (Print "  20-period Standard Deviation: $") ;;~
  sd <~ lift (calculateStandardDeviation 20) ;;
  emit (PrintDouble sd) ;;~ emit Endl ;;~
  emit (Print "  20-period Bollinger Bands: $") ;;~
  up <~ lift (calculateBollingerBands 20 (of_int 2) true) ;;
  emit (PrintDouble up) ;;~
  emit (Print " (upper), $") ;;~
  low <~ lift (calculateBollingerBands 20 (of_int 2) false) ;;
  emit (PrintDouble low) ;;~
  emit (Print " (lower)") ;;~ emit Endl ;;~
  emit (Print (append "Trend Detection:" newline)) ;;~
  emit (Print "  Short-term trend (10 vs 30 periods): ") ;;~
  trend <~ lift (detectTrend 10 30) ;;
  emit (Print trend) ;;~ emit Endl ;;~
  emit (Print "  14-period RSI: ") ;;~
  rsi <~ lift (calculateRSI 14) ;;
  emit (PrintDouble rsi) ;;~ emit Endl ;;~
  interval <~ lift get_update_interval ;;
  emit (Print (append newline "Next update in ")) ;;~
  emit (PrintInt interval) ;;~
  emit (Print (append " seconds..." (append newline newline))) ;;~
  emit (SleepFor interval).

(** [run], for as many turns as the network is given answers; the loop has
    no exit, so [Ret] here only means that it is still turning. *)
Fixpoint run (nets : list curl_env) : IO unit :=
  match nets with
  | [] => io_ret tt
  | net :: rest => run_cycle net ;;~ run rest
  end.

(** The parse of what a fetch hands back. *)
Definition parsed (net : curl_env) (a : TimeSeriesAnalyzer)
    : outcome unit * TimeSeriesAnalyzer :=
  parseData stod to_millis (json_parse (fetched net a)) a.

(** A turn whose payload is a time series of at least one entry, every
    close of which converts. *)
Definition good_cycle (net : curl_env) (a : TimeSeriesAnalyzer) : Prop :=
  short_chunks net a /\
  exists e es vs,
    json_parse (fetched net a) = TimeSeries (e :: es)
    /\ Forall2 (fun e v => entry_price stod e = inr v) (e :: es) vs.
End Polling.

(** ** What the methods return, sentinel included *)

Definition ema_result (a : TimeSeriesAnalyzer) (period : Z) : double :=
  if size a <? period then of_int 0 else ema_spec (prices a) period.

Definition wma_result (a : TimeSeriesAnalyzer) (period : Z) : double :=
  if size a <? period then of_int 0
  else fdiv (fst (wma_sums (prices a) period (Z.to_nat period)))
            (snd (wma_sums (prices a) period (Z.to_nat period))).

Definition sd_result (a : TimeSeriesAnalyzer) (period : Z) : double :=
  if size a <? period then of_int 0 else sd_value (prices a) period.

Definition band_result (a : TimeSeriesAnalyzer) (period : Z) (m : double)
    (upper : bool) : double :=
  if upper then fadd (sma_result a period) (fmul m (sd_result a period))
  else fsub (sma_result a period) (fmul m (sd_result a period)).

Definition trend_result (a : TimeSeriesAnalyzer) (shortPeriod longPeriod : Z) : string :=
  if size a <? longPeriod then "Insufficient data"
  else trend_label (sma_result a shortPeriod) (sma_result a longPeriod).

Definition rsi_result (a : TimeSeriesAnalyzer) (period : Z) : double :=
  if size a <? period + 1 then of_int 0
  else rsi_formula (fst (rsi_sums (prices a) (Z.to_nat period)))
                   (snd (rsi_sums (prices a) (Z.to_nat period))) period.

(** The events of one report on the object [a], the sleep included. *)
Definition report (a : TimeSeriesAnalyzer) : list event :=
  [ Print "Analysis for "; Print (symbol a); Print (append ":" newline);
    Print "Latest price: $"; PrintDouble (price (prices a) 0); Endl;
    Print (append "Moving Averages:" newline);
    Print "  5-period SMA: $"; PrintDouble (sma_result a 5); Endl;
    Print "  10-period EMA: $"; PrintDouble (ema_result a 10); Endl;
    Print "  20-period WMA: $"; PrintDouble (wma_result a 20); Endl;
    Print (append "Volatility:" newline);
    Print "  20-period Standard Deviation: $"; PrintDouble (sd_result a 20); Endl;
    Print "  20-period Bollinger Bands: $";
    PrintDouble (band_result a 20 (of_int 2) true);
    Print " (upper), $";
    PrintDouble (band_result a 20 (of_int 2) false);
    Print " (lower)"; Endl;
    Print (append "Trend Detection:" newline);
    Print "  Short-term trend (10 vs 30 periods): ";
    Print (trend_result a 10 30); Endl;
    Print "  14-period RSI: "; PrintDouble (rsi_result a 14); Endl;
    Print (append newline "Next update in ");
    PrintInt (update_interval a);
    Print (append " seconds..." (append newline newline));
    SleepFor (update_interval a) ].

(** ** Windows *)

(** A window whose changes are all losses. *)
Definition all_losing (ps : list double) (period : Z) : Prop :=
  forall i, 1 <= i <= period -> is_negative (price_change ps i) = true.

(** A finite price that is not below zero, [-0] left out. *)
Definition nonneg_price (x : double) : Prop :=
  is_finite x = true /\ has_sign false x.

(** Two objects with the same configuration. *)
Definition same_config (a b : TimeSeriesAnalyzer) : Prop :=
  api_key a = api_key b /\ symbol a = symbol b /\
  update_interval a = update_interval b.

(** ** More samples *)

(** A series whose every step back in the vector is a rise. *)
Definition losing4 : TimeSeriesAnalyzer := analyzer_of (map of_int [7; 8; 9; 10]).

(** Series with prices that are not finite, as [std::stod] gives them for
    the texts [inf] and [-inf]. *)
Definition opposite_infinities : TimeSeriesAnalyzer :=
  analyzer_of [S754_infinity false; S754_infinity true].

Definition infinite_pair : TimeSeriesAnalyzer :=
  analyzer_of [S754_infinity false; S754_infinity false; of_int 1].

(** The constructor: the three fields from its arguments, both vectors
    default-constructed. *)
Definition new_analyzer (api_key symbol : string) (update_interval : Z)
    : TimeSeriesAnalyzer :=
  mkAnalyzer api_key symbol update_interval [] [].

(** A transfer of the sample payload in two chunks, with a result code that
    reports a failure. *)
Definition sample_net : curl_env :=
  mkCurl true (fun _ => (["{ Time Series"%string; " (1min) }"%string], 28)).

Definition no_handle : curl_env := mkCurl false (fun _ => ([], 0)).

(** [json::parse] and the lookup of the series on the sample bodies. *)
Definition sample_json_parse (s : string) : payload :=
  if String.eqb s "{ Time Series (1min) }" then TimeSeries [good_entry]
  else if String.eqb s "{ Note }" then TimeSeries []
  else NotJson.

(** A transfer of a body without the series, as the service sends when it
    refuses a request. *)
Definition note_net : curl_env := mkCurl true (fun _ => (["{ Note }"%string], 0)).

(** * Binary64 arithmetic

    Facts about [SpecFloat]'s rounding at [prec = 53], [emax = 1024].

    ** Shifts and digit counts *)

Lemma emin_eq : SpecFloat.emin prec emax = emin.
Proof. reflexivity. Qed.

Lemma fexp_eq (e : Z) : fexp prec emax e = Z.max (e - 53) emin.
Proof. reflexivity. Qed.

Lemma iter_pos_iter {A} (f : A -> A) (p : positive) (x : A) :
  iter_pos f p x = Pos.iter f x p.
Proof.
  revert x; induction p as [p IH | p IH | ]; intro x; simpl.
  - rewrite !IH, <- !Pos.iter_swap. reflexivity.
  - rewrite !IH. reflexivity.
  - reflexivity.
Qed.

Lemma digits2_size (p : positive) : digits2_pos p = Pos.size p.
Proof. induction p; simpl; congruence. Qed.

Lemma digits2_bounds (p : positive) :
  2 ^ (Z.pos (digits2_pos p) - 1) <= Z.pos p < 2 ^ Z.pos (digits2_pos p).
Proof.
  induction p as [p IH | p IH | ]; simpl digits2_pos.
  - rewrite Pos2Z.inj_succ.
    replace (Z.succ (Z.pos (digits2_pos p)) - 1) with (Z.succ (Z.pos (digits2_pos p) - 1)) by lia.
    rewrite !Z.pow_succ_r by lia. lia.
  - rewrite Pos2Z.inj_succ.
    replace (Z.succ (Z.pos (digits2_pos p)) - 1) with (Z.succ (Z.pos (digits2_pos p) - 1)) by lia.
    rewrite !Z.pow_succ_r by lia. lia.
  - simpl. lia.
Qed.

Lemma digits2_unique (p : positive) (k : Z) :
  2 ^ (k - 1) <= Z.pos p < 2 ^ k -> Z.pos (digits2_pos p) = k.
Proof.
  intros [Hlo Hhi].
  pose proof (digits2_bounds p) as [Dlo Dhi].
  assert (Hk : 0 < k).
  { destruct (Z_lt_le_dec 0 k) as [|Hle]; [assumption|].
    exfalso. destruct (Z.eq_dec k 0) as [->|Hn].
    - simpl in Hhi. lia.
    - rewrite (Z.pow_neg_r 2 k) in Hhi by lia. lia. }
  destruct (Z.lt_trichotomy (Z.pos (digits2_pos p)) k) as [Hlt | [Heq | Hgt]].
  - exfalso.
    assert (2 ^ Z.pos (digits2_pos p) <= 2 ^ (k - 1)) by (apply Z.pow_le_mono_r; lia).
    lia.
  - assumption.
  - exfalso.
    assert (2 ^ k <= 2 ^ (Z.pos (digits2_pos p) - 1)) by (apply Z.pow_le_mono_r; lia).
    lia.
Qed.

Lemma digits2_shift (p : positive) (n : positive) :
  Z.pos (digits2_pos (Pos.iter xO p n)) = Z.pos (digits2_pos p) + Z.pos n.
Proof.
  induction n as [|n IH] using Pos.peano_ind.
  - simpl. lia.
  - rewrite Pos.iter_succ. simpl digits2_pos. rewrite !Pos2Z.inj_succ, IH. lia.
Qed.

Lemma iter_xO_value (p n : positive) :
  Z.pos (Pos.iter xO p n) = Z.pos p * 2 ^ Z.pos n.
Proof.
  induction n as [|n IH] using Pos.peano_ind.
  - simpl. lia.
  - rewrite Pos.iter_succ, Pos2Z.inj_succ, Z.pow_succ_r by lia.
    rewrite Pos2Z.inj_xO, IH. ring.
Qed.

(** One right shift halves the mantissa. *)
Lemma shr_1_m (mrs : shr_record) :
  0 <= shr_m mrs -> shr_m (shr_1 mrs) = shr_m mrs / 2.
Proof.
  destruct mrs as [m r s]; simpl; intro Hm.
  destruct m as [|[p|p|]|p]; cbn [shr_m]; try lia; try reflexivity.
  - apply Z.div_unique with (r := 1); lia.
  - apply Z.div_unique with (r := 0); lia.
Qed.

Lemma shr_iter_m (mrs : shr_record) (n : positive) :
  0 <= shr_m mrs ->
  shr_m (iter_pos shr_1 n mrs) = shr_m mrs / 2 ^ Z.pos n.
Proof.
  intro Hm. rewrite iter_pos_iter.
  induction n as [|n IH] using Pos.peano_ind.
  - simpl Pos.iter. rewrite shr_1_m by assumption. reflexivity.
  - rewrite Pos.iter_succ, shr_1_m.
    + rewrite IH, Pos2Z.inj_succ, Z.pow_succ_r by lia.
      rewrite Z.div_div by lia. f_equal. lia.
    + rewrite IH. apply Z.div_pos; lia.
Qed.

Lemma round_nearest_even_range (m : Z) (l : location) :
  m <= round_nearest_even m l <= m + 1.
Proof.
  destruct l as [|[]]; simpl; try lia.
  destruct (Z.even m); lia.
Qed.

(** What [shr_fexp] does to a non-negative mantissa. *)
Lemma shr_fexp_m (m e : Z) (l : location) :
  0 <= m ->
  let n := fexp prec emax (Zdigits2 m + e) - e in
  (n <= 0 /\ shr_fexp prec emax m e l = (shr_record_of_loc m l, e)) \/
  (0 < n /\ exists mrs, shr_fexp prec emax m e l = (mrs, e + n)
                         /\ shr_m mrs = m / 2 ^ n).
Proof.
  intros Hm n. unfold shr_fexp. fold n.
  destruct n as [|p|p] eqn:En.
  - left. split; [lia | reflexivity].
  - right. split; [lia|]. simpl shr.
    eexists. split; [reflexivity|].
    rewrite shr_iter_m; destruct l as [|[]]; simpl; auto.
  - left. split; [lia | reflexivity].
Qed.

Lemma shr_m_of_loc (m : Z) (l : location) : shr_m (shr_record_of_loc m l) = m.
Proof. destruct l as [|[]]; reflexivity. Qed.

Lemma pow2_pos (k : Z) : 0 <= k -> 0 < 2 ^ k.
Proof. intro; apply Z.pow_pos_nonneg; lia. Qed.

Lemma pow2_ge_2 (k : Z) : 1 <= k -> 2 <= 2 ^ k.
Proof.
  intro Hk. change 2 with (2 ^ 1) at 1. apply Z.pow_le_mono_r; lia.
Qed.

(** First shift of [binary_round_aux]: either nothing moves, or the result
    is a full 53-bit mantissa above the least exponent. *)
Lemma first_shift (m : positive) (e : Z) (l : location) :
  emin <= e ->
  e = emin \/ 53 <= Z.pos (digits2_pos m) ->
  exists mrs e1,
    shr_fexp prec emax (Z.pos m) e l = (mrs, e1) /\
    0 < shr_m mrs < 2 ^ 53 /\ emin <= e1 /\
    ((e1 = e /\ shr_m mrs = Z.pos m) \/ (emin < e1 /\ 2 ^ 52 <= shr_m mrs)).
Proof.
  intros He Hd.
  pose proof (digits2_bounds m) as [Dlo Dhi].
  set (d := Z.pos (digits2_pos m)) in *.
  destruct (shr_fexp_m (Z.pos m) e l ltac:(lia)) as [[Hn Heq] | [Hn [mrs [Heq Hm]]]];
    simpl Zdigits2 in Hn; fold d in Hn; rewrite fexp_eq in Hn.
  - exists (shr_record_of_loc (Z.pos m) l), e.
    rewrite shr_m_of_loc. split; [exact Heq|].
    assert (Hd53 : d <= 53) by lia.
    assert (2 ^ d <= 2 ^ 53) by (apply Z.pow_le_mono_r; lia).
    repeat split; lia.
  - simpl Zdigits2 in Heq, Hm; fold d in Heq, Hm; rewrite fexp_eq in Heq, Hm.
    assert (Hmax : Z.max (d + e - 53) emin = d + e - 53) by lia.
    rewrite Hmax in *.
    replace (d + e - 53 - e) with (d - 53) in * by lia.
    exists mrs, (e + (d - 53)). split; [exact Heq|].
    assert (Hsplit : 2 ^ d = 2 ^ 53 * 2 ^ (d - 53)).
    { rewrite <- Z.pow_add_r by lia. f_equal; lia. }
    assert (Hsplit' : 2 ^ (d - 1) = 2 ^ 52 * 2 ^ (d - 53)).
    { rewrite <- Z.pow_add_r by lia. f_equal; lia. }
    pose proof (pow2_pos (d - 53) ltac:(lia)) as Hp.
    assert (Hlo : 2 ^ 52 <= shr_m mrs).
    { rewrite Hm. apply Z.div_le_lower_bound; lia. }
    assert (Hhi : shr_m mrs < 2 ^ 53).
    { rewrite Hm. apply Z.div_lt_upper_bound; lia. }
    repeat split; lia.
Qed.

(** Second shift: a mantissa of at most 54 bits is renormalised without
    changing the value. *)
Lemma second_shift (m2 e1 : Z) :
  0 < m2 <= 2 ^ 53 -> emin <= e1 ->
  exists mrs e3,
    shr_fexp prec emax m2 e1 loc_Exact = (mrs, e3) /\
    0 < shr_m mrs /\ e1 <= e3 /\ shr_m mrs * 2 ^ (e3 - e1) = m2.
Proof.
  intros [Hlo Hhi] He.
  destruct m2 as [|p|p]; try lia.
  pose proof (digits2_bounds p) as [Dlo Dhi].
  set (d := Z.pos (digits2_pos p)) in *.
  destruct (shr_fexp_m (Z.pos p) e1 loc_Exact ltac:(lia)) as [[Hn Heq] | [Hn [mrs [Heq Hm]]]];
    simpl Zdigits2 in Hn; fold d in Hn; rewrite fexp_eq in Hn.
  - exists (shr_record_of_loc (Z.pos p) loc_Exact), e1.
    split; [exact Heq|]. simpl shr_m.
    rewrite Z.sub_diag. simpl. lia.
  - simpl Zdigits2 in Heq, Hm; fold d in Heq, Hm; rewrite fexp_eq in Heq, Hm.
    assert (Hd : d = 54).
    { assert (53 < d) by lia.
      destruct (Z_lt_le_dec 54 d) as [Hgt|]; [|lia].
      exfalso. assert (2 ^ 54 <= 2 ^ (d - 1)) by (apply Z.pow_le_mono_r; lia).
      lia. }
    assert (Hp : Z.pos p = 2 ^ 53) by (rewrite Hd in Dlo; simpl in Dlo; lia).
    assert (Hmax : Z.max (d + e1 - 53) emin - e1 = 1) by lia.
    rewrite Hmax in *.
    exists mrs, (e1 + 1). split; [exact Heq|].
    rewrite Hm, Hp. replace (e1 + 1 - e1) with 1 by lia.
    change (2 ^ 53 / 2 ^ 1) with (2 ^ 52). simpl. lia.
Qed.

Lemma shr_fexp_nonneg (m e : Z) (l : location) :
  0 <= m -> 0 <= shr_m (fst (shr_fexp prec emax m e l)).
Proof.
  intro Hm.
  destruct (shr_fexp_m m e l Hm) as [[_ Heq] | [Hn [mrs [Heq Hq]]]]; rewrite Heq; simpl fst.
  - rewrite shr_m_of_loc. exact Hm.
  - rewrite Hq. apply Z.div_pos; [lia | apply pow2_pos; lia].
Qed.

Lemma binary_round_aux_sign (s : bool) (m e : Z) (l : location) :
  0 <= m -> has_sign s (binary_round_aux prec emax s m e l).
Proof.
  intro Hm. unfold binary_round_aux.
  pose proof (shr_fexp_nonneg m e l Hm) as H1.
  destruct (shr_fexp prec emax m e l) as [mrs' e']. simpl fst in H1.
  pose proof (round_nearest_even_range (shr_m mrs') (loc_of_shr_record mrs')) as H2.
  pose proof (shr_fexp_nonneg (round_nearest_even (shr_m mrs') (loc_of_shr_record mrs')) e' loc_Exact ltac:(lia)) as H3.
  destruct (shr_fexp prec emax _ e' loc_Exact) as [mrs'' e'']. simpl fst in H3.
  destruct (shr_m mrs'') as [|p|p]; try lia; [reflexivity|].
  destruct (e'' <=? emax - prec); reflexivity.
Qed.

(** Lower bound on a rounding, counted in units of the least subnormal. *)
Lemma binary_round_aux_lower (s : bool) (m : positive) (e : Z) (l : location) (T : Z) :
  emin <= e ->
  e = emin \/ 53 <= Z.pos (digits2_pos m) ->
  T <= 2 ^ 53 -> T <= Z.pos m * 2 ^ (e - emin) ->
  binary_round_aux prec emax s (Z.pos m) e l = S754_infinity s \/
  exists m' e', binary_round_aux prec emax s (Z.pos m) e l = S754_finite s m' e'
                /\ emin <= e' /\ T <= Z.pos m' * 2 ^ (e' - emin).
Proof.
  intros He Hd HT HTm. unfold binary_round_aux.
  destruct (first_shift m e l He Hd) as (mrs & e1 & Heq1 & Hm1 & He1 & Hcase).
  rewrite Heq1.
  pose proof (round_nearest_even_range (shr_m mrs) (loc_of_shr_record mrs)) as Hr.
  set (m2 := round_nearest_even (shr_m mrs) (loc_of_shr_record mrs)) in *.
  destruct (second_shift m2 e1 ltac:(lia) He1) as (mrs2 & e3 & Heq2 & Hm3 & He3 & Hval).
  rewrite Heq2.
  destruct (shr_m mrs2) as [|m3|m3] eqn:Em3; try lia.
  destruct (e3 <=? emax - prec); [right | left; reflexivity].
  exists m3, e3. split; [reflexivity|]. split; [lia|].
  replace (e3 - emin) with ((e3 - e1) + (e1 - emin)) by lia.
  rewrite Z.pow_add_r, Z.mul_assoc, Hval by lia.
  destruct Hcase as [[-> Hsame] | [Hgt Hbig]].
  - pose proof (pow2_pos (e - emin) ltac:(lia)). nia.
  - pose proof (pow2_ge_2 (e1 - emin) ltac:(lia)). 
    change (2 ^ 53) with (2 ^ 52 * 2) in HT. nia.
Qed.

Lemma shl_align_spec (m : positive) (e e' : Z) :
  exists mz ez,
    shl_align m e e' = (mz, ez) /\ ez = Z.min e e' /\
    Z.pos mz = Z.pos m * 2 ^ (e - ez) /\
    Z.pos (digits2_pos mz) = Z.pos (digits2_pos m) + (e - ez).
Proof.
  unfold shl_align. destruct (e' - e) as [|d|d] eqn:Ed.
  - exists m, e. rewrite Z.min_l by lia. rewrite Z.sub_diag. simpl. repeat split; lia.
  - exists m, e. rewrite Z.min_l by lia. rewrite Z.sub_diag. simpl. repeat split; lia.
  - exists (Pos.iter xO m d), e'. rewrite Z.min_r by lia.
    replace (e - e') with (Z.pos d) by lia.
    rewrite iter_xO_value, digits2_shift. repeat split; lia.
Qed.

Lemma binary_round_aux_canonical (s : bool) (m : positive) (e : Z) :
  canonical_mantissa prec emax m e = true -> e <= emax - prec ->
  binary_round_aux prec emax s (Z.pos m) e loc_Exact = S754_finite s m e.
Proof.
  unfold canonical_mantissa. intros Hc He. apply Z.eqb_eq in Hc.
  unfold binary_round_aux, shr_fexp. cbn [Zdigits2].
  rewrite Hc, Z.sub_diag.
  cbn [shr shr_record_of_loc shr_m loc_of_shr_record round_nearest_even Zdigits2].
  rewrite Hc, Z.sub_diag. cbn [shr shr_record_of_loc shr_m].
  apply Z.leb_le in He. rewrite He. reflexivity.
Qed.

(** Rounding a value that needs no more than 53 bits is exact. *)
Lemma binary_round_small (s : bool) (m : positive) (e : Z) :
  let ec := fexp prec emax (Z.pos (digits2_pos m) + e) in
  ec <= e -> ec <= emax - prec ->
  exists mz, binary_round prec emax s m e = S754_finite s mz ec
             /\ Z.pos mz = Z.pos m * 2 ^ (e - ec).
Proof.
  intros ec Hec Hmax. unfold binary_round. fold ec.
  destruct (shl_align_spec m e ec) as (mz & ez & Heq & Hez & Hval & Hdig).
  rewrite Heq. rewrite Z.min_r in Hez by lia. subst ez.
  exists mz. split; [|exact Hval].
  apply binary_round_aux_canonical; [|exact Hmax].
  unfold canonical_mantissa. apply Z.eqb_eq. rewrite Hdig.
  replace (Z.pos (digits2_pos m) + (e - ec) + ec) with (Z.pos (digits2_pos m) + e) by lia.
  reflexivity.
Qed.

Lemma binary_round_lower (s : bool) (m : positive) (e T : Z) :
  emin <= e -> T <= 2 ^ 53 -> T <= Z.pos m * 2 ^ (e - emin) ->
  binary_round prec emax s m e = S754_infinity s \/
  exists m' e', binary_round prec emax s m e = S754_finite s m' e'
                /\ emin <= e' /\ T <= Z.pos m' * 2 ^ (e' - emin).
Proof.
  intros He HT HTm. unfold binary_round.
  destruct (shl_align_spec m e (fexp prec emax (Z.pos (digits2_pos m) + e)))
    as (mz & ez & Heq & Hez & Hval & Hdig).
  rewrite Heq. rewrite fexp_eq in Hez.
  apply binary_round_aux_lower; try lia.
  rewrite Hval, <- Z.mul_assoc, <- Z.pow_add_r by lia.
  replace (e - ez + (ez - emin)) with (e - emin) by lia. exact HTm.
Qed.

Lemma binary_round_sign (s : bool) (m : positive) (e : Z) :
  has_sign s (binary_round prec emax s m e).
Proof.
  unfold binary_round. destruct (shl_align _ _ _) as [mz ez].
  apply binary_round_aux_sign. lia.
Qed.

Lemma binary_normalize_not_nan (m e : Z) (sz : bool) :
  is_nan (binary_normalize prec emax m e sz) = false.
Proof.
  destruct m as [|p|p]; simpl; [reflexivity| |].
  - pose proof (binary_round_sign false p e) as H.
    destruct (binary_round prec emax false p e); simpl in *; tauto.
  - pose proof (binary_round_sign true p e) as H.
    destruct (binary_round prec emax true p e); simpl in *; tauto.
Qed.

(** ** Conversions of positive integers *)

Lemma of_int_pos (k : positive) :
  Z.pos k < 2 ^ 53 ->
  exists m e, of_int (Z.pos k) = S754_finite false m e
              /\ e <= 0 /\ emin <= e /\ Z.pos m = Z.pos k * 2 ^ (- e).
Proof.
  intro Hk. unfold of_int. simpl binary_normalize.
  pose proof (digits2_bounds k) as [Dlo Dhi].
  set (d := Z.pos (digits2_pos k)) in *.
  assert (Hd : d <= 53).
  { destruct (Z_lt_le_dec 53 d) as [Hgt|]; [|lia].
    exfalso. assert (2 ^ 53 <= 2 ^ (d - 1)) by (apply Z.pow_le_mono_r; lia). lia. }
  assert (Hd0 : 0 < d) by (unfold d; lia).
  assert (Hec : fexp prec emax (d + 0) = d - 53).
  { rewrite fexp_eq. unfold emin. lia. }
  destruct (binary_round_small false k 0) as (mz & Heq & Hval).
  - fold d. rewrite Hec. lia.
  - fold d. rewrite Hec. unfold emax, prec. lia.
  - fold d in Heq, Hval. rewrite Hec in Heq, Hval.
    exists mz, (d - 53). split; [exact Heq|].
    unfold emin. repeat split; try lia.
    rewrite Hval. reflexivity.
Qed.

(** ** Sums and quotients of positive doubles *)

Lemma at_least_weaken (T T' : Z) (x : double) :
  T' <= T -> at_least T x -> at_least T' x.
Proof.
  intros HT. destruct x as [s|[|]| |[|] m e]; simpl; try tauto.
  intros [? ?]; split; lia.
Qed.

Lemma fadd_at_least (T1 T2 : Z) (x y : double) :
  at_least T1 x -> at_least T2 y -> T1 + T2 <= 2 ^ 53 ->
  at_least (T1 + T2) (fadd x y).
Proof.
  destruct x as [sx|[|]| |[|] mx ex]; cbn [at_least]; try tauto;
  destruct y as [sy|[|]| |[|] my ey]; cbn [at_least]; try tauto.
  intros [Hex Hx] [Hey Hy] HT.
  unfold fadd, SFadd. simpl cond_Zopp.
  destruct (shl_align_spec mx ex (Z.min ex ey)) as (ax & ezx & Hax & Hezx & Hvx & _).
  destruct (shl_align_spec my ey (Z.min ex ey)) as (ay & ezy & Hay & Hezy & Hvy & _).
  rewrite Hax, Hay. simpl fst. simpl Z.add. simpl binary_normalize.
  rewrite Z.min_r in Hezx by lia. rewrite Z.min_r in Hezy by lia. subst ezx ezy.
  set (ez := Z.min ex ey) in *.
  assert (Hsum : T1 + T2 <= Z.pos (ax + ay) * 2 ^ (ez - emin)).
  { rewrite Pos2Z.inj_add, Z.mul_add_distr_r, Hvx, Hvy.
    rewrite <- !Z.mul_assoc, <- !Z.pow_add_r by lia.
    replace (ex - ez + (ez - emin)) with (ex - emin) by lia.
    replace (ey - ez + (ez - emin)) with (ey - emin) by lia. lia. }
  destruct (binary_round_lower false (ax + ay) ez (T1 + T2) ltac:(lia) HT Hsum)
    as [-> | (m' & e' & -> & He' & Hm')]; simpl; auto.
Qed.

Lemma fadd_zero_l (y : double) :
  at_least 1 y -> fadd (S754_zero false) y = y.
Proof. destruct y as [s|[|]| |[|] m e]; simpl; tauto. Qed.

Lemma shift_or_id (m s : Z) :
  0 <= s ->
  match s with Z.pos _ => Z.shiftl m s | 0 => m | Z.neg _ => 0 end = m * 2 ^ s.
Proof.
  intro Hs. destruct s as [|p|p].
  - rewrite Z.pow_0_r, Z.mul_1_r. reflexivity.
  - rewrite Z.shiftl_mul_pow2 by lia. reflexivity.
  - lia.
Qed.

(** The quotient of a positive double by a smaller positive one does not
    underflow to zero. *)
Lemma fdiv_at_least (m1 : positive) (e1 : Z) (m2 : positive) (e2 : Z) :
  emin <= e1 -> e2 <= 0 ->
  Z.pos m2 <= Z.pos m1 * 2 ^ (e1 - emin - e2) ->
  at_least 1 (fdiv (S754_finite false m1 e1) (S754_finite false m2 e2)).
Proof.
  intros He1 He2 Hle. unfold fdiv, SFdiv, SFdiv_core_binary.
  simpl Zdigits2. simpl xorb.
  pose proof (digits2_bounds m1) as [D1lo D1hi].
  pose proof (digits2_bounds m2) as [D2lo D2hi].
  set (d1 := Z.pos (digits2_pos m1)) in *.
  set (d2 := Z.pos (digits2_pos m2)) in *.
  assert (Hd1 : 0 < d1) by (unfold d1; lia).
  assert (Hd2 : 0 < d2) by (unfold d2; lia).
  rewrite fexp_eq.
  set (e' := Z.min (Z.max (d1 + e1 - (d2 + e2) - 53) emin) (e1 - e2)).
  set (sh := e1 - e2 - e').
  assert (Hsh : 0 <= sh) by (unfold sh, e'; lia).
  assert (He' : emin <= e') by (unfold e'; lia).
  set (m' := match sh with Z.pos _ => Z.shiftl (Z.pos m1) sh | 0 => Z.pos m1 | Z.neg _ => 0 end).
  assert (Hm' : m' = Z.pos m1 * 2 ^ sh).
  { unfold m'. apply shift_or_id. exact Hsh. }
  clearbody m'.
  pose proof (Z_div_mod m' (Z.pos m2) ltac:(lia)) as Hdm.
  destruct (Z.div_eucl m' (Z.pos m2)) as [q r]. destruct Hdm as [Hq Hr].
  pose proof (pow2_pos sh Hsh) as Hpsh.
  (* the quotient is positive, and has 53 bits above the least exponent *)
  assert (Hq1 : 1 <= q /\ (e' = emin \/ 2 ^ 52 <= q)).
  { destruct (Z.eq_dec e' emin) as [Heq|Hne].
    - split; [|left; exact Heq].
      assert (Z.pos m2 <= m').
      { rewrite Hm'. unfold sh. rewrite Heq.
        replace (e1 - e2 - emin) with (e1 - emin - e2) by lia. exact Hle. }
      nia.
    - assert (Hbig : 2 ^ 52 * Z.pos m2 <= m').
      { assert (Hs2 : 53 + d2 - d1 <= sh) by (unfold sh, e'; lia).
        rewrite Hm'.
        assert (H1 : 2 ^ (52 + d2) <= Z.pos m1 * 2 ^ sh).
        { destruct (Z_le_gt_dec 0 (53 + d2 - d1)) as [Hnn|Hneg].
          - assert (2 ^ (53 + d2 - d1) <= 2 ^ sh) by (apply Z.pow_le_mono_r; lia).
            replace (52 + d2) with ((d1 - 1) + (53 + d2 - d1)) by lia.
            rewrite Z.pow_add_r by lia.
            pose proof (pow2_pos (d1 - 1) ltac:(lia)).
            pose proof (pow2_pos (53 + d2 - d1) Hnn). nia.
          - assert (2 ^ (52 + d2) <= 2 ^ (d1 - 1)) by (apply Z.pow_le_mono_r; lia).
            nia. }
        rewrite Z.pow_add_r in H1 by lia. nia. }
      assert (2 ^ 52 <= q) by nia.
      split; [lia | right; assumption]. }
  destruct Hq1 as [Hq1 Hq52].
  destruct q as [|pq|pq]; try lia.
  assert (Hdq : e' = emin \/ 53 <= Z.pos (digits2_pos pq)).
  { destruct Hq52 as [|Hbig]; [left; assumption | right].
    pose proof (digits2_bounds pq) as [_ Dq].
    destruct (Z_lt_le_dec (Z.pos (digits2_pos pq)) 53) as [Hlt|]; [|assumption].
    exfalso. assert (2 ^ Z.pos (digits2_pos pq) <= 2 ^ 52) by (apply Z.pow_le_mono_r; lia).
    lia. }
  assert (HT : 1 <= Z.pos pq * 2 ^ (e' - emin)).
  { pose proof (pow2_pos (e' - emin) ltac:(lia)). nia. }
  destruct (binary_round_aux_lower false pq e' (new_location (Z.pos m2) r) 1 He' Hdq ltac:(lia) HT)
    as [-> | (mr & er & -> & Her & Hmr)]; simpl; auto.
Qed.

(** ** Closure: no NaN out of finite operands *)

Lemma fadd_not_nan (x y : double) :
  is_nan x = false -> is_finite y = true -> is_nan (fadd x y) = false.
Proof.
  unfold fadd, SFadd.
  destruct x as [sx|sx| |sx mx ex], y as [sy|sy| |sy my ey];
    simpl is_nan; simpl is_finite; try discriminate; intros _ _;
    try reflexivity.
  - destruct sx, sy; reflexivity.
  - apply binary_normalize_not_nan.
Qed.

Lemma fsub_not_nan (x y : double) :
  is_finite x = true -> is_finite y = true -> is_nan (fsub x y) = false.
Proof.
  unfold fsub, SFsub.
  destruct x as [sx|sx| |sx mx ex], y as [sy|sy| |sy my ey];
    simpl is_nan; simpl is_finite; try discriminate; intros _ _;
    try reflexivity.
  - destruct sx, sy; reflexivity.
  - apply binary_normalize_not_nan.
Qed.

Lemma fdiv_not_nan (x : double) (s : bool) (m : positive) (e : Z) :
  is_nan x = false -> is_nan (fdiv x (S754_finite s m e)) = false.
Proof.
  unfold fdiv, SFdiv.
  destruct x as [sx|sx| |sx mx ex]; simpl is_nan; try discriminate; intros _;
    try reflexivity.
  unfold SFdiv_core_binary.
  match goal with |- context [Z.div_eucl ?a ?b] =>
    pose proof (Z_div_mod a b ltac:(lia)) as Hdm;
    assert (Ha : 0 <= a);
    [| destruct (Z.div_eucl a b) as [q r] ]
  end.
  - match goal with |- 0 <= match ?s with _ => _ end =>
      destruct s as [|p|p] eqn:Es; try lia end.
    apply Z.shiftl_nonneg. lia.
  - destruct Hdm as [Hq Hr].
    assert (Hq0 : 0 <= q) by nia.
    pose proof (binary_round_aux_sign (xorb sx s) q
      (Z.min (fexp prec emax (Zdigits2 (Z.pos mx) + ex - (Zdigits2 (Z.pos m) + e))) (ex - e))
      (new_location (Z.pos m) r) Hq0) as Hs.
    destruct (binary_round_aux _ _ _ _ _ _); simpl in *; tauto.
Qed.

(** ** Comparisons *)

Lemma SFcompare_antisym (a b : double) :
  SFcompare b a = option_map CompOpp (SFcompare a b).
Proof.
  destruct a as [sa|sa| |sa ma ea], b as [sb|sb| |sb mb eb]; simpl;
    try reflexivity; try (destruct sa; reflexivity); try (destruct sb; reflexivity);
    try (destruct sa, sb; reflexivity).
  rewrite (Z.compare_antisym ea eb), !Pos.compare_cont_spec.
  rewrite (Pos.compare_antisym ma mb).
  destruct sa, sb; simpl; try reflexivity;
    destruct (ea ?= eb); simpl; try reflexivity;
    destruct (ma ?= mb)%positive; reflexivity.
Qed.

Lemma SFcompare_not_nan (a b : double) :
  is_nan a = false -> is_nan b = false -> exists c, SFcompare a b = Some c.
Proof.
  destruct a as [sa|sa| |sa ma ea], b as [sb|sb| |sb mb eb]; simpl;
    try discriminate; intros _ _; eexists; reflexivity.
Qed.

Lemma flt_asym (a b : double) : flt a b = true -> fgt a b = false.
Proof.
  unfold flt, fgt, SFltb. rewrite (SFcompare_antisym a b).
  destruct (SFcompare a b) as [[| |]|]; simpl; congruence.
Qed.

Lemma feq_iff_neither (a b : double) :
  is_nan a = false -> is_nan b = false ->
  (feq a b = true <-> fgt a b = false /\ flt a b = false).
Proof.
  intros Ha Hb. unfold feq, flt, fgt, SFeqb, SFltb.
  rewrite (SFcompare_antisym a b).
  destruct (SFcompare_not_nan a b Ha Hb) as [c ->].
  destruct c; simpl; intuition congruence.
Qed.

(** ** Subtraction is addition of the opposite *)

Lemma fsub_fadd_opp (x y : double) : fsub x y = fadd x (SFopp y).
Proof.
  unfold fsub, fadd, SFsub, SFadd.
  destruct x as [sx|sx| |sx mx ex], y as [sy|sy| |sy my ey]; simpl SFopp;
    try reflexivity; try (destruct sx, sy; reflexivity).
Qed.

(** ** Signs *)

Lemma fadd_nonneg (x y : double) :
  nonneg_or_nan x -> has_sign false y -> nonneg_or_nan (fadd x y).
Proof.
  unfold fadd, SFadd.
  destruct x as [sx|sx| |sx mx ex], y as [sy|sy| |sy my ey]; simpl has_sign;
    simpl nonneg_or_nan; try tauto; intros -> ->; try reflexivity.
  simpl cond_Zopp.
  destruct (shl_align mx ex (Z.min ex ey)) as [ax ?].
  destruct (shl_align my ey (Z.min ex ey)) as [ay ?]. simpl fst. simpl Z.add.
  simpl binary_normalize.
  pose proof (binary_round_sign false (ax + ay) (Z.min ex ey)) as H.
  destruct (binary_round _ _ _ _ _); simpl in *; tauto.
Qed.

Lemma negative_abs (c : double) :
  is_negative c = true -> SFopp c = SFabs c /\ has_sign false (SFabs c).
Proof.
  destruct c as [s|[|]| |[|] m e]; simpl; try discriminate; auto.
Qed.

Lemma zero_of_neither (c : double) :
  is_nan c = false -> is_positive c = false -> is_negative c = false ->
  exists s, c = S754_zero s.
Proof.
  destruct c as [s|[|]| |[|] m e]; simpl; try discriminate; eauto.
Qed.

Lemma fsub_zero_r (l : double) (s : bool) :
  nonneg_or_nan l -> fsub l (S754_zero s) = l.
Proof.
  destruct l as [sl|sl| |sl ml el]; simpl; try reflexivity.
  intros ->. destruct s; reflexivity.
Qed.

(** ** Positive doubles, counted in units *)

Lemma is_double_emin (s : bool) (m : positive) (e : Z) :
  is_double (S754_finite s m e) -> emin <= e.
Proof.
  unfold is_double, valid_binary, bounded, canonical_mantissa.
  intro H. apply andb_prop in H. destruct H as [H _].
  apply Z.eqb_eq in H. rewrite fexp_eq in H. lia.
Qed.

Lemma positive_at_least (p : double) :
  is_double p -> is_positive p = true -> at_least 1 p.
Proof.
  destruct p as [s|[|]| |[|] m e]; intros Hv Hp; try (simpl in Hp; discriminate);
    cbn [at_least]; auto.
  apply is_double_emin in Hv. split; [assumption|].
  pose proof (pow2_pos (e - emin) ltac:(lia)). nia.
Qed.

Lemma at_least_positive (T : Z) (x : double) :
  at_least T x -> is_positive x = true /\ is_negative x = false.
Proof.
  destruct x as [s|[|]| |[|] m e]; simpl; try tauto; auto.
Qed.

Lemma fsub_positive_at_least (a b : double) :
  is_double a -> is_double b -> is_positive (fsub a b) = true ->
  at_least 1 (fsub a b).
Proof.
  intros Ha Hb. unfold fsub, SFsub.
  destruct a as [sa|sa| |sa ma ea], b as [sb|sb| |sb mb eb];
    try (simpl; discriminate).
  - destruct sa, sb; simpl; discriminate.
  - destruct sb; simpl; try discriminate; auto.
  - destruct sb; intro Hp; try (simpl in Hp; discriminate).
    apply (positive_at_least (S754_finite false mb eb)); [exact Hb | reflexivity].
  - destruct sa; simpl; try discriminate; auto.
  - destruct sa, sb; simpl; try discriminate; auto.
  - destruct sa; simpl; try discriminate; auto.
  - intro H. apply positive_at_least; assumption.
  - destruct sb; simpl; try discriminate; auto.
  - apply is_double_emin in Ha, Hb.
    set (z := cond_Zopp sa (Z.pos (fst (shl_align ma ea (Z.min ea eb))))
              - cond_Zopp sb (Z.pos (fst (shl_align mb eb (Z.min ea eb))))).
    destruct z as [|p|p]; simpl binary_normalize.
    + simpl. discriminate.
    + intros _.
      destruct (binary_round_lower false p (Z.min ea eb) 1) as [-> | (m' & e' & -> & ? & ?)];
        cbn [at_least]; auto; try lia;
        try (pose proof (pow2_pos (Z.min ea eb - emin) ltac:(lia)); nia).
    + pose proof (binary_round_sign true p (Z.min ea eb)) as Hs.
      destruct (binary_round _ _ _ _ _) as [s|s| |s m e]; simpl in Hs; subst;
        simpl; try discriminate; tauto.
Qed.

Lemma of_int_positive (k : Z) :
  1 <= k < 2 ^ 53 ->
  exists m e, of_int k = S754_finite false m e
              /\ e <= 0 /\ emin <= e /\ Z.pos m = k * 2 ^ (- e).
Proof.
  intro Hk. destruct k as [|p|p]; try lia. apply of_int_pos. lia.
Qed.

Lemma fdiv_of_int_at_least (k : Z) (x : double) :
  1 <= k < 2 ^ 53 -> at_least k x -> at_least 1 (fdiv x (of_int k)).
Proof.
  intros Hk Hx. destruct (of_int_positive k Hk) as (m2 & e2 & -> & He2 & He2' & Hm2).
  destruct x as [s|[|]| |[|] m1 e1]; cbn [at_least] in Hx; try tauto;
    try exact I.
  destruct Hx as [He1 Hx]. apply fdiv_at_least; try assumption.
  rewrite Hm2. replace (e1 - emin - e2) with ((e1 - emin) + (- e2)) by lia.
  rewrite Z.pow_add_r, Z.mul_assoc by lia.
  pose proof (pow2_pos (- e2) ltac:(lia)). nia.
Qed.

(** ** Exact results

    When the value to round is itself a double, rounding returns it. *)

Lemma shr_iter_exact (m0 n : positive) :
  iter_pos shr_1 n (Build_shr_record (Z.pos (Pos.iter xO m0 n)) false false)
  = Build_shr_record (Z.pos m0) false false.
Proof.
  rewrite iter_pos_iter. induction n as [|n IH] using Pos.peano_ind.
  - reflexivity.
  - rewrite Pos.iter_succ_r, (Pos.iter_succ n _ xO). exact IH.
Qed.

Lemma pos_shift_eq (m m0 n : positive) :
  Z.pos m = Z.pos m0 * 2 ^ Z.pos n -> m = Pos.iter xO m0 n.
Proof.
  intro H. apply Pos2Z.inj. rewrite iter_xO_value. exact H.
Qed.

Lemma digits2_scaled (m m0 : positive) (k : Z) :
  0 <= k -> Z.pos m = Z.pos m0 * 2 ^ k ->
  Z.pos (digits2_pos m) = Z.pos (digits2_pos m0) + k.
Proof.
  intros Hk H. destruct k as [|n|n]; try lia.
  - rewrite Z.pow_0_r, Z.mul_1_r in H. apply Pos2Z.inj in H. subst. lia.
  - apply pos_shift_eq in H. subst. apply digits2_shift.
Qed.

Lemma binary_round_aux_exact (s : bool) (m m0 : positive) (e e0 : Z) :
  canonical_mantissa prec emax m0 e0 = true -> e0 <= emax - prec ->
  e <= e0 -> Z.pos m = Z.pos m0 * 2 ^ (e0 - e) ->
  binary_round_aux prec emax s (Z.pos m) e loc_Exact = S754_finite s m0 e0.
Proof.
  intros Hc He0 Hle Hm.
  destruct (Z.eq_dec e e0) as [->|Hne].
  - rewrite Z.sub_diag, Z.pow_0_r, Z.mul_1_r in Hm. apply Pos2Z.inj in Hm. subst m.
    apply binary_round_aux_canonical; assumption.
  - pose proof (digits2_scaled m m0 (e0 - e) ltac:(lia) Hm) as Hd.
    pose proof Hc as Hc'. unfold canonical_mantissa in Hc'. apply Z.eqb_eq in Hc'.
    unfold binary_round_aux, shr_fexp. cbn [Zdigits2].
    replace (Z.pos (digits2_pos m) + e) with (Z.pos (digits2_pos m0) + e0) by lia.
    rewrite Hc'.
    destruct (e0 - e) as [|n|n] eqn:En; try lia.
    cbn [shr shr_record_of_loc].
    apply pos_shift_eq in Hm. subst m. rewrite shr_iter_exact.
    cbn [shr_m loc_of_shr_record round_nearest_even Zdigits2].
    replace (e + Z.pos n) with e0 by lia.
    rewrite Hc', Z.sub_diag. cbn [shr shr_record_of_loc shr_m].
    apply Z.leb_le in He0. rewrite He0. reflexivity.
Qed.

Lemma binary_round_exact (s : bool) (m m0 : positive) (e e0 : Z) :
  canonical_mantissa prec emax m0 e0 = true -> e0 <= emax - prec ->
  (e <= e0 /\ Z.pos m = Z.pos m0 * 2 ^ (e0 - e)) \/
  (e0 <= e /\ Z.pos m0 = Z.pos m * 2 ^ (e - e0)) ->
  binary_round prec emax s m e = S754_finite s m0 e0.
Proof.
  intros Hc He0 Hcase.
  pose proof Hc as Hc'. unfold canonical_mantissa in Hc'. apply Z.eqb_eq in Hc'.
  assert (Hd : Z.pos (digits2_pos m) + e = Z.pos (digits2_pos m0) + e0).
  { destruct Hcase as [[Hle Hm] | [Hle Hm]].
    - rewrite (digits2_scaled m m0 (e0 - e)) by (lia || assumption). lia.
    - rewrite (digits2_scaled m0 m (e - e0)) by (lia || assumption). lia. }
  unfold binary_round. rewrite Hd, Hc'.
  destruct (shl_align_spec m e e0) as (mz & ez & Heq & Hez & Hval & _).
  rewrite Heq.
  destruct Hcase as [[Hle Hm] | [Hle Hm]].
  - rewrite Z.min_l in Hez by lia. subst ez.
    rewrite Z.sub_diag, Z.pow_0_r, Z.mul_1_r in Hval. apply Pos2Z.inj in Hval. subst mz.
    apply binary_round_aux_exact; assumption.
  - rewrite Z.min_r in Hez by lia. subst ez.
    assert (mz = m0) by (apply Pos2Z.inj; lia). subst mz.
    apply binary_round_aux_canonical; assumption.
Qed.

(** The double of a positive integer below 2^53, in full. *)
Lemma of_int_canonical (k : Z) :
  1 <= k < 2 ^ 53 ->
  exists m e d,
    of_int k = S754_finite false m e /\
    canonical_mantissa prec emax m e = true /\
    Z.pos (digits2_pos m) = 53 /\ e = d - 53 /\ 1 <= d <= 53 /\
    2 ^ (d - 1) <= k < 2 ^ d /\ Z.pos m = k * 2 ^ (- e).
Proof.
  intro Hk. destruct k as [|p|p]; try lia.
  unfold of_int. simpl binary_normalize.
  pose proof (digits2_bounds p) as [Dlo Dhi].
  set (d := Z.pos (digits2_pos p)) in *.
  assert (Hd : d <= 53).
  { destruct (Z_lt_le_dec 53 d) as [Hgt|]; [|lia].
    exfalso. assert (2 ^ 53 <= 2 ^ (d - 1)) by (apply Z.pow_le_mono_r; lia). lia. }
  assert (Hd0 : 0 < d) by (unfold d; lia).
  assert (Hec : fexp prec emax (d + 0) = d - 53).
  { rewrite fexp_eq. unfold emin. lia. }
  destruct (binary_round_small false p 0) as (mz & Heq & Hval).
  - fold d. rewrite Hec. lia.
  - fold d. rewrite Hec. unfold emax, prec. lia.
  - fold d in Heq, Hval. rewrite Hec in Heq, Hval.
    replace (0 - (d - 53)) with (53 - d) in Hval by lia.
    assert (Hdm : Z.pos (digits2_pos mz) = 53).
    { rewrite (digits2_scaled mz p (53 - d)) by (lia || assumption). fold d. lia. }
    exists mz, (d - 53), d. split; [exact Heq|]. split.
    + unfold canonical_mantissa. apply Z.eqb_eq. rewrite Hdm, fexp_eq. unfold emin. lia.
    + repeat split; try lia. rewrite Hval. f_equal. f_equal. lia.
Qed.

Lemma mul_pow2_pow2 (x p q : Z) :
  0 <= p -> 0 <= q -> x * 2 ^ p * 2 ^ q = x * 2 ^ (p + q).
Proof. intros. rewrite Z.pow_add_r by assumption. ring. Qed.

Lemma digits_of_bounds_le (a b da db : Z) :
  0 <= da -> 2 ^ (da - 1) <= a -> a <= b -> b < 2 ^ db -> da <= db.
Proof.
  intros Hda Ha Hab Hb.
  destruct (Z_le_gt_dec da db) as [|Hgt]; [assumption|].
  exfalso. assert (2 ^ db <= 2 ^ (da - 1)).
  { destruct (Z_le_gt_dec 0 db).
    - apply Z.pow_le_mono_r; lia.
    - rewrite (Z.pow_neg_r 2 db) by lia. apply Z.pow_nonneg. lia. }
  lia.
Qed.

Lemma fadd_of_int (a b : Z) :
  0 <= a -> 1 <= b -> a + b < 2 ^ 53 ->
  fadd (of_int a) (of_int b) = of_int (a + b).
Proof.
  intros Ha Hb Hab.
  destruct (of_int_canonical b ltac:(lia)) as (mb & eb & db & Eb & Cb & _ & Heb & Hdb & _ & Hmb).
  destruct (Z.eq_dec a 0) as [->|Hne].
  - rewrite Z.add_0_l, Eb. reflexivity.
  - destruct (of_int_canonical a ltac:(lia)) as (ma & ea & da & Ea & Ca & _ & Hea & Hda & _ & Hma).
    destruct (of_int_canonical (a + b) ltac:(lia)) as (m0 & e0 & d0 & E0 & C0 & _ & He0 & Hd0 & _ & Hm0).
    rewrite Ea, Eb, E0. unfold fadd, SFadd. cbn [cond_Zopp].
    destruct (shl_align_spec ma ea (Z.min ea eb)) as (xa & eza & Hxa & Heza & Hva & _).
    destruct (shl_align_spec mb eb (Z.min ea eb)) as (xb & ezb & Hxb & Hezb & Hvb & _).
    rewrite Hxa, Hxb. cbn [fst]. rewrite Z.min_r in Heza, Hezb by lia. subst eza ezb.
    set (ez := Z.min ea eb) in *.
    change (Z.pos xa + Z.pos xb) with (Z.pos (xa + xb)). cbn [binary_normalize].
    assert (Hsum : Z.pos (xa + xb) = (a + b) * 2 ^ (- ez)).
    { rewrite Pos2Z.inj_add, Hva, Hvb, Hma, Hmb.
      rewrite <- !Z.mul_assoc, <- !Z.pow_add_r by lia.
      replace (- ea + (ea - ez)) with (- ez) by lia.
      replace (- eb + (eb - ez)) with (- ez) by lia. ring. }
    apply binary_round_exact; [assumption | unfold emax, prec; lia |].
    rewrite Hsum, Hm0.
    destruct (Z_le_gt_dec ez e0).
    + left. split; [assumption|].
      rewrite mul_pow2_pow2 by lia. do 2 f_equal. lia.
    + right. split; [lia|].
      rewrite mul_pow2_pow2 by lia. do 2 f_equal. lia.
Qed.

Lemma fmul_of_int (a b : Z) :
  1 <= a -> 1 <= b -> a * b < 2 ^ 53 ->
  fmul (of_int a) (of_int b) = of_int (a * b).
Proof.
  intros Ha Hb Hab.
  assert (Ha53 : a < 2 ^ 53) by nia.
  assert (Hb53 : b < 2 ^ 53) by nia.
  destruct (of_int_canonical a ltac:(lia)) as (ma & ea & da & Ea & Ca & _ & Hea & Hda & Ba & Hma).
  destruct (of_int_canonical b ltac:(lia)) as (mb & eb & db & Eb & Cb & _ & Heb & Hdb & Bb & Hmb).
  destruct (of_int_canonical (a * b) ltac:(nia)) as (m0 & e0 & d0 & E0 & C0 & _ & He0 & Hd0 & B0 & Hm0).
  rewrite Ea, Eb, E0. unfold fmul, SFmul. cbn [xorb].
  assert (Hdig : da + db - 1 <= d0).
  { apply (digits_of_bounds_le (2 ^ (da - 1) * 2 ^ (db - 1)) (a * b)); try lia.
    - rewrite <- Z.pow_add_r by lia. apply Z.pow_le_mono_r; lia.
    - pose proof (pow2_pos (da - 1) ltac:(lia)).
      pose proof (pow2_pos (db - 1) ltac:(lia)). nia. }
  apply binary_round_aux_exact; [assumption | unfold emax, prec; lia | lia |].
  rewrite Pos2Z.inj_mul, Hma, Hmb, Hm0.
  rewrite mul_pow2_pow2 by lia.
  replace (- e0 + (e0 - (ea + eb))) with (- ea + - eb) by lia.
  rewrite Z.pow_add_r by lia. ring.
Qed.

Lemma fdiv_of_int (n w : Z) :
  1 <= n -> 1 <= w -> n * w < 2 ^ 53 ->
  fdiv (of_int (n * w)) (of_int w) = of_int n.
Proof.
  intros Hn Hw Hnw.
  assert (Hn53 : n < 2 ^ 53) by nia.
  assert (Hw53 : w < 2 ^ 53) by nia.
  destruct (of_int_canonical (n * w) ltac:(nia)) as (m1 & e1 & d1 & E1 & C1 & D1 & He1 & Hd1 & B1 & Hm1).
  destruct (of_int_canonical w ltac:(lia)) as (m2 & e2 & d2 & E2 & C2 & D2 & He2 & Hd2 & B2 & Hm2).
  destruct (of_int_canonical n ltac:(lia)) as (m0 & e0 & d0 & E0 & C0 & _ & He0 & Hd0 & B0 & Hm0).
  rewrite E1, E2, E0. unfold fdiv, SFdiv, SFdiv_core_binary. cbn [Zdigits2 xorb].
  rewrite D1, D2, fexp_eq.
  assert (He' : Z.min (Z.max (53 + e1 - (53 + e2) - 53) emin) (e1 - e2) = e1 - e2 - 53)
    by (unfold emin; lia).
  rewrite He'. replace (e1 - e2 - (e1 - e2 - 53)) with 53 by lia.
  set (q := n * 2 ^ (53 - e1 + e2)).
  assert (Hdiv : Z.div_eucl (Z.shiftl (Z.pos m1) 53) (Z.pos m2) = (q, 0)).
  { pose proof (Z_div_mod (Z.shiftl (Z.pos m1) 53) (Z.pos m2) ltac:(lia)) as Hdm.
    destruct (Z.div_eucl _ _) as [q' r']. destruct Hdm as [Hq Hr].
    assert (Hexact : Z.shiftl (Z.pos m1) 53 = Z.pos m2 * q + 0).
    { rewrite Z.shiftl_mul_pow2 by lia. rewrite Hm1, Hm2. unfold q.
      replace (53 - e1 + e2) with (53 + (- e1) + e2) by lia.
      assert (H2 : 2 ^ (- e2) * 2 ^ (53 + - e1 + e2) = 2 ^ (- e1) * 2 ^ 53).
      { rewrite <- !Z.pow_add_r by lia. f_equal. lia. }
      rewrite Z.add_0_r.
      replace (w * 2 ^ (- e2) * (n * 2 ^ (53 + - e1 + e2)))
        with (n * w * (2 ^ (- e2) * 2 ^ (53 + - e1 + e2))) by ring.
      rewrite H2. ring. }
    assert (Huniq := Z.div_mod_unique (Z.pos m2) q' q r' 0 ltac:(lia) ltac:(lia)).
    rewrite <- Hq, <- Hexact in Huniq. destruct (Huniq eq_refl) as [-> ->].
    reflexivity. }
  rewrite Hdiv.
  assert (Hq : 0 < q).
  { unfold q. pose proof (pow2_pos (53 - e1 + e2) ltac:(lia)). nia. }
  destruct q as [|pq|pq] eqn:Eq; try lia.
  assert (Hloc : new_location (Z.pos m2) 0 = loc_Exact).
  { unfold new_location, new_location_even, new_location_odd.
    destruct (Z.even (Z.pos m2)); reflexivity. }
  rewrite Hloc.
  assert (Hdig : d1 <= d0 + d2).
  { apply (digits_of_bounds_le (n * w) (n * w)); try lia.
    rewrite Z.pow_add_r by lia.
    pose proof (pow2_pos d0 ltac:(lia)). pose proof (pow2_pos d2 ltac:(lia)). nia. }
  apply binary_round_aux_exact; [assumption | unfold emax, prec; lia | lia |].
  rewrite <- Eq. unfold q. rewrite Hm0.
  rewrite mul_pow2_pow2 by lia. do 2 f_equal. lia.
Qed.

(** * The methods, evaluated

    ** Reads and loops *)

Lemma price_at_ok (a : TimeSeriesAnalyzer) (i : Z) :
  0 <= i < size a -> price_at i a = (Ret (price (prices a) i), a).
Proof.
  unfold size, price_at, price. intros [Hlo Hhi].
  destruct (i <? 0) eqn:Ei; [apply Z.ltb_lt in Ei; lia|].
  destruct (nth_error (prices a) (Z.to_nat i)) as [p|] eqn:En.
  - rewrite (nth_error_nth _ _ _ En). reflexivity.
  - apply nth_error_None in En. lia.
Qed.

Lemma for_loop_pure {A} (a : TimeSeriesAnalyzer) (g : Z -> A -> A)
    (body : Z -> A -> M A) (n : nat) (i : Z) (acc : A) :
  (forall j x, i <= j < i + Z.of_nat n -> body j x a = (Ret (g j x), a)) ->
  for_loop n i body acc a = (Ret (loop_pure n i g acc), a).
Proof.
  revert i acc. induction n as [|n IH]; intros i acc Hb.
  - reflexivity.
  - cbn [for_loop loop_pure]. unfold bind at 1.
    rewrite Hb by lia. apply IH. intros j x Hj. apply Hb. lia.
Qed.

Lemma for_range_pure {A} (a : TimeSeriesAnalyzer) (g : Z -> A -> A)
    (body : Z -> A -> M A) (lo hi : Z) (acc : A) :
  (forall j x, lo <= j < hi -> body j x a = (Ret (g j x), a)) ->
  for_range lo hi body acc a = (Ret (loop_pure (Z.to_nat (hi - lo)) lo g acc), a).
Proof.
  intro Hb. unfold for_range. apply for_loop_pure.
  intros j x Hj. apply Hb. lia.
Qed.

Lemma loop_pure_ext {A} (g h : Z -> A -> A) (n : nat) (i : Z) (acc : A) :
  (forall j x, i <= j < i + Z.of_nat n -> g j x = h j x) ->
  loop_pure n i g acc = loop_pure n i h acc.
Proof.
  revert i acc. induction n as [|n IH]; intros i acc Hg; [reflexivity|].
  cbn [loop_pure]. rewrite Hg by lia. apply IH. intros j x Hj. apply Hg. lia.
Qed.

Lemma loop_pure_snoc {A} (g : Z -> A -> A) (n : nat) (i : Z) (acc : A) :
  loop_pure (S n) i g acc = g (i + Z.of_nat n) (loop_pure n i g acc).
Proof.
  revert i acc. induction n as [|n IH]; intros i acc.
  - cbn. rewrite Z.add_0_r. reflexivity.
  - change (loop_pure (S (S n)) i g acc) with (loop_pure (S n) (i + 1) g (g i acc)).
    rewrite IH. cbn [loop_pure]. f_equal. lia.
Qed.

(** ** Frame: what only reads the object leaves it as it was *)
Lemma readonly_ret {A} (x : A) : readonly (ret x).
Proof. intro s; reflexivity. Qed.

Lemma readonly_bind {A B} (m : M A) (k : A -> M B) :
  readonly m -> (forall x, readonly (k x)) -> readonly (bind m k).
Proof.
  intros Hm Hk s. unfold bind. specialize (Hm s).
  destruct (m s) as [[x|e|] s']; simpl in *; subst; auto. apply Hk.
Qed.

Lemma readonly_prices_size : readonly prices_size.
Proof. intro s; reflexivity. Qed.

Lemma readonly_price_at (i : Z) : readonly (price_at i).
Proof.
  intro s. unfold price_at. destruct (i <? 0); [reflexivity|].
  destruct (nth_error _ _); reflexivity.
Qed.

Lemma readonly_for_loop {A} (body : Z -> A -> M A) (n : nat) (i : Z) (acc : A) :
  (forall j x, readonly (body j x)) -> readonly (for_loop n i body acc).
Proof.
  intro Hb. revert i acc. induction n as [|n IH]; intros i acc.
  - apply readonly_ret.
  - cbn [for_loop]. apply readonly_bind; auto.
Qed.

Lemma readonly_for_range {A} (body : Z -> A -> M A) (lo hi : Z) (acc : A) :
  (forall j x, readonly (body j x)) -> readonly (for_range lo hi body acc).
Proof. apply readonly_for_loop. Qed.

Lemma readonly_if {A} (b : bool) (m1 m2 : M A) :
  readonly m1 -> readonly m2 -> readonly (if b then m1 else m2).
Proof. destruct b; auto. Qed.

Ltac frame :=
  repeat first
    [ apply readonly_ret | apply readonly_prices_size | apply readonly_price_at
    | apply readonly_if
    | apply readonly_for_range; intros ? ?
    | apply readonly_bind; [| intros ?]
    | match goal with |- readonly (let '(_, _) := ?p in _) => destruct p end ].

Lemma readonly_calculateSMA (p : Z) : readonly (calculateSMA p).
Proof. unfold calculateSMA, accumulate. frame. Qed.

Lemma readonly_calculateEMA (p : Z) : readonly (calculateEMA p).
Proof. unfold calculateEMA. frame. Qed.

Lemma readonly_calculateWMA (p : Z) : readonly (calculateWMA p).
Proof. unfold calculateWMA. frame. Qed.

Lemma readonly_calculateStandardDeviation (p : Z) :
  readonly (calculateStandardDeviation p).
Proof.
  unfold calculateStandardDeviation. frame.
Qed.

Lemma readonly_calculateBollingerBands (p : Z) (m : double) (u : bool) :
  readonly (calculateBollingerBands p m u).
Proof.
  unfold calculateBollingerBands. frame.
Qed.

Lemma readonly_detectTrend (s l : Z) : readonly (detectTrend s l).
Proof.
  unfold detectTrend. frame.
Qed.

Lemma readonly_calculateRSI (p : Z) : readonly (calculateRSI p).
Proof. unfold calculateRSI. frame. Qed.

(** ** Guards and conversions *)

Lemma bind_ret {A B} (m : M A) (k : A -> M B) (s s' : TimeSeriesAnalyzer) (x : A) :
  m s = (Ret x, s') -> bind m k s = k x s'.
Proof. intro H. unfold bind. rewrite H. reflexivity. Qed.

Lemma bind_price_at {B} (a : TimeSeriesAnalyzer) (i : Z) (k : double -> M B) :
  0 <= i < size a -> bind (price_at i) k a = k (price (prices a) i) a.
Proof. intro H. apply bind_ret. apply price_at_ok. exact H. Qed.

Lemma size_nonneg (a : TimeSeriesAnalyzer) : 0 <= size a.
Proof. unfold size. lia. Qed.

Lemma size_t_small (p : Z) : 0 <= p <= INT_MAX -> size_t_of_int p = p.
Proof.
  unfold size_t_of_int, INT_MAX. intro H. apply Z.mod_small.
  assert (2 ^ 31 < 2 ^ 64) by reflexivity. lia.
Qed.

Lemma int_add_1_small (p : Z) : 0 <= p < INT_MAX -> int_add p 1 = p + 1.
Proof.
  unfold int_add, wrap_int, INT_MAX. intro H.
  rewrite Z.mod_small; [lia|].
  change (2 ^ 32) with (2 ^ 31 + 2 ^ 31). lia.
Qed.

Lemma guard_short (a : TimeSeriesAnalyzer) (p : Z) :
  size a < p <= INT_MAX -> (size a <? size_t_of_int p) = true.
Proof.
  intro H. pose proof (size_nonneg a). rewrite size_t_small by lia.
  apply Z.ltb_lt. lia.
Qed.

Lemma guard_enough (a : TimeSeriesAnalyzer) (p : Z) :
  0 <= p <= size a -> p <= INT_MAX -> (size a <? size_t_of_int p) = false.
Proof.
  intros H H'. rewrite size_t_small by lia. apply Z.ltb_ge. lia.
Qed.

Lemma guard_short_rsi (a : TimeSeriesAnalyzer) (p : Z) :
  size a - 1 < p <= INT_MAX -> (size a <? size_t_of_int (int_add p 1)) = true.
Proof.
  intro H. pose proof (size_nonneg a).
  destruct (Z.eq_dec p INT_MAX) as [->|Hne].
  - apply Z.ltb_lt. change (size_t_of_int (int_add INT_MAX 1)) with (2 ^ 64 - 2 ^ 31).
    unfold INT_MAX in H. assert (2 ^ 32 < 2 ^ 64) by reflexivity.
    change (2 ^ 32) with (2 ^ 31 + 2 ^ 31) in *. lia.
  - rewrite int_add_1_small by lia. rewrite size_t_small by lia.
    apply Z.ltb_lt. lia.
Qed.

(** ** The methods on a series that is long enough, or too short *)

Lemma calculateSMA_short (a : TimeSeriesAnalyzer) (p : Z) :
  size a < p <= INT_MAX -> calculateSMA p a = (Ret (of_int 0), a).
Proof.
  intro H. unfold calculateSMA, bind, prices_size. fold (size a).
  rewrite guard_short by assumption. reflexivity.
Qed.

Lemma calculateStandardDeviation_short (a : TimeSeriesAnalyzer) (p : Z) :
  size a < p <= INT_MAX -> calculateStandardDeviation p a = (Ret (of_int 0), a).
Proof.
  intro H. unfold calculateStandardDeviation, bind, prices_size. fold (size a).
  rewrite guard_short by assumption. reflexivity.
Qed.

Lemma band_of_zeros (m : double) (u : bool) :
  is_finite m = true ->
  (if u then fadd (of_int 0) (fmul m (of_int 0))
   else fsub (of_int 0) (fmul m (of_int 0))) = of_int 0.
Proof.
  destruct m as [s|s| |s mm e]; simpl; try discriminate; intros _;
    destruct u, s; reflexivity.
Qed.

Lemma accumulate_value (a : TimeSeriesAnalyzer) (n : Z) :
  n <= size a ->
  accumulate n (S754_zero false) a = (Ret (sum_first (prices a) n), a).
Proof.
  intro Hn. unfold accumulate, sum_first.
  rewrite (for_range_pure a (fun i acc => fadd acc (price (prices a) i))).
  - rewrite Z.sub_0_r. reflexivity.
  - intros j x Hj. rewrite bind_price_at by lia. reflexivity.
Qed.

Lemma calculateSMA_value (a : TimeSeriesAnalyzer) (p : Z) :
  0 <= p <= size a -> p <= INT_MAX ->
  calculateSMA p a = (Ret (sma_value (prices a) p), a).
Proof.
  intros H H'. unfold calculateSMA, bind at 1, prices_size. fold (size a).
  rewrite guard_enough by assumption.
  rewrite (bind_ret _ _ a a (sum_first (prices a) p)); [reflexivity|].
  apply accumulate_value. lia.
Qed.

Lemma ema_loop (alpha : double) (ps : list double) (n : nat) :
  loop_pure n 1
    (fun i ema => fadd (fmul alpha (price ps i)) (fmul (fsub (of_int 1) alpha) ema))
    (price ps 0)
  = ema_rec alpha ps n.
Proof.
  induction n as [|n IH]; [reflexivity|].
  rewrite loop_pure_snoc, IH. cbn [ema_rec].
  replace (1 + Z.of_nat n) with (Z.of_nat (S n)) by lia. reflexivity.
Qed.

Lemma calculateEMA_value (a : TimeSeriesAnalyzer) (p : Z) :
  1 <= p < INT_MAX -> p <= size a ->
  calculateEMA p a = (Ret (ema_spec (prices a) p), a).
Proof.
  intros H H'. unfold calculateEMA, bind at 1, prices_size. fold (size a).
  rewrite guard_enough by lia. rewrite int_add_1_small by lia.
  rewrite bind_price_at by lia.
  set (alpha := fdiv (of_int 2) (of_int (p + 1))).
  rewrite (for_range_pure a
    (fun i ema => fadd (fmul alpha (price (prices a) i)) (fmul (fsub (of_int 1) alpha) ema))).
  - rewrite ema_loop. reflexivity.
  - intros j x Hj. rewrite bind_price_at by lia. reflexivity.
Qed.

Lemma price_firstn (ps qs : list double) (n : nat) (i : Z) :
  firstn n ps = firstn n qs -> 0 <= i < Z.of_nat n -> price ps i = price qs i.
Proof.
  intros Hf Hi. unfold price.
  assert (Hlt : Nat.ltb (Z.to_nat i) n = true) by (apply Nat.ltb_lt; lia).
  pose proof (nth_firstn n ps (Z.to_nat i) (S754_zero false)) as Hp.
  pose proof (nth_firstn n qs (Z.to_nat i) (S754_zero false)) as Hq.
  rewrite Hlt in Hp, Hq. rewrite <- Hp, <- Hq, Hf. reflexivity.
Qed.

Lemma ema_rec_prefix (alpha : double) (ps qs : list double) (n k : nat) :
  firstn n ps = firstn n qs -> (k < n)%nat -> ema_rec alpha ps k = ema_rec alpha qs k.
Proof.
  intros Hf. induction k as [|k IH]; intro Hk.
  - cbn. apply (price_firstn _ _ n); [assumption | lia].
  - cbn [ema_rec]. rewrite IH by lia.
    rewrite (price_firstn ps qs n) by (assumption || lia). reflexivity.
Qed.

Lemma int_sub_small (p i : Z) : 0 <= i <= p -> p <= INT_MAX -> int_sub p i = p - i.
Proof.
  unfold int_sub, wrap_int, INT_MAX. intros H H'.
  rewrite Z.mod_small; [lia|].
  change (2 ^ 32) with (2 ^ 31 + 2 ^ 31). lia.
Qed.

Lemma calculateSMA_result (a : TimeSeriesAnalyzer) (p : Z) :
  0 <= p <= INT_MAX -> calculateSMA p a = (Ret (sma_result a p), a).
Proof.
  intro H. unfold sma_result. destruct (size a <? p) eqn:E.
  - apply calculateSMA_short. apply Z.ltb_lt in E. lia.
  - apply calculateSMA_value; [apply Z.ltb_ge in E|]; lia.
Qed.

Lemma calculateStandardDeviation_value (a : TimeSeriesAnalyzer) (p : Z) :
  0 <= p <= size a -> p <= INT_MAX ->
  calculateStandardDeviation p a = (Ret (sd_value (prices a) p), a).
Proof.
  intros H H'. unfold calculateStandardDeviation, bind at 1, prices_size. fold (size a).
  rewrite guard_enough by assumption.
  rewrite (bind_ret _ _ a a _ (calculateSMA_value a p H H')).
  rewrite (bind_ret _ _ a a (loop_pure (Z.to_nat (p - 0)) 0
            (fun i acc => fadd acc (pow2 (fsub (price (prices a) i) (sma_value (prices a) p))))
            (of_int 0))).
  - unfold sd_value. rewrite Z.sub_0_r. reflexivity.
  - apply for_range_pure. intros j x Hj. rewrite bind_price_at by lia. reflexivity.
Qed.

Lemma calculateWMA_value (a : TimeSeriesAnalyzer) (p : Z) :
  0 <= p <= size a -> p <= INT_MAX ->
  calculateWMA p a =
  (Ret (fdiv (fst (wma_sums (prices a) p (Z.to_nat p)))
             (snd (wma_sums (prices a) p (Z.to_nat p)))), a).
Proof.
  intros H H'. unfold calculateWMA, bind at 1, prices_size. fold (size a).
  rewrite guard_enough by assumption.
  rewrite (bind_ret _ _ a a (wma_sums (prices a) p (Z.to_nat p))); [reflexivity|].
  unfold wma_sums. rewrite (for_range_pure a (wma_step (prices a) p)).
  - rewrite Z.sub_0_r. reflexivity.
  - intros j [s w] Hj.
    rewrite bind_price_at by lia. unfold wma_step. cbn [fst snd].
    rewrite int_sub_small by lia. reflexivity.
Qed.

Lemma calculateRSI_value (a : TimeSeriesAnalyzer) (p : Z) :
  0 <= p < INT_MAX -> p + 1 <= size a ->
  calculateRSI p a =
  (Ret (rsi_formula (fst (rsi_sums (prices a) (Z.to_nat p)))
                    (snd (rsi_sums (prices a) (Z.to_nat p))) p), a).
Proof.
  intros H H'. unfold calculateRSI, bind at 1, prices_size. fold (size a).
  rewrite int_add_1_small by lia. rewrite guard_enough by lia.
  rewrite (bind_ret _ _ a a (rsi_sums (prices a) (Z.to_nat p))); [reflexivity|].
  unfold rsi_sums. rewrite (for_range_pure a (rsi_step (prices a))).
  - replace (p + 1 - 1) with p by lia. reflexivity.
  - intros j [g l] Hj.
    rewrite bind_price_at by lia. rewrite bind_price_at by lia.
    unfold rsi_step, price_change. cbn [fst snd].
    destruct (fgt _ _); reflexivity.
Qed.

Lemma detectTrend_value (a : TimeSeriesAnalyzer) (s l : Z) :
  0 <= s <= INT_MAX -> 0 <= l <= INT_MAX -> l <= size a ->
  detectTrend s l a = (Ret (trend_label (sma_result a s) (sma_result a l)), a).
Proof.
  intros Hs Hl Hsz. unfold detectTrend, bind at 1, prices_size. fold (size a).
  rewrite guard_enough by lia.
  rewrite (bind_ret _ _ a a _ (calculateSMA_result a s Hs)).
  rewrite (bind_ret _ _ a a _ (calculateSMA_result a l Hl)).
  unfold trend_label. destruct (fgt _ _); [reflexivity|].
  destruct (flt _ _); reflexivity.
Qed.

Lemma detectTrend_short (a : TimeSeriesAnalyzer) (s l : Z) :
  size a < l <= INT_MAX ->
  detectTrend s l a = (Ret "Insufficient data"%string, a).
Proof.
  intro H. unfold detectTrend, bind, prices_size. fold (size a).
  rewrite guard_short by assumption. reflexivity.
Qed.

(** ** Sums of prices *)

Lemma sum_first_S (ps : list double) (n : nat) :
  loop_pure (S n) 0 (fun i acc => fadd acc (price ps i)) (S754_zero false)
  = fadd (loop_pure n 0 (fun i acc => fadd acc (price ps i)) (S754_zero false))
         (price ps (Z.of_nat n)).
Proof. rewrite loop_pure_snoc. reflexivity. Qed.

Lemma sum_loop_not_nan (ps : list double) (n : nat) :
  (forall i, 0 <= i < Z.of_nat n -> is_finite (price ps i) = true) ->
  is_nan (loop_pure n 0 (fun i acc => fadd acc (price ps i)) (S754_zero false)) = false.
Proof.
  induction n as [|n IH]; intro Hf; [reflexivity|].
  rewrite sum_first_S. apply fadd_not_nan.
  - apply IH. intros i Hi. apply Hf. lia.
  - apply Hf. lia.
Qed.

Lemma sum_loop_at_least (ps : list double) (n : nat) :
  (forall i, 0 <= i < Z.of_nat n -> at_least 1 (price ps i)) ->
  (1 <= n)%nat -> Z.of_nat n <= 2 ^ 53 ->
  at_least (Z.of_nat n)
    (loop_pure n 0 (fun i acc => fadd acc (price ps i)) (S754_zero false)).
Proof.
  induction n as [|n IH]; intros Hp Hn Hb; [lia|].
  rewrite sum_first_S. destruct n as [|n].
  - cbn [loop_pure]. rewrite fadd_zero_l by (apply Hp; lia). apply Hp. lia.
  - replace (Z.of_nat (S (S n))) with (Z.of_nat (S n) + 1) by lia.
    apply fadd_at_least; [apply IH | apply Hp |]; try lia.
    intros i Hi. apply Hp. lia.
Qed.

Lemma finite_prices (ps : list double) (i : Z) :
  Forall (fun p => is_finite p = true) ps -> is_finite (price ps i) = true.
Proof.
  intro H. unfold price.
  destruct (Nat.lt_ge_cases (Z.to_nat i) (List.length ps)) as [Hlt|Hge].
  - rewrite Forall_forall in H. apply H. apply nth_In. exact Hlt.
  - rewrite nth_overflow by exact Hge. reflexivity.
Qed.

Lemma sma_value_not_nan (ps : list double) (p : Z) :
  Forall (fun x => is_finite x = true) ps -> 1 <= p <= INT_MAX ->
  is_nan (sma_value ps p) = false.
Proof.
  intros Hf Hp. unfold sma_value, sum_first.
  destruct (of_int_positive p) as (m & e & -> & _).
  { unfold INT_MAX in Hp. assert (2 ^ 31 < 2 ^ 53) by reflexivity. lia. }
  apply fdiv_not_nan. apply sum_loop_not_nan.
  intros i _. apply finite_prices. exact Hf.
Qed.

Lemma sma_result_not_nan (a : TimeSeriesAnalyzer) (p : Z) :
  Forall (fun x => is_finite x = true) (prices a) -> 1 <= p <= INT_MAX ->
  is_nan (sma_result a p) = false.
Proof.
  intros Hf Hp. unfold sma_result. destruct (size a <? p); [reflexivity|].
  apply sma_value_not_nan; assumption.
Qed.

Lemma sma_value_positive (ps : list double) (p : Z) :
  (forall i, 0 <= i < p -> at_least 1 (price ps i)) -> 1 <= p <= INT_MAX ->
  at_least 1 (sma_value ps p).
Proof.
  intros Hpos Hp. unfold sma_value, sum_first.
  assert (H53 : 2 ^ 31 < 2 ^ 53) by reflexivity. unfold INT_MAX in Hp.
  apply fdiv_of_int_at_least; [lia|].
  rewrite <- (Z2Nat.id p) at 1 by lia.
  apply sum_loop_at_least; try lia.
  intros i Hi. apply Hpos. lia.
Qed.

(** ** RSI: one loop against two sums *)

Lemma changes_S (ps : list double) (n : nat) :
  changes ps (S n) = changes ps n ++ [price_change ps (Z.of_nat (S n))].
Proof.
  unfold changes. rewrite seq_S, map_app. reflexivity.
Qed.

Lemma gains_snoc (cs : list double) (c : double) :
  gains (cs ++ [c]) = if fgt c (of_int 0) then fadd (gains cs) c else gains cs.
Proof. unfold gains. rewrite fold_left_app. reflexivity. Qed.

Lemma losses_snoc (cs : list double) (c : double) :
  losses (cs ++ [c]) = if flt c (of_int 0) then fadd (losses cs) (SFabs c) else losses cs.
Proof. unfold losses. rewrite fold_left_app. reflexivity. Qed.

Lemma rsi_sums_S (ps : list double) (n : nat) :
  rsi_sums ps (S n) = rsi_step ps (Z.of_nat (S n)) (rsi_sums ps n).
Proof.
  unfold rsi_sums. rewrite loop_pure_snoc.
  replace (1 + Z.of_nat n) with (Z.of_nat (S n)) by lia. reflexivity.
Qed.

Lemma rsi_sums_split (ps : list double) (n : nat) :
  (forall i, 1 <= i <= Z.of_nat n -> is_nan (price_change ps i) = false) ->
  rsi_sums ps n = (gains (changes ps n), losses (changes ps n))
  /\ nonneg_or_nan (losses (changes ps n)).
Proof.
  induction n as [|n IH]; intro Hc.
  - split; reflexivity.
  - destruct IH as [IH Hl]; [intros i Hi; apply Hc; lia|].
    rewrite rsi_sums_S, IH, changes_S, gains_snoc, losses_snoc.
    unfold rsi_step. cbn [fst snd].
    set (c := price_change ps (Z.of_nat (S n))).
    assert (Hnan : is_nan c = false) by (apply Hc; lia).
    destruct (fgt c (of_int 0)) eqn:Hpos.
    + assert (Hneg : flt c (of_int 0) = false).
      { destruct (flt c (of_int 0)) eqn:E; [|reflexivity].
        apply flt_asym in E. congruence. }
      rewrite Hneg. split; [reflexivity | assumption].
    + destruct (flt c (of_int 0)) eqn:Hneg.
      * destruct (negative_abs c Hneg) as [Habs Hsign].
        rewrite fsub_fadd_opp, Habs. split; [reflexivity|].
        apply fadd_nonneg; assumption.
      * destruct (zero_of_neither c Hnan Hpos Hneg) as [s ->].
        rewrite fsub_zero_r by assumption. split; [reflexivity | assumption].
Qed.

(** ** RSI on a window of gains only *)

Lemma rsi_sums_gaining (ps : list double) (n : nat) :
  (forall i, 1 <= i <= Z.of_nat n -> at_least 1 (price_change ps i)) ->
  Z.of_nat n <= 2 ^ 53 ->
  exists g, rsi_sums ps n = (g, S754_zero false)
            /\ (n = O -> g = S754_zero false)
            /\ ((1 <= n)%nat -> at_least (Z.of_nat n) g).
Proof.
  induction n as [|n IH]; intros Hc Hb.
  - exists (S754_zero false). split; [reflexivity|]. split; [reflexivity | lia].
  - destruct IH as (g & Hg & Hg0 & Hgn); [intros i Hi; apply Hc; lia | lia |].
    rewrite rsi_sums_S, Hg. unfold rsi_step. cbn [fst snd].
    assert (Hc1 : at_least 1 (price_change ps (Z.of_nat (S n)))) by (apply Hc; lia).
    destruct (at_least_positive _ _ Hc1) as [Hpos _].
    unfold is_positive in Hpos. rewrite Hpos.
    exists (fadd g (price_change ps (Z.of_nat (S n)))). split; [reflexivity|].
    split; [discriminate|]. intros _.
    destruct n as [|n].
    + rewrite (Hg0 eq_refl). rewrite fadd_zero_l by exact Hc1. exact Hc1.
    + apply (at_least_weaken (Z.of_nat (S n) + 1)); [lia|].
      apply fadd_at_least; [apply Hgn; lia | exact Hc1 | lia].
Qed.

Lemma of_int_1 : of_int 1 = S754_finite false 4503599627370496 (-52).
Proof. vm_compute. reflexivity. Qed.

Lemma of_int_100 : of_int 100 = S754_finite false 7036874417766400 (-46).
Proof. vm_compute. reflexivity. Qed.

Lemma of_int_2 : of_int 2 = S754_finite false 4503599627370496 (-51).
Proof. vm_compute. reflexivity. Qed.

Lemma rsi_formula_gaining (g : double) (p : Z) :
  1 <= p < 2 ^ 53 -> at_least p g ->
  rsi_formula g (S754_zero false) p = of_int 100.
Proof.
  intros Hp Hg. unfold rsi_formula.
  pose proof (fdiv_of_int_at_least p g Hp Hg) as Havg.
  destruct (of_int_positive p Hp) as (m & e & Ep & _).
  rewrite Ep in *. rewrite of_int_1, of_int_100.
  destruct (fdiv g (S754_finite false m e)) as [s|[|]| |[|] mg eg];
    cbn [at_least] in Havg; try tauto; reflexivity.
Qed.

(** ** WMA of one repeated integer *)

Lemma weight_total_closed (p : Z) (k : nat) :
  2 * weight_total p k = Z.of_nat k * (2 * p - Z.of_nat k + 1).
Proof.
  induction k as [|k IH]; [reflexivity|].
  cbn [weight_total]. rewrite Z.mul_add_distr_l, IH. lia.
Qed.

Lemma weight_total_bounds (p : Z) (k : nat) :
  Z.of_nat k <= p ->
  0 <= weight_total p k /\ 2 * weight_total p k <= p * (p + 1)
  /\ ((1 <= k)%nat -> 1 <= weight_total p k).
Proof.
  intro Hk. pose proof (weight_total_closed p k) as Hc. repeat split; try nia.
Qed.

Lemma wma_sums_S (ps : list double) (p : Z) (k : nat) :
  wma_sums ps p (S k) = wma_step ps p (Z.of_nat k) (wma_sums ps p k).
Proof.
  unfold wma_sums. rewrite loop_pure_snoc. reflexivity.
Qed.

Lemma wma_sums_uniform (ps : list double) (p n : Z) (k : nat) :
  1 <= n -> n * p * (p + 1) < 2 ^ 54 -> Z.of_nat k <= p ->
  (forall i, 0 <= i < p -> price ps i = of_int n) ->
  wma_sums ps p k = (of_int (n * weight_total p k), of_int (weight_total p k)).
Proof.
  intros Hn Hb Hk Hu. induction k as [|k IH].
  - cbn. rewrite Z.mul_0_r. reflexivity.
  - rewrite wma_sums_S, IH by lia. unfold wma_step. cbn [fst snd weight_total].
    rewrite Hu by lia.
    destruct (weight_total_bounds p k ltac:(lia)) as (W0 & _ & _).
    destruct (weight_total_bounds p (S k) ltac:(lia)) as (_ & W1 & _).
    cbn [weight_total] in W1.
    set (W := weight_total p k) in *. set (w := p - Z.of_nat k) in *.
    assert (Hw : 1 <= w) by (unfold w; lia).
    assert (H54 : 2 ^ 54 = 2 * 2 ^ 53) by reflexivity.
    assert (Hnw : n * (W + w) < 2 ^ 53) by nia.
    rewrite fmul_of_int by nia.
    rewrite fadd_of_int by nia.
    rewrite fadd_of_int by nia.
    f_equal. f_equal. ring.
Qed.

(** ** The parser, entry by entry *)

Section ParserFacts.
Variable stod : string -> stod_result.
Variable to_millis : string -> Z.

Lemma parse_entry_ok (e : entry) (rest : list entry) (v : double)
    (a : TimeSeriesAnalyzer) :
  entry_price stod e = inr v ->
  parse_entries stod to_millis (e :: rest) a
  = parse_entries stod to_millis rest
      (with_vectors a (prices a ++ [v]) (timestamps a ++ [to_millis (entry_key e)])).
Proof.
  intro He. cbn [parse_entries]. unfold entry_price in He.
  unfold bind at 1, get_string.
  destruct (entry_close e) as [s|]; [|discriminate]. cbn [ret].
  unfold bind at 1, call_stod.
  destruct (stod s) as [v'| |]; try discriminate. injection He as ->. cbn [ret].
  unfold bind at 1, push_price. unfold bind at 1, push_timestamp.
  reflexivity.
Qed.

Lemma parse_entry_throws (e : entry) (rest : list entry) (x : exn)
    (a : TimeSeriesAnalyzer) :
  entry_price stod e = inl x ->
  parse_entries stod to_millis (e :: rest) a = (Throw x, a).
Proof.
  intro He. cbn [parse_entries]. unfold entry_price in He.
  unfold bind at 1, get_string.
  destruct (entry_close e) as [s|].
  - cbn [ret]. unfold bind at 1, call_stod.
    destruct (stod s) as [v'| |]; try discriminate; injection He as <-; reflexivity.
  - injection He as <-. reflexivity.
Qed.

Lemma with_vectors_app (a : TimeSeriesAnalyzer) (ps qs : list double) (ts us : list Z) :
  with_vectors (with_vectors a ps ts) (ps ++ qs) (ts ++ us)
  = with_vectors a (ps ++ qs) (ts ++ us).
Proof. reflexivity. Qed.

Lemma parse_entries_all (es : list entry) (vs : list double) (a : TimeSeriesAnalyzer) :
  Forall2 (fun e v => entry_price stod e = inr v) es vs ->
  parse_entries stod to_millis es a
  = (Ret tt, with_vectors a (prices a ++ vs) (timestamps a ++ entry_millis to_millis es)).
Proof.
  intro H. revert a. induction H as [|e v es vs He _ IH]; intro a.
  - cbn. rewrite !app_nil_r. destruct a; reflexivity.
  - rewrite (parse_entry_ok e es v a He), IH. unfold with_vectors, entry_millis.
    cbn [prices timestamps api_key symbol update_interval map].
    rewrite <- !app_assoc. reflexivity.
Qed.

Lemma parse_entries_failure (pre post : list entry) (bad : entry) (x : exn)
    (vs : list double) (a : TimeSeriesAnalyzer) :
  Forall2 (fun e v => entry_price stod e = inr v) pre vs ->
  entry_price stod bad = inl x ->
  parse_entries stod to_millis (pre ++ bad :: post) a
  = (Throw x, with_vectors a (prices a ++ vs) (timestamps a ++ entry_millis to_millis pre)).
Proof.
  intros H Hbad. revert a. induction H as [|e v es vs He _ IH]; intro a.
  - cbn [app]. rewrite (parse_entry_throws bad post x a Hbad).
    cbn. rewrite !app_nil_r. destruct a; reflexivity.
  - cbn [app]. rewrite (parse_entry_ok e _ v a He), IH. unfold with_vectors, entry_millis.
    cbn [prices timestamps api_key symbol update_interval map].
    rewrite <- !app_assoc. reflexivity.
Qed.

End ParserFacts.

(** ** Short series, bands, and prices by index *)

Lemma int_range_2_53 (p : Z) : p <= INT_MAX -> p < 2 ^ 53.
Proof. unfold INT_MAX. assert (2 ^ 31 < 2 ^ 53) by reflexivity. lia. Qed.

Lemma calculateEMA_short (a : TimeSeriesAnalyzer) (p : Z) :
  size a < p <= INT_MAX -> calculateEMA p a = (Ret (of_int 0), a).
Proof.
  intro H. unfold calculateEMA, bind, prices_size. fold (size a).
  rewrite guard_short by assumption. reflexivity.
Qed.

Lemma calculateWMA_short (a : TimeSeriesAnalyzer) (p : Z) :
  size a < p <= INT_MAX -> calculateWMA p a = (Ret (of_int 0), a).
Proof.
  intro H. unfold calculateWMA, bind, prices_size. fold (size a).
  rewrite guard_short by assumption. reflexivity.
Qed.

Lemma calculateRSI_short (a : TimeSeriesAnalyzer) (p : Z) :
  size a - 1 < p <= INT_MAX -> calculateRSI p a = (Ret (of_int 0), a).
Proof.
  intro H. unfold calculateRSI, bind, prices_size. fold (size a).
  rewrite guard_short_rsi by assumption. reflexivity.
Qed.

Lemma calculateBollingerBands_from (a : TimeSeriesAnalyzer) (p : Z)
    (m sma sd : double) (u : bool) :
  calculateSMA p a = (Ret sma, a) ->
  calculateStandardDeviation p a = (Ret sd, a) ->
  calculateBollingerBands p m u a
  = (Ret (if u then fadd sma (fmul m sd) else fsub sma (fmul m sd)), a).
Proof.
  intros Hs Hd. unfold calculateBollingerBands.
  rewrite (bind_ret _ _ a a _ Hs), (bind_ret _ _ a a _ Hd). reflexivity.
Qed.

Lemma double_prices (ps : list double) (i : Z) :
  Forall is_double ps -> is_double (price ps i).
Proof.
  intro H. unfold price.
  destruct (Nat.lt_ge_cases (Z.to_nat i) (List.length ps)) as [Hlt|Hge].
  - rewrite Forall_forall in H. apply H. apply nth_In. exact Hlt.
  - rewrite nth_overflow by exact Hge. reflexivity.
Qed.

Lemma price_in_range (ps : list double) (P : double -> Prop) (i : Z) :
  Forall P ps -> 0 <= i < Z.of_nat (List.length ps) -> P (price ps i).
Proof.
  intros H Hi. unfold price. rewrite Forall_forall in H. apply H. apply nth_In. lia.
Qed.

(** With no deviation both bands are the average, and their difference is
    a zero, as is [2 * m * 0]. *)
Lemma bands_of_zero_deviation (sma m : double) :
  is_finite sma = true -> is_finite m = true ->
  feq (fsub (fadd sma (fmul m (S754_zero false))) (fsub sma (fmul m (S754_zero false))))
      (two_m_sd m (S754_zero false)) = true.
Proof.
  unfold two_m_sd. rewrite of_int_2.
  destruct sma as [ss|ss| |ss ms es]; try discriminate;
  destruct m as [sm|sm| |sm mm em]; try discriminate; intros _ _.
  - destruct ss, sm; reflexivity.
  - destruct ss, sm; reflexivity.
  - assert (Hu : forall s, fadd (S754_finite ss ms es) (S754_zero s) = S754_finite ss ms es)
      by reflexivity.
    assert (Hl : forall s, fsub (S754_finite ss ms es) (S754_zero s) = S754_finite ss ms es)
      by reflexivity.
    cbn [fmul SFmul]. rewrite Hu, Hl.
    unfold fsub, SFsub. rewrite Z.sub_diag. destruct sm; reflexivity.
  - assert (Hu : forall s, fadd (S754_finite ss ms es) (S754_zero s) = S754_finite ss ms es)
      by reflexivity.
    assert (Hl : forall s, fsub (S754_finite ss ms es) (S754_zero s) = S754_finite ss ms es)
      by reflexivity.
    cbn [fmul SFmul]. rewrite Hu, Hl.
    unfold fsub, SFsub. rewrite Z.sub_diag. destruct sm; reflexivity.
Qed.

Lemma readonly_run_call (c : indicator_call) : readonly (run_call c).
Proof.
  destruct c; unfold run_call, map_outcome; apply readonly_bind;
    try (intros ?; apply readonly_ret).
  - apply readonly_calculateSMA.
  - apply readonly_calculateEMA.
  - apply readonly_calculateWMA.
  - apply readonly_calculateStandardDeviation.
  - apply readonly_calculateBollingerBands.
  - apply readonly_detectTrend.
  - apply readonly_calculateRSI.
Qed.

Lemma run_calls_id (cs : list indicator_call) (a : TimeSeriesAnalyzer) :
  run_calls cs a = a.
Proof.
  unfold run_calls. revert a. induction cs as [|c cs IH]; intro a; [reflexivity|].
  cbn [fold_left]. rewrite readonly_run_call. apply IH.
Qed.

(** ** The examples of the specification *)

Example trend_of_flat_prices :
  detectTrend 2 4 flat4 = (Ret "Sideways"%string, flat4).
Proof. vm_compute. reflexivity. Qed.

Example trend_of_falling_prices :
  detectTrend 2 4 falling4 = (Ret "Uptrend"%string, falling4).
Proof. vm_compute. reflexivity. Qed.

Example sma_of_one_point :
  calculateSMA 1 falling4 = (Ret (of_int 10), falling4).
Proof. vm_compute. reflexivity. Qed.

Example rsi_of_flat_prices :
  calculateRSI 3 flat4 = (Ret S754_nan, flat4).
Proof. vm_compute. reflexivity. Qed.

Example ema_of_empty_series_period_zero :
  calculateEMA 0 empty_series = (Undefined, empty_series).
Proof. vm_compute. reflexivity. Qed.

(** * The claims *)

(** C1, with the multiplier restricted to finite doubles.  On a series of
    length [L], every indicator called with a period [P > L] returns the
    sentinel [0] and leaves the object alone: SMA, EMA, WMA, the standard
    deviation and both Bollinger bands; RSI does so for a period [Q > L - 1].
    The empty series is the case [L = 0].  The bands are [0 + m * 0] and
    [0 - m * 0], which is [0] for every finite [m]. *)
Theorem insufficient_data_returns_zero (a : TimeSeriesAnalyzer) (P Q : Z)
    (multiplier : double) (upper : bool) :
  size a < P <= INT_MAX -> size a - 1 < Q <= INT_MAX ->
  is_finite multiplier = true ->
  calculateSMA P a = (Ret (of_int 0), a) /\
  calculateEMA P a = (Ret (of_int 0), a) /\
  calculateWMA P a = (Ret (of_int 0), a) /\
  calculateStandardDeviation P a = (Ret (of_int 0), a) /\
  calculateBollingerBands P multiplier upper a = (Ret (of_int 0), a) /\
  calculateRSI Q a = (Ret (of_int 0), a).
Proof.
  intros HP HQ Hm.
  repeat split.
  - apply calculateSMA_short; assumption.
  - apply calculateEMA_short; assumption.
  - apply calculateWMA_short; assumption.
  - apply calculateStandardDeviation_short; assumption.
  - rewrite (calculateBollingerBands_from a P multiplier (of_int 0) (of_int 0) upper).
    + rewrite band_of_zeros by assumption. reflexivity.
    + apply calculateSMA_short; assumption.
    + apply calculateStandardDeviation_short; assumption.
  - apply calculateRSI_short; assumption.
Qed.

Lemma insufficient_data_returns_zero_witness :
  (size falling4 < 5 <= INT_MAX /\ size falling4 - 1 < 4 <= INT_MAX /\
   is_finite (of_int 2) = true) /\
  calculateSMA 5 falling4 = (Ret (of_int 0), falling4) /\
  calculateEMA 5 falling4 = (Ret (of_int 0), falling4) /\
  calculateWMA 5 falling4 = (Ret (of_int 0), falling4) /\
  calculateStandardDeviation 5 falling4 = (Ret (of_int 0), falling4) /\
  calculateBollingerBands 5 (of_int 2) true falling4 = (Ret (of_int 0), falling4) /\
  calculateRSI 4 falling4 = (Ret (of_int 0), falling4).
Proof.
  split.
  - repeat split; vm_compute; congruence.
  - apply (insufficient_data_returns_zero falling4 5 4 (of_int 2) true).
    + split; vm_compute; congruence.
    + split; vm_compute; congruence.
    + reflexivity.
Defined.

(** C1 as stated fails for a multiplier that is not finite: on the empty
    series, the upper band of period 1 with multiplier [+inf] is
    [0 + inf * 0], a NaN, which is not zero. *)
Lemma insufficient_data_infinite_multiplier :
  size empty_series < 1 <= INT_MAX /\
  calculateBollingerBands 1 (S754_infinity false) true empty_series
  = (Ret S754_nan, empty_series) /\
  feq S754_nan (of_int 0) = false.
Proof.
  split; [split; vm_compute; congruence|]. split; reflexivity.
Qed.

(** C2, as the parser behaves.  [parseData] validates nothing: it appends
    one price and one timestamp per entry, in payload order.  When every
    entry carries a close string that [std::stod] converts, the series has
    one point per entry, whatever the sign or finiteness of the prices; the
    empty payload gives the empty series and no error.  The first entry
    whose close is missing, is not a string or is not convertible ends the
    parse with the library's exception, and the object holds the points
    parsed before it.  Text that is not JSON throws before the vectors
    are touched. *)
Theorem parseData_converts_or_throws (stod : string -> stod_result)
    (to_millis : string -> Z) (a : TimeSeriesAnalyzer) :
  (forall es vs,
     Forall2 (fun e v => entry_price stod e = inr v) es vs ->
     parseData stod to_millis (TimeSeries es) a
     = (Ret tt, with_vectors a vs (entry_millis to_millis es))
     /\ List.length vs = List.length es) /\
  (forall pre bad post vs x,
     Forall2 (fun e v => entry_price stod e = inr v) pre vs ->
     entry_price stod bad = inl x ->
     parseData stod to_millis (TimeSeries (pre ++ bad :: post)) a
     = (Throw x, with_vectors a vs (entry_millis to_millis pre))) /\
  parseData stod to_millis (TimeSeries []) a = (Ret tt, with_vectors a [] []) /\
  parseData stod to_millis NotJson a = (Throw parse_error, a).
Proof.
  repeat split.
  - unfold parseData, bind at 1, clear_vectors.
    rewrite (parse_entries_all stod to_millis es vs) by assumption. reflexivity.
  - symmetry. eapply Forall2_length. eassumption.
  - intros pre bad post vs x Hpre Hbad.
    unfold parseData, bind at 1, clear_vectors.
    rewrite (parse_entries_failure stod to_millis pre post bad x vs) by assumption.
    reflexivity.
Qed.

Lemma parseData_converts_or_throws_witness :
  parseData sample_stod sample_millis (TimeSeries [good_entry]) empty_series
  = (Ret tt, with_vectors empty_series [fdiv (of_int 203) (of_int 2)]
                          [1704186000000]) /\
  parseData sample_stod sample_millis
    (TimeSeries ([good_entry] ++ malformed_entry :: [])) empty_series
  = (Throw invalid_argument,
     with_vectors empty_series [fdiv (of_int 203) (of_int 2)] [1704186000000]).
Proof.
  destruct (parseData_converts_or_throws sample_stod sample_millis empty_series)
    as (Hall & Hfail & _).
  assert (Hgood : Forall2 (fun e v => entry_price sample_stod e = inr v)
                    [good_entry] [fdiv (of_int 203) (of_int 2)])
    by (repeat constructor).
  split.
  - exact (proj1 (Hall [good_entry] [fdiv (of_int 203) (of_int 2)] Hgood)).
  - exact (Hfail [good_entry] malformed_entry [] [fdiv (of_int 203) (of_int 2)]
             invalid_argument Hgood eq_refl).
Defined.

(** C2 as stated fails twice.  A payload of one valid entry and one
    malformed entry should give a series of length 1, and the parser throws;
    the empty payload should fail with [EmptySeries], and the parser returns
    with an empty series. *)
Lemma parseData_differs_from_validation :
  ~ construction_agrees
      (parseData sample_stod sample_millis
         (TimeSeries [good_entry; malformed_entry]) empty_series)
      (construct_spec sample_stod sample_millis sample_parseable
         [good_entry; malformed_entry]) /\
  ~ construction_agrees
      (parseData sample_stod sample_millis (TimeSeries []) empty_series)
      (construct_spec sample_stod sample_millis sample_parseable []).
Proof.
  split.
  - vm_compute. intros [H _]. discriminate.
  - vm_compute. intros [x H]. discriminate.
Qed.

(** C3, as comparisons of doubles have it.  For periods that are positive
    [int]s and every series: when the series is shorter than [longPeriod]
    the classifier answers "Insufficient data"; otherwise, with the two
    averages being what [calculateSMA] returns, it answers "Uptrend" exactly
    when SMA(shortPeriod) > SMA(longPeriod), "Downtrend" exactly when it is
    less, and "Sideways" exactly when it is neither.  On a series of finite
    prices that last case is exactly the one where the two compare equal,
    with [==] on doubles and no tolerance. *)
Theorem detectTrend_classifies (a : TimeSeriesAnalyzer) (shortPeriod longPeriod : Z) :
  1 <= shortPeriod <= INT_MAX -> 1 <= longPeriod <= INT_MAX ->
  (size a < longPeriod ->
   detectTrend shortPeriod longPeriod a = (Ret "Insufficient data"%string, a)) /\
  (longPeriod <= size a ->
   exists shortMA longMA label,
     shortMA = sma_result a shortPeriod /\
     longMA = sma_result a longPeriod /\
     calculateSMA shortPeriod a = (Ret shortMA, a) /\
     calculateSMA longPeriod a = (Ret longMA, a) /\
     detectTrend shortPeriod longPeriod a = (Ret label, a) /\
     (label = "Uptrend"%string <-> fgt shortMA longMA = true) /\
     (label = "Downtrend"%string <-> flt shortMA longMA = true) /\
     (label = "Sideways"%string <->
      fgt shortMA longMA = false /\ flt shortMA longMA = false) /\
     (Forall (fun p => is_finite p = true) (prices a) ->
      (label = "Sideways"%string <-> feq shortMA longMA = true))).
Proof.
  intros Hs Hl. split.
  - intro Hlt. apply detectTrend_short. lia.
  - intro Hge.
    exists (sma_result a shortPeriod), (sma_result a longPeriod),
           (trend_label (sma_result a shortPeriod) (sma_result a longPeriod)).
    split; [reflexivity|]. split; [reflexivity|].
    split; [apply calculateSMA_result; lia|].
    split; [apply calculateSMA_result; lia|].
    split; [apply detectTrend_value; lia|].
    pose proof (flt_asym (sma_result a shortPeriod) (sma_result a longPeriod)) as Hasym.
    assert (Hgen :
      (trend_label (sma_result a shortPeriod) (sma_result a longPeriod)
       = "Uptrend"%string
       <-> fgt (sma_result a shortPeriod) (sma_result a longPeriod) = true) /\
      (trend_label (sma_result a shortPeriod) (sma_result a longPeriod)
       = "Downtrend"%string
       <-> flt (sma_result a shortPeriod) (sma_result a longPeriod) = true) /\
      (trend_label (sma_result a shortPeriod) (sma_result a longPeriod)
       = "Sideways"%string
       <-> fgt (sma_result a shortPeriod) (sma_result a longPeriod) = false
           /\ flt (sma_result a shortPeriod) (sma_result a longPeriod) = false)).
    { unfold trend_label.
      destruct (fgt _ _) eqn:Egt, (flt _ _) eqn:Elt;
        try (specialize (Hasym eq_refl); discriminate);
        (split; [|split]); split; intros; try discriminate; try reflexivity;
        try (split; reflexivity);
        try (match goal with H : _ /\ _ |- _ => destruct H; discriminate end). }
    destruct Hgen as (Hup & Hdown & Hside).
    split; [exact Hup|]. split; [exact Hdown|]. split; [exact Hside|].
    intro Hfin.
    pose proof (sma_result_not_nan a shortPeriod Hfin Hs) as Ns.
    pose proof (sma_result_not_nan a longPeriod Hfin Hl) as Nl.
    pose proof (feq_iff_neither _ _ Ns Nl) as Heq.
    rewrite Hside. split.
    + intros [Hg Hlo]. apply Heq. split; assumption.
    + intro Hf. apply Heq in Hf. exact Hf.
Qed.

Lemma detectTrend_classifies_witness :
  (1 <= 2 <= INT_MAX /\ 1 <= 4 <= INT_MAX /\
   Forall (fun p => is_finite p = true) (prices falling4)) /\
  (size falling4 < 4 ->
   detectTrend 2 4 falling4 = (Ret "Insufficient data"%string, falling4)) /\
  (4 <= size falling4 ->
   exists shortMA longMA label,
     shortMA = sma_result falling4 2 /\
     longMA = sma_result falling4 4 /\
     calculateSMA 2 falling4 = (Ret shortMA, falling4) /\
     calculateSMA 4 falling4 = (Ret longMA, falling4) /\
     detectTrend 2 4 falling4 = (Ret label, falling4) /\
     (label = "Uptrend"%string <-> fgt shortMA longMA = true) /\
     (label = "Downtrend"%string <-> flt shortMA longMA = true) /\
     (label = "Sideways"%string <->
      fgt shortMA longMA = false /\ flt shortMA longMA = false) /\
     (Forall (fun p => is_finite p = true) (prices falling4) ->
      (label = "Sideways"%string <-> feq shortMA longMA = true))).
Proof.
  assert (H : Forall (fun p => is_finite p = true) (prices falling4))
    by (repeat constructor).
  assert (H2 : 1 <= 2 <= INT_MAX) by (split; vm_compute; congruence).
  assert (H4 : 1 <= 4 <= INT_MAX) by (split; vm_compute; congruence).
  split; [auto|]. exact (detectTrend_classifies falling4 2 4 H2 H4).
Defined.

(** C3 as stated fails on prices that are not finite: for the prices
    [+inf], [-inf] and the periods 1 and 2 the short average is [+inf] and
    the long one the NaN of [inf - inf]; no comparison with a NaN holds, so
    the classifier answers "Sideways" though the two do not compare equal. *)
Lemma detectTrend_sideways_without_equality :
  1 <= 1 <= INT_MAX /\ 1 <= 2 <= INT_MAX /\ 2 <= size opposite_infinities /\
  calculateSMA 1 opposite_infinities = (Ret (S754_infinity false), opposite_infinities) /\
  calculateSMA 2 opposite_infinities = (Ret S754_nan, opposite_infinities) /\
  detectTrend 1 2 opposite_infinities = (Ret "Sideways"%string, opposite_infinities) /\
  feq (S754_infinity false) S754_nan = false.
Proof.
  split; [split; vm_compute; congruence|].
  split; [split; vm_compute; congruence|].
  split; [vm_compute; congruence|].
  split; [vm_compute; reflexivity|]. split; [vm_compute; reflexivity|].
  split; vm_compute; reflexivity.
Qed.

(** C4.  On a series of at least [period] points, EMA(period) is the
    recurrence seeded with [price[0]] and folded through indices
    [1 .. period - 1] with [ema_i = alpha * price_i + (1 - alpha) * ema_(i-1)]
    and [alpha = 2 / (period + 1)]; so it reads the first [period] points
    only, and two series that agree there have the same EMA(period). *)
Theorem calculateEMA_is_bounded_recurrence (a : TimeSeriesAnalyzer) (period : Z) :
  1 <= period < INT_MAX -> period <= size a ->
  calculateEMA period a = (Ret (ema_spec (prices a) period), a) /\
  forall b, period <= size b ->
    firstn (Z.to_nat period) (prices b) = firstn (Z.to_nat period) (prices a) ->
    fst (calculateEMA period b) = fst (calculateEMA period a).
Proof.
  intros Hp Hsz. split.
  - apply calculateEMA_value; assumption.
  - intros b Hb Hpre.
    rewrite (calculateEMA_value a period Hp Hsz), (calculateEMA_value b period Hp Hb).
    cbn [fst]. f_equal. unfold ema_spec.
    apply (ema_rec_prefix _ _ _ (Z.to_nat period)); [assumption | lia].
Qed.

Lemma calculateEMA_is_bounded_recurrence_witness :
  (1 <= 3 < INT_MAX /\ 3 <= size falling4) /\
  calculateEMA 3 falling4 = (Ret (ema_spec (prices falling4) 3), falling4) /\
  forall b, 3 <= size b ->
    firstn (Z.to_nat 3) (prices b) = firstn (Z.to_nat 3) (prices falling4) ->
    fst (calculateEMA 3 b) = fst (calculateEMA 3 falling4).
Proof.
  assert (H1 : 1 <= 3 < INT_MAX) by (split; vm_compute; congruence).
  assert (H2 : 3 <= size falling4) by (vm_compute; congruence).
  split; [auto|]. exact (calculateEMA_is_bounded_recurrence falling4 3 H1 H2).
Defined.

(** C5, for finite prices.  On a series of finite prices with at least
    [period + 1] points,
    RSI(period) takes the [period] changes [price[i-1] - price[i]] at indices
    [1 .. period], sums the positive ones into the gain and the magnitudes of
    the negative ones into the loss, divides each by [period], and returns
    [100 - 100 / (1 + avg_gain / avg_loss)]. *)
Theorem calculateRSI_formula (a : TimeSeriesAnalyzer) (period : Z) :
  Forall (fun p => is_finite p = true) (prices a) ->
  1 <= period < INT_MAX -> period + 1 <= size a ->
  calculateRSI period a = (Ret (rsi_spec (prices a) period), a).
Proof.
  intros Hfin Hp Hsz. rewrite calculateRSI_value by lia.
  destruct (rsi_sums_split (prices a) (Z.to_nat period)) as [-> _].
  - intros i _. apply fsub_not_nan; apply finite_prices; assumption.
  - reflexivity.
Qed.

Lemma calculateRSI_formula_witness :
  (Forall (fun p => is_finite p = true) (prices mixed4) /\
   1 <= 3 < INT_MAX /\ 3 + 1 <= size mixed4) /\
  calculateRSI 3 mixed4 = (Ret (rsi_spec (prices mixed4) 3), mixed4).
Proof.
  assert (H : Forall (fun p => is_finite p = true) (prices mixed4))
    by (repeat constructor).
  assert (H1 : 1 <= 3 < INT_MAX) by (split; vm_compute; congruence).
  assert (H2 : 3 + 1 <= size mixed4) by (vm_compute; congruence).
  split; [auto|]. exact (calculateRSI_formula mixed4 3 H H1 H2).
Defined.

(** C5 as stated fails on prices that are not finite: for the prices
    [+inf], [+inf], 1 and period 2 the first change is the NaN of
    [inf - inf]; it is not positive, so the loop subtracts it from the loss
    and RSI is a NaN, where the sums of the positive and of the negative
    changes give 100. *)
Lemma calculateRSI_nan_change :
  1 <= 2 < INT_MAX /\ 2 + 1 <= size infinite_pair /\
  price_change (prices infinite_pair) 1 = S754_nan /\
  calculateRSI 2 infinite_pair = (Ret S754_nan, infinite_pair) /\
  rsi_spec (prices infinite_pair) 2 = of_int 100 /\
  feq S754_nan (rsi_spec (prices infinite_pair) 2) = false.
Proof.
  split; [split; vm_compute; congruence|].
  split; [vm_compute; congruence|].
  split; [vm_compute; reflexivity|]. split; [vm_compute; reflexivity|].
  split; vm_compute; reflexivity.
Qed.

(** C6, as double arithmetic has it.  On a series of at least [period]
    points the upper band is the rounded sum [SMA + m * SD] and the lower
    band the rounded difference [SMA - m * SD], each operation rounded to
    nearest.  Their difference is [2 * m * SD] when the deviation is zero
    and the average and the multiplier are finite; in general it is so only
    up to rounding. *)
Theorem bollinger_bands_around_sma (a : TimeSeriesAnalyzer) (period : Z)
    (m : double) :
  1 <= period <= INT_MAX -> period <= size a ->
  exists sma sd upper lower,
    calculateSMA period a = (Ret sma, a) /\
    calculateStandardDeviation period a = (Ret sd, a) /\
    calculateBollingerBands period m true a = (Ret upper, a) /\
    calculateBollingerBands period m false a = (Ret lower, a) /\
    upper = fadd sma (fmul m sd) /\
    lower = fsub sma (fmul m sd) /\
    (sd = S754_zero false -> is_finite sma = true -> is_finite m = true ->
     feq (fsub upper lower) (two_m_sd m sd) = true).
Proof.
  intros Hp Hsz.
  pose proof (calculateSMA_value a period ltac:(lia) ltac:(lia)) as Hs.
  pose proof (calculateStandardDeviation_value a period ltac:(lia) ltac:(lia)) as Hd.
  exists (sma_value (prices a) period), (sd_value (prices a) period),
         (fadd (sma_value (prices a) period) (fmul m (sd_value (prices a) period))),
         (fsub (sma_value (prices a) period) (fmul m (sd_value (prices a) period))).
  split; [exact Hs|]. split; [exact Hd|].
  split; [apply (calculateBollingerBands_from a period m _ _ true Hs Hd)|].
  split; [apply (calculateBollingerBands_from a period m _ _ false Hs Hd)|].
  split; [reflexivity|]. split; [reflexivity|].
  intros -> Hfs Hfm. apply bands_of_zero_deviation; assumption.
Qed.

Lemma bollinger_bands_around_sma_witness :
  (1 <= 3 <= INT_MAX /\ 3 <= size sevens) /\
  exists sma sd upper lower,
    calculateSMA 3 sevens = (Ret sma, sevens) /\
    calculateStandardDeviation 3 sevens = (Ret sd, sevens) /\
    calculateBollingerBands 3 (of_int 2) true sevens = (Ret upper, sevens) /\
    calculateBollingerBands 3 (of_int 2) false sevens = (Ret lower, sevens) /\
    upper = fadd sma (fmul (of_int 2) sd) /\
    lower = fsub sma (fmul (of_int 2) sd) /\
    (sd = S754_zero false -> is_finite sma = true -> is_finite (of_int 2) = true ->
     feq (fsub upper lower) (two_m_sd (of_int 2) sd) = true).
Proof.
  assert (H1 : 1 <= 3 <= INT_MAX) by (split; vm_compute; congruence).
  assert (H2 : 3 <= size sevens) by (vm_compute; congruence).
  split; [auto|]. exact (bollinger_bands_around_sma sevens 3 (of_int 2) H1 H2).
Defined.

(** C6 as stated fails: for the prices 1, 1, 4 with period 3 and multiplier
    2 the average is 2 and the deviation the double nearest to the square
    root of 2; the two bands differ by a double that is not [2 * m * SD],
    whichever way that product is bracketed. *)
Lemma bollinger_difference_not_exact :
  3 <= size band3 /\
  exists sd upper lower,
    calculateStandardDeviation 3 band3 = (Ret sd, band3) /\
    calculateBollingerBands 3 (of_int 2) true band3 = (Ret upper, band3) /\
    calculateBollingerBands 3 (of_int 2) false band3 = (Ret lower, band3) /\
    feq (fsub upper lower) (two_m_sd (of_int 2) sd) = false /\
    feq (fsub upper lower) (fmul (fmul (of_int 2) (of_int 2)) sd) = false.
Proof.
  split; [vm_compute; congruence|].
  eexists _, _, _.
  split; [vm_compute; reflexivity|]. split; [vm_compute; reflexivity|].
  split; [vm_compute; reflexivity|]. split; vm_compute; reflexivity.
Qed.

(** C7, as the division behaves.  The code has no guard on the loss.  On a
    series of doubles with at least [period + 1] points whose [period]
    changes are all gains, the loss stays zero, the division by it yields
    [+inf] without a fault, and RSI(period) returns exactly 100. *)
Theorem calculateRSI_all_gaining (a : TimeSeriesAnalyzer) (period : Z) :
  Forall is_double (prices a) ->
  1 <= period < INT_MAX -> period + 1 <= size a ->
  all_gaining (prices a) period ->
  calculateRSI period a = (Ret (of_int 100), a).
Proof.
  intros Hd Hp Hsz Hgain. rewrite calculateRSI_value by lia.
  pose proof (int_range_2_53 period ltac:(lia)) as H53.
  destruct (rsi_sums_gaining (prices a) (Z.to_nat period)) as (g & -> & _ & Hg).
  - intros i Hi. unfold price_change. apply fsub_positive_at_least.
    + apply double_prices; assumption.
    + apply double_prices; assumption.
    + apply Hgain. lia.
  - lia.
  - cbn [fst snd]. rewrite rsi_formula_gaining; [reflexivity | lia |].
    rewrite <- (Z2Nat.id period) at 1 by lia. apply Hg. lia.
Qed.

Lemma calculateRSI_all_gaining_witness :
  (Forall is_double (prices gaining4) /\ 1 <= 3 < INT_MAX /\
   3 + 1 <= size gaining4 /\ all_gaining (prices gaining4) 3) /\
  calculateRSI 3 gaining4 = (Ret (of_int 100), gaining4).
Proof.
  assert (H : Forall is_double (prices gaining4)) by (repeat constructor).
  assert (H1 : 1 <= 3 < INT_MAX) by (split; vm_compute; congruence).
  assert (H2 : 3 + 1 <= size gaining4) by (vm_compute; congruence).
  assert (H3 : all_gaining (prices gaining4) 3).
  { intros i Hi.
    assert (Hc : i = 1 \/ i = 2 \/ i = 3) by lia.
    destruct Hc as [-> | [-> | ->]]; vm_compute; reflexivity. }
  split; [auto|]. exact (calculateRSI_all_gaining gaining4 3 H H1 H2 H3).
Defined.

(** C7 as stated fails: the 100 is not a chosen clamp.  On the gaining
    prices 10, 9, 8, 7 with period 3 the average loss is [+0] and the code
    divides by it, the ratio being [+inf]; the value returned is that of the
    one formula every window goes through.  On four prices of 7 the average
    loss is [+0] as well, and the same division gives a NaN, not 100. *)
Lemma calculateRSI_division_is_unguarded :
  all_gaining (prices gaining4) 3 /\
  fdiv (snd (rsi_sums (prices gaining4) 3)) (of_int 3) = S754_zero false /\
  fdiv (fdiv (fst (rsi_sums (prices gaining4) 3)) (of_int 3))
       (fdiv (snd (rsi_sums (prices gaining4) 3)) (of_int 3))
  = S754_infinity false /\
  calculateRSI 3 gaining4
  = (Ret (rsi_formula (fst (rsi_sums (prices gaining4) 3))
                      (snd (rsi_sums (prices gaining4) 3)) 3), gaining4) /\
  fdiv (snd (rsi_sums (prices sevens) 3)) (of_int 3) = S754_zero false /\
  calculateRSI 3 sevens
  = (Ret (rsi_formula (fst (rsi_sums (prices sevens) 3))
                      (snd (rsi_sums (prices sevens) 3)) 3), sevens) /\
  calculateRSI 3 sevens = (Ret S754_nan, sevens).
Proof.
  split.
  { intros i Hi.
    assert (Hc : i = 1 \/ i = 2 \/ i = 3) by lia.
    destruct Hc as [-> | [-> | ->]]; vm_compute; reflexivity. }
  split; [vm_compute; reflexivity|]. split; [vm_compute; reflexivity|].
  split; [vm_compute; reflexivity|]. split; [vm_compute; reflexivity|].
  split; vm_compute; reflexivity.
Qed.

(** C8, for prices the weighted sums represent exactly.  When the first
    [period] prices all equal a positive integer [n] with
    [n * period * (period + 1) < 2^54], every product and partial sum is an
    integer below 2^53, no operation rounds, and WMA(period) is [n]. *)
Theorem calculateWMA_uniform_integer (a : TimeSeriesAnalyzer) (period n : Z) :
  1 <= period <= INT_MAX -> period <= size a ->
  1 <= n -> n * period * (period + 1) < 2 ^ 54 ->
  uniform (prices a) period (of_int n) ->
  calculateWMA period a = (Ret (of_int n), a).
Proof.
  intros Hp Hsz Hn Hb Hu. rewrite calculateWMA_value by lia.
  rewrite (wma_sums_uniform (prices a) period n (Z.to_nat period)) by (assumption || lia).
  cbn [fst snd].
  destruct (weight_total_bounds period (Z.to_nat period) ltac:(lia)) as (_ & W1 & W2).
  assert (H54 : 2 ^ 54 = 2 * 2 ^ 53) by reflexivity.
  rewrite fdiv_of_int; [reflexivity | lia | apply W2; lia | nia].
Qed.

Lemma calculateWMA_uniform_integer_witness :
  (1 <= 4 <= INT_MAX /\ 4 <= size sevens /\ 1 <= 7 /\ 7 * 4 * (4 + 1) < 2 ^ 54 /\
   uniform (prices sevens) 4 (of_int 7)) /\
  calculateWMA 4 sevens = (Ret (of_int 7), sevens).
Proof.
  assert (H1 : 1 <= 4 <= INT_MAX) by (split; vm_compute; congruence).
  assert (H2 : 4 <= size sevens) by (vm_compute; congruence).
  assert (H3 : 1 <= 7) by (vm_compute; congruence).
  assert (H4 : 7 * 4 * (4 + 1) < 2 ^ 54) by (vm_compute; reflexivity).
  assert (H5 : uniform (prices sevens) 4 (of_int 7)).
  { intros i Hi.
    assert (Hc : i = 0 \/ i = 1 \/ i = 2 \/ i = 3) by lia.
    destruct Hc as [-> | [-> | [-> | ->]]]; reflexivity. }
  split; [auto 6|]. exact (calculateWMA_uniform_integer sevens 4 7 H1 H2 H3 H4 H5).
Defined.

(** C8 as stated fails: two prices of 0.1 with period 2 give
    [(0.1 * 2 + 0.1 * 1) / 3], which rounds to the next double above 0.1. *)
Lemma calculateWMA_uniform_tenth :
  2 <= size tenths /\ uniform (prices tenths) 2 tenth /\
  calculateWMA 2 tenths = (Ret (S754_finite false 7205759403792795 (-56)), tenths) /\
  tenth = S754_finite false 7205759403792794 (-56) /\
  feq (S754_finite false 7205759403792795 (-56)) tenth = false.
Proof.
  split; [vm_compute; congruence|]. split.
  - intros i Hi. assert (Hc : i = 0 \/ i = 1) by lia.
    destruct Hc as [-> | ->]; reflexivity.
  - split; [vm_compute; reflexivity|]. split; vm_compute; reflexivity.
Qed.

(** C9.  The classifier guards on [longPeriod] only.  On a series of
    strictly positive doubles with [1 <= longPeriod <= length < shortPeriod],
    SMA(shortPeriod) is the sentinel 0, SMA(longPeriod) is strictly positive,
    and the answer is "Downtrend", not "Insufficient data". *)
Theorem detectTrend_short_window_is_downtrend (a : TimeSeriesAnalyzer)
    (shortPeriod longPeriod : Z) :
  Forall is_double (prices a) ->
  Forall (fun p => is_positive p = true) (prices a) ->
  1 <= longPeriod -> longPeriod <= size a -> size a < shortPeriod <= INT_MAX ->
  exists longMA,
    calculateSMA shortPeriod a = (Ret (of_int 0), a) /\
    calculateSMA longPeriod a = (Ret longMA, a) /\
    is_positive longMA = true /\
    detectTrend shortPeriod longPeriod a = (Ret "Downtrend"%string, a).
Proof.
  intros Hd Hpos Hl Hsz Hs.
  assert (Hlong : at_least 1 (sma_value (prices a) longPeriod)).
  { apply sma_value_positive; [|lia]. intros i Hi.
    apply positive_at_least.
    - apply double_prices; assumption.
    - apply (price_in_range (prices a) (fun p => is_positive p = true));
        [assumption | unfold size in Hsz; lia]. }
  destruct (at_least_positive _ _ Hlong) as [Hp Hn].
  exists (sma_value (prices a) longPeriod).
  split; [apply calculateSMA_short; lia|].
  split; [apply calculateSMA_value; lia|].
  split; [exact Hp|].
  rewrite detectTrend_value by lia. unfold sma_result.
  assert (E1 : (size a <? shortPeriod) = true) by (apply Z.ltb_lt; lia).
  assert (E2 : (size a <? longPeriod) = false) by (apply Z.ltb_ge; lia).
  rewrite E1, E2. unfold trend_label.
  unfold is_positive, is_negative, fgt, flt in *. rewrite Hn, Hp. reflexivity.
Qed.

Lemma detectTrend_short_window_is_downtrend_witness :
  (Forall is_double (prices falling4) /\
   Forall (fun p => is_positive p = true) (prices falling4) /\
   1 <= 2 /\ 2 <= size falling4 /\ size falling4 < 5 <= INT_MAX) /\
  exists longMA,
    calculateSMA 5 falling4 = (Ret (of_int 0), falling4) /\
    calculateSMA 2 falling4 = (Ret longMA, falling4) /\
    is_positive longMA = true /\
    detectTrend 5 2 falling4 = (Ret "Downtrend"%string, falling4).
Proof.
  assert (H : Forall is_double (prices falling4)) by (repeat constructor).
  assert (H0 : Forall (fun p => is_positive p = true) (prices falling4))
    by (repeat constructor).
  assert (H1 : 1 <= 2) by (vm_compute; congruence).
  assert (H2 : 2 <= size falling4) by (vm_compute; congruence).
  assert (H3 : size falling4 < 5 <= INT_MAX) by (split; vm_compute; congruence).
  split; [auto 6|].
  exact (detectTrend_short_window_is_downtrend falling4 5 2 H H0 H1 H2 H3).
Defined.

(** C10.  Every indicator call, with any parameters and on any object,
    leaves the object as it was: the prices and the timestamps after the call
    are those before it.  So a call returns the same outcome whatever calls,
    in whatever order and number, ran on the object before it.  (A call that
    reads outside the vector ends as [Undefined]; it has written nothing up
    to that read.) *)
Theorem indicators_leave_series_unchanged (c : indicator_call)
    (a : TimeSeriesAnalyzer) :
  snd (run_call c a) = a /\
  prices (snd (run_call c a)) = prices a /\
  timestamps (snd (run_call c a)) = timestamps a /\
  forall earlier : list indicator_call,
    fst (run_call c (run_calls earlier a)) = fst (run_call c a).
Proof.
  pose proof (readonly_run_call c a) as H. rewrite H.
  repeat split. intro earlier. rewrite run_calls_id. reflexivity.
Qed.

(** * Further properties

    ** More binary64 facts *)

Lemma of_int_0 : of_int 0 = S754_zero false.
Proof. reflexivity. Qed.

Lemma is_double_bounded (s : bool) (m : positive) (e : Z) :
  is_double (S754_finite s m e) ->
  canonical_mantissa prec emax m e = true /\ e <= emax - prec.
Proof.
  unfold is_double, valid_binary, bounded. intro H.
  apply andb_prop in H. destruct H as [Hc He]. split; [exact Hc|].
  apply Z.leb_le. exact He.
Qed.

(** Multiplying or dividing a double by 1 gives it back. *)
Lemma fmul_one (x : double) :
  is_double x -> is_finite x = true -> fmul x (of_int 1) = x.
Proof.
  rewrite of_int_1. destruct x as [s|s| |s m e]; try discriminate; intros Hv _.
  - destruct s; reflexivity.
  - destruct (is_double_bounded s m e Hv) as [Hc He].
    unfold fmul, SFmul. rewrite xorb_false_r.
    apply binary_round_aux_exact; try assumption; try lia.
    replace (e - (e + -52)) with 52 by lia. rewrite Pos2Z.inj_mul. reflexivity.
Qed.

Lemma fdiv_one (x : double) :
  is_double x -> is_finite x = true -> fdiv x (of_int 1) = x.
Proof.
  rewrite of_int_1. destruct x as [s|s| |s m e]; try discriminate; intros Hv _.
  - destruct s; reflexivity.
  - destruct (is_double_bounded s m e Hv) as [Hc He].
    pose proof Hc as Hc'. unfold canonical_mantissa in Hc'. apply Z.eqb_eq in Hc'.
    rewrite fexp_eq in Hc'.
    unfold fdiv, SFdiv, SFdiv_core_binary. rewrite xorb_false_r.
    change (Zdigits2 (Z.pos 4503599627370496)) with 53. cbn [Zdigits2].
    set (d := Z.pos (digits2_pos m)) in *.
    rewrite fexp_eq.
    set (e' := Z.min (Z.max (d + e - (53 + -52) - 53) emin) (e - -52)).
    assert (He' : emin <= e' <= e) by (unfold e'; lia).
    set (sh := e - -52 - e').
    assert (Hsh : sh = 52 + (e - e')) by (unfold sh; lia).
    rewrite (shift_or_id (Z.pos m) sh) by lia.
    assert (Hdiv : Z.div_eucl (Z.pos m * 2 ^ sh) 4503599627370496
                   = (Z.pos m * 2 ^ (e - e'), 0)).
    { pose proof (Z_div_mod (Z.pos m * 2 ^ sh) 4503599627370496 ltac:(lia)) as Hdm.
      destruct (Z.div_eucl _ _) as [q' r']. destruct Hdm as [Hq Hr].
      assert (Hexact : Z.pos m * 2 ^ sh
                       = 4503599627370496 * (Z.pos m * 2 ^ (e - e')) + 0).
      { rewrite Hsh, Z.pow_add_r by lia. change (2 ^ 52) with 4503599627370496. ring. }
      assert (Huniq := Z.div_mod_unique 4503599627370496 q' (Z.pos m * 2 ^ (e - e')) r' 0
                         ltac:(lia) ltac:(lia)).
      rewrite <- Hq, <- Hexact in Huniq. destruct (Huniq eq_refl) as [-> ->].
      reflexivity. }
    rewrite Hdiv.
    pose proof (pow2_pos (e - e') ltac:(lia)) as Hp.
    destruct (Z.pos m * 2 ^ (e - e')) as [|q|q] eqn:Eq; try lia.
    change (new_location 4503599627370496 0) with loc_Exact.
    apply binary_round_aux_exact; try assumption; lia.
Qed.

Lemma SFcompare_refl (x : double) :
  SFcompare x x = None \/ SFcompare x x = Some Eq.
Proof.
  destruct x as [s|s| |s m e]; simpl; auto.
  - destruct s; auto.
  - rewrite Z.compare_refl, Pos.compare_cont_refl. destruct s; auto.
Qed.

Lemma flt_irrefl (x : double) : flt x x = false.
Proof.
  unfold flt, SFltb. destruct (SFcompare_refl x) as [-> | ->]; reflexivity.
Qed.

(** A quotient by a positive double keeps a positive sign. *)
Lemma fdiv_sign (x : double) (m : positive) (e : Z) :
  has_sign false x -> has_sign false (fdiv x (S754_finite false m e)).
Proof.
  unfold fdiv, SFdiv.
  destruct x as [sx|sx| |sx mx ex]; cbn [has_sign]; try tauto; intros ->;
    try reflexivity.
  unfold SFdiv_core_binary.
  match goal with |- context [Z.div_eucl ?a ?b] =>
    pose proof (Z_div_mod a b ltac:(lia)) as Hdm;
    assert (Ha : 0 <= a);
    [| destruct (Z.div_eucl a b) as [q r] ]
  end.
  - match goal with |- 0 <= match ?s with _ => _ end =>
      destruct s as [|p|p] eqn:Es; try lia end.
    apply Z.shiftl_nonneg. lia.
  - destruct Hdm as [Hq Hr].
    assert (Hq0 : 0 <= q) by nia.
    apply binary_round_aux_sign. exact Hq0.
Qed.

Lemma fadd_sign (x y : double) :
  has_sign false x -> has_sign false y -> is_finite y = true ->
  has_sign false (fadd x y).
Proof.
  intros Hx Hy Hf.
  assert (Hn : nonneg_or_nan (fadd x y)).
  { apply fadd_nonneg; [|exact Hy]. destruct x; cbn in *; tauto. }
  assert (Hnan : is_nan (fadd x y) = false).
  { apply fadd_not_nan; [|exact Hf]. destruct x; cbn in *; tauto || reflexivity. }
  destruct (fadd x y); cbn in *; try discriminate; assumption.
Qed.

(** A square root is never below zero. *)
Lemma fsqrt_not_negative (x : double) : is_negative (fsqrt x) = false.
Proof.
  unfold fsqrt, SFsqrt.
  destruct x as [s|s| |s m e]; try reflexivity.
  - destruct s; reflexivity.
  - destruct s; [reflexivity|].
    unfold SFsqrt_core_binary.
    match goal with |- context [Z.sqrtrem ?a] =>
      assert (Ha : 0 <= a);
      [| pose proof (Z.sqrtrem_spec a Ha) as Hs; destruct (Z.sqrtrem a) as [q r] ]
    end.
    + match goal with |- 0 <= match ?s with _ => _ end =>
        destruct s as [|p|p] eqn:Es; try lia end.
      apply Z.shiftl_nonneg. lia.
    + destruct Hs as [_ Hr].
      match goal with |- is_negative (binary_round_aux _ _ _ ?q' ?e' ?l') = false =>
        pose proof (binary_round_aux_sign false q' e' l' ltac:(lia)) as Hsg;
        destruct (binary_round_aux prec emax false q' e' l') as [s'|s'| |s' m' e'']
      end; cbn [has_sign] in Hsg; try tauto; subst; reflexivity.
Qed.

(** A negative difference of two doubles is at least one unit below zero. *)
Lemma fsub_negative_at_least (a b : double) :
  is_double a -> is_double b -> is_negative (fsub a b) = true ->
  at_least 1 (SFopp (fsub a b)).
Proof.
  intros Ha Hb. unfold fsub, SFsub.
  destruct a as [sa|sa| |sa ma ea], b as [sb|sb| |sb mb eb];
    try (simpl; discriminate).
  - destruct sa, sb; simpl; discriminate.
  - destruct sb; simpl; try discriminate; auto.
  - destruct sb; intro Hp; try (simpl in Hp; discriminate).
    apply (positive_at_least (S754_finite false mb eb)); [exact Hb | reflexivity].
  - destruct sa; simpl; try discriminate; auto.
  - destruct sa, sb; simpl; try discriminate; auto.
  - destruct sa; simpl; try discriminate; auto.
  - destruct sa; intro Hp; try (simpl in Hp; discriminate).
    apply (positive_at_least (S754_finite false ma ea)); [exact Ha | reflexivity].
  - destruct sb; simpl; try discriminate; auto.
  - apply is_double_emin in Ha, Hb.
    set (z := cond_Zopp sa (Z.pos (fst (shl_align ma ea (Z.min ea eb))))
              - cond_Zopp sb (Z.pos (fst (shl_align mb eb (Z.min ea eb))))).
    destruct z as [|p|p]; simpl binary_normalize.
    + simpl. discriminate.
    + pose proof (binary_round_sign false p (Z.min ea eb)) as Hs.
      destruct (binary_round _ _ _ _ _) as [s|s| |s m e]; simpl in Hs; subst;
        simpl; try discriminate; tauto.
    + intros _.
      destruct (binary_round_lower true p (Z.min ea eb) 1) as [-> | (m' & e' & -> & ? & ?)];
        cbn [at_least SFopp negb]; auto; try lia;
        try (pose proof (pow2_pos (Z.min ea eb - emin) ltac:(lia)); nia).
Qed.

(** ** Every method, on every length *)

Lemma calculateEMA_result (a : TimeSeriesAnalyzer) (p : Z) :
  1 <= p < INT_MAX -> calculateEMA p a = (Ret (ema_result a p), a).
Proof.
  intro H. unfold ema_result. destruct (size a <? p) eqn:E.
  - apply calculateEMA_short. apply Z.ltb_lt in E. lia.
  - apply calculateEMA_value; [|apply Z.ltb_ge in E]; lia.
Qed.

Lemma calculateWMA_result (a : TimeSeriesAnalyzer) (p : Z) :
  0 <= p <= INT_MAX -> calculateWMA p a = (Ret (wma_result a p), a).
Proof.
  intro H. unfold wma_result. destruct (size a <? p) eqn:E.
  - apply calculateWMA_short. apply Z.ltb_lt in E. lia.
  - apply calculateWMA_value; [apply Z.ltb_ge in E|]; lia.
Qed.

Lemma calculateStandardDeviation_result (a : TimeSeriesAnalyzer) (p : Z) :
  0 <= p <= INT_MAX -> calculateStandardDeviation p a = (Ret (sd_result a p), a).
Proof.
  intro H. unfold sd_result. destruct (size a <? p) eqn:E.
  - apply calculateStandardDeviation_short. apply Z.ltb_lt in E. lia.
  - apply calculateStandardDeviation_value; [apply Z.ltb_ge in E|]; lia.
Qed.

Lemma calculateBollingerBands_result (a : TimeSeriesAnalyzer) (p : Z)
    (m : double) (u : bool) :
  0 <= p <= INT_MAX ->
  calculateBollingerBands p m u a = (Ret (band_result a p m u), a).
Proof.
  intro H. unfold band_result.
  rewrite (calculateBollingerBands_from a p m (sma_result a p) (sd_result a p) u).
  - destruct u; reflexivity.
  - apply calculateSMA_result; assumption.
  - apply calculateStandardDeviation_result; assumption.
Qed.

Lemma detectTrend_result (a : TimeSeriesAnalyzer) (s l : Z) :
  0 <= s <= INT_MAX -> 0 <= l <= INT_MAX ->
  detectTrend s l a = (Ret (trend_result a s l), a).
Proof.
  intros Hs Hl. unfold trend_result. destruct (size a <? l) eqn:E.
  - apply detectTrend_short. apply Z.ltb_lt in E. lia.
  - apply detectTrend_value; try assumption. apply Z.ltb_ge in E. lia.
Qed.

Lemma calculateRSI_result (a : TimeSeriesAnalyzer) (p : Z) :
  0 <= p < INT_MAX -> calculateRSI p a = (Ret (rsi_result a p), a).
Proof.
  intro H. unfold rsi_result. destruct (size a <? p + 1) eqn:E.
  - apply calculateRSI_short. apply Z.ltb_lt in E. lia.
  - apply calculateRSI_value; [|apply Z.ltb_ge in E]; lia.
Qed.

Lemma guard_negative (a : TimeSeriesAnalyzer) (p : Z) :
  INT_MIN <= p < 0 -> size a < 2 ^ 63 -> (size a <? size_t_of_int p) = true.
Proof.
  unfold INT_MIN, size_t_of_int. intros Hp Hs. apply Z.ltb_lt.
  assert (H64 : 2 ^ 64 = 2 ^ 63 + 2 ^ 63) by reflexivity.
  assert (H31 : 2 ^ 31 < 2 ^ 63) by reflexivity.
  rewrite <- (Z_mod_plus_full p 1 (2 ^ 64)), Z.mod_small by lia. lia.
Qed.

Lemma int_add_1_negative (p : Z) : INT_MIN <= p < 0 -> int_add p 1 = p + 1.
Proof.
  unfold int_add, wrap_int, INT_MIN. intro H.
  rewrite Z.mod_small; [lia|].
  change (2 ^ 32) with (2 ^ 31 + 2 ^ 31). lia.
Qed.

(** Prices by index agree when the prefixes agree. *)
Lemma sum_first_prefix (ps qs : list double) (p : Z) :
  0 <= p -> firstn (Z.to_nat p) ps = firstn (Z.to_nat p) qs ->
  sum_first ps p = sum_first qs p.
Proof.
  intros Hp Hf. unfold sum_first. apply loop_pure_ext. intros j x Hj.
  rewrite (price_firstn ps qs (Z.to_nat p)) by (assumption || lia). reflexivity.
Qed.

Lemma wma_sums_prefix (ps qs : list double) (p : Z) :
  0 <= p -> firstn (Z.to_nat p) ps = firstn (Z.to_nat p) qs ->
  wma_sums ps p (Z.to_nat p) = wma_sums qs p (Z.to_nat p).
Proof.
  intros Hp Hf. unfold wma_sums. apply loop_pure_ext. intros j x Hj.
  unfold wma_step.
  rewrite (price_firstn ps qs (Z.to_nat p)) by (assumption || lia). reflexivity.
Qed.

Lemma sd_value_prefix (ps qs : list double) (p : Z) :
  0 <= p -> firstn (Z.to_nat p) ps = firstn (Z.to_nat p) qs ->
  sd_value ps p = sd_value qs p.
Proof.
  intros Hp Hf. unfold sd_value, sma_value.
  rewrite (sum_first_prefix ps qs p Hp Hf). do 2 f_equal.
  apply loop_pure_ext. intros j x Hj.
  rewrite (price_firstn ps qs (Z.to_nat p)) by (assumption || lia). reflexivity.
Qed.

Lemma rsi_sums_prefix (ps qs : list double) (p : Z) :
  0 <= p -> firstn (Z.to_nat (p + 1)) ps = firstn (Z.to_nat (p + 1)) qs ->
  rsi_sums ps (Z.to_nat p) = rsi_sums qs (Z.to_nat p).
Proof.
  intros Hp Hf. unfold rsi_sums. apply loop_pure_ext. intros j x Hj.
  unfold rsi_step, price_change.
  rewrite (price_firstn ps qs (Z.to_nat (p + 1)) (j - 1)) by (assumption || lia).
  rewrite (price_firstn ps qs (Z.to_nat (p + 1)) j) by (assumption || lia).
  reflexivity.
Qed.

(** Sums over one repeated integer. *)
Lemma sum_loop_uniform (ps : list double) (n : Z) (k : nat) :
  1 <= n -> n * Z.of_nat k < 2 ^ 53 ->
  (forall i, 0 <= i < Z.of_nat k -> price ps i = of_int n) ->
  loop_pure k 0 (fun i acc => fadd acc (price ps i)) (S754_zero false)
  = of_int (n * Z.of_nat k).
Proof.
  intros Hn. induction k as [|k IH]; intros Hb Hu.
  - rewrite Z.mul_0_r. reflexivity.
  - rewrite sum_first_S, IH, Hu by (try (intros; apply Hu); lia).
    rewrite fadd_of_int by nia. f_equal. lia.
Qed.

Lemma fsub_self (x : double) : is_finite x = true -> fsub x x = S754_zero false.
Proof.
  destruct x as [s|s| |s m e]; try discriminate; intros _.
  - destruct s; reflexivity.
  - unfold fsub, SFsub. rewrite Z.sub_diag. reflexivity.
Qed.

Lemma sq_dev_loop_zero (ps : list double) (c mean : double) (k : nat) :
  is_finite c = true -> mean = c ->
  (forall i, 0 <= i < Z.of_nat k -> price ps i = c) ->
  loop_pure k 0 (fun i acc => fadd acc (pow2 (fsub (price ps i) mean))) (of_int 0)
  = S754_zero false.
Proof.
  intros Hc ->. induction k as [|k IH]; intro Hu; [reflexivity|].
  rewrite loop_pure_snoc, IH, Hu by (try (intros; apply Hu); lia).
  rewrite fsub_self by assumption. reflexivity.
Qed.

Lemma band_of_zero_deviation (x m : double) (u : bool) :
  is_finite x = true -> x <> S754_zero true -> is_finite m = true ->
  (if u then fadd x (fmul m (S754_zero false))
   else fsub x (fmul m (S754_zero false))) = x.
Proof.
  destruct x as [s|s| |s mx e]; try discriminate;
  destruct m as [sm|sm| |sm mm em]; try discriminate; intros _ Hx _.
  - destruct s; [congruence|]. destruct u, sm; reflexivity.
  - destruct s; [congruence|]. destruct u, sm; reflexivity.
  - destruct u, sm; reflexivity.
  - destruct u, sm; reflexivity.
Qed.

Lemma of_int_finite (n : Z) : 1 <= n < 2 ^ 53 ->
  is_finite (of_int n) = true /\ of_int n <> S754_zero true.
Proof.
  intro H. destruct (of_int_positive n H) as (m & e & -> & _).
  split; [reflexivity | discriminate].
Qed.

(** ** Periods that are positive, negative, zero, one *)

(** X1.  For periods that are positive [int]s every indicator returns a
    value on every series, the empty one included: no call reads outside the
    vector and none throws.  The values are those of the pure views, the
    sentinel where the series is too short. *)
Theorem indicators_defined_for_positive_periods (a : TimeSeriesAnalyzer)
    (period shortPeriod longPeriod : Z) (multiplier : double) (upper : bool) :
  1 <= period < INT_MAX ->
  1 <= shortPeriod <= INT_MAX -> 1 <= longPeriod <= INT_MAX ->
  calculateSMA period a = (Ret (sma_result a period), a) /\
  calculateEMA period a = (Ret (ema_result a period), a) /\
  calculateWMA period a = (Ret (wma_result a period), a) /\
  calculateStandardDeviation period a = (Ret (sd_result a period), a) /\
  calculateBollingerBands period multiplier upper a
  = (Ret (band_result a period multiplier upper), a) /\
  detectTrend shortPeriod longPeriod a
  = (Ret (trend_result a shortPeriod longPeriod), a) /\
  calculateRSI period a = (Ret (rsi_result a period), a).
Proof.
  intros Hp Hs Hl. repeat split.
  - apply calculateSMA_result; lia.
  - apply calculateEMA_result; lia.
  - apply calculateWMA_result; lia.
  - apply calculateStandardDeviation_result; lia.
  - apply calculateBollingerBands_result; lia.
  - apply detectTrend_result; lia.
  - apply calculateRSI_result; lia.
Qed.

Lemma indicators_defined_for_positive_periods_witness :
  (1 <= 3 < INT_MAX /\ 1 <= 2 <= INT_MAX /\ 1 <= 4 <= INT_MAX) /\
  calculateSMA 3 empty_series = (Ret (sma_result empty_series 3), empty_series) /\
  calculateEMA 3 empty_series = (Ret (ema_result empty_series 3), empty_series) /\
  calculateWMA 3 empty_series = (Ret (wma_result empty_series 3), empty_series) /\
  calculateStandardDeviation 3 empty_series
  = (Ret (sd_result empty_series 3), empty_series) /\
  calculateBollingerBands 3 (of_int 2) true empty_series
  = (Ret (band_result empty_series 3 (of_int 2) true), empty_series) /\
  detectTrend 2 4 empty_series = (Ret (trend_result empty_series 2 4), empty_series) /\
  calculateRSI 3 empty_series = (Ret (rsi_result empty_series 3), empty_series).
Proof.
  assert (H1 : 1 <= 3 < INT_MAX) by (split; vm_compute; congruence).
  assert (H2 : 1 <= 2 <= INT_MAX) by (split; vm_compute; congruence).
  assert (H3 : 1 <= 4 <= INT_MAX) by (split; vm_compute; congruence).
  split; [auto|].
  exact (indicators_defined_for_positive_periods empty_series 3 2 4 (of_int 2) true
           H1 H2 H3).
Defined.

(** X2.  A negative period converts to a [size_t] beyond any vector, so it
    is treated as insufficient data: SMA, EMA, WMA, the standard deviation
    and the bands (finite multiplier) return 0, and the classifier with a
    negative [longPeriod] answers "Insufficient data".  RSI returns 0 for a
    period below -1; for -1 its guard compares with 0, its loop does not run,
    and it returns the NaN of [-0 / -0]. *)
Theorem negative_period_is_insufficient (a : TimeSeriesAnalyzer)
    (period shortPeriod : Z) (multiplier : double) (upper : bool) :
  INT_MIN <= period < 0 -> size a < 2 ^ 63 -> is_finite multiplier = true ->
  calculateSMA period a = (Ret (of_int 0), a) /\
  calculateEMA period a = (Ret (of_int 0), a) /\
  calculateWMA period a = (Ret (of_int 0), a) /\
  calculateStandardDeviation period a = (Ret (of_int 0), a) /\
  calculateBollingerBands period multiplier upper a = (Ret (of_int 0), a) /\
  detectTrend shortPeriod period a = (Ret "Insufficient data"%string, a) /\
  (period < -1 -> calculateRSI period a = (Ret (of_int 0), a)) /\
  (period = -1 -> calculateRSI period a = (Ret S754_nan, a)).
Proof.
  intros Hp Hsz Hm.
  pose proof (guard_negative a period Hp Hsz) as Hg.
  assert (Hsma : calculateSMA period a = (Ret (of_int 0), a)).
  { unfold calculateSMA, bind, prices_size. fold (size a). rewrite Hg. reflexivity. }
  assert (Hsd : calculateStandardDeviation period a = (Ret (of_int 0), a)).
  { unfold calculateStandardDeviation, bind, prices_size. fold (size a).
    rewrite Hg. reflexivity. }
  repeat split.
  - exact Hsma.
  - unfold calculateEMA, bind, prices_size. fold (size a). rewrite Hg. reflexivity.
  - unfold calculateWMA, bind, prices_size. fold (size a). rewrite Hg. reflexivity.
  - exact Hsd.
  - rewrite (calculateBollingerBands_from a period multiplier _ _ upper Hsma Hsd).
    rewrite band_of_zeros by assumption. reflexivity.
  - unfold detectTrend, bind, prices_size. fold (size a). rewrite Hg. reflexivity.
  - intro Hlt. unfold calculateRSI, bind, prices_size. fold (size a).
    rewrite int_add_1_negative by lia.
    rewrite (guard_negative a (period + 1)) by (unfold INT_MIN in *; lia).
    reflexivity.
  - intros ->. unfold calculateRSI, bind at 1, prices_size. fold (size a).
    pose proof (size_nonneg a).
    assert (Hge : (size a <? size_t_of_int (int_add (-1) 1)) = false)
      by (apply Z.ltb_ge; exact H).
    rewrite Hge. reflexivity.
Qed.

Lemma negative_period_is_insufficient_witness :
  (INT_MIN <= -5 < 0 /\ size falling4 < 2 ^ 63 /\ is_finite (of_int 2) = true) /\
  calculateSMA (-5) falling4 = (Ret (of_int 0), falling4) /\
  calculateEMA (-5) falling4 = (Ret (of_int 0), falling4) /\
  calculateWMA (-5) falling4 = (Ret (of_int 0), falling4) /\
  calculateStandardDeviation (-5) falling4 = (Ret (of_int 0), falling4) /\
  calculateBollingerBands (-5) (of_int 2) true falling4 = (Ret (of_int 0), falling4) /\
  detectTrend 2 (-5) falling4 = (Ret "Insufficient data"%string, falling4) /\
  (-5 < -1 -> calculateRSI (-5) falling4 = (Ret (of_int 0), falling4)) /\
  (-5 = -1 -> calculateRSI (-5) falling4 = (Ret S754_nan, falling4)).
Proof.
  assert (H1 : INT_MIN <= -5 < 0) by (split; vm_compute; congruence).
  assert (H2 : size falling4 < 2 ^ 63) by (vm_compute; reflexivity).
  split; [auto|].
  exact (negative_period_is_insufficient falling4 (-5) 2 (of_int 2) true
           H1 H2 eq_refl).
Defined.

(** X3.  Period 0 passes every guard, since no length is below 0.  On every
    series SMA, WMA, the standard deviation and the bands are then the NaN of
    [0 / 0], not the sentinel, and the classifier with [longPeriod = 0]
    answers "Sideways".  EMA(0) reads [prices[0]]: undefined behaviour on the
    empty series, the latest price otherwise.  RSI(0) is the sentinel on the
    empty series and a NaN otherwise. *)
Theorem period_zero_is_not_a_number (a : TimeSeriesAnalyzer) (shortPeriod : Z)
    (multiplier : double) (upper : bool) :
  0 <= shortPeriod <= INT_MAX ->
  calculateSMA 0 a = (Ret S754_nan, a) /\
  calculateWMA 0 a = (Ret S754_nan, a) /\
  calculateStandardDeviation 0 a = (Ret S754_nan, a) /\
  calculateBollingerBands 0 multiplier upper a = (Ret S754_nan, a) /\
  detectTrend shortPeriod 0 a = (Ret "Sideways"%string, a) /\
  (size a = 0 ->
   calculateEMA 0 a = (Undefined, a) /\ calculateRSI 0 a = (Ret (of_int 0), a)) /\
  (1 <= size a ->
   calculateEMA 0 a = (Ret (price (prices a) 0), a) /\
   calculateRSI 0 a = (Ret S754_nan, a)).
Proof.
  intro Hs. pose proof (size_nonneg a) as Hsz.
  assert (H0 : 0 <= 0 <= size a) by lia.
  assert (HM : 0 <= INT_MAX) by (vm_compute; congruence).
  assert (Hsma : calculateSMA 0 a = (Ret S754_nan, a))
    by (rewrite calculateSMA_value by assumption; reflexivity).
  assert (Hsd : calculateStandardDeviation 0 a = (Ret S754_nan, a))
    by (rewrite calculateStandardDeviation_value by assumption; reflexivity).
  split; [exact Hsma|].
  split; [rewrite calculateWMA_value by assumption; reflexivity|].
  split; [exact Hsd|].
  split.
  { rewrite (calculateBollingerBands_from a 0 multiplier _ _ upper Hsma Hsd).
    destruct upper, multiplier; reflexivity. }
  split.
  { rewrite detectTrend_value by lia.
    assert (Hl : sma_result a 0 = S754_nan).
    { unfold sma_result.
      assert (E : (size a <? 0) = false) by (apply Z.ltb_ge; lia).
      rewrite E. reflexivity. }
    rewrite Hl. unfold trend_label, fgt, flt, SFltb.
    destruct (sma_result a shortPeriod); reflexivity. }
  split.
  - intro Hempty. split.
    + assert (Hread : price_at 0 a = (Undefined, a)).
      { unfold price_at. unfold size in Hempty.
        destruct (prices a); [reflexivity | cbn in Hempty; lia]. }
      unfold calculateEMA, bind at 1, prices_size. fold (size a).
      assert (E : (size a <? size_t_of_int 0) = false) by (apply Z.ltb_ge; exact Hsz).
      rewrite E. unfold bind at 1. rewrite Hread. reflexivity.
    + apply calculateRSI_short. unfold INT_MAX. lia.
  - intro Hne. split.
    + unfold calculateEMA, bind at 1, prices_size. fold (size a).
      assert (E : (size a <? size_t_of_int 0) = false) by (apply Z.ltb_ge; exact Hsz).
      rewrite E. rewrite bind_price_at by lia. reflexivity.
    + rewrite calculateRSI_value; [reflexivity | unfold INT_MAX; lia | lia].
Qed.

Lemma period_zero_is_not_a_number_witness :
  0 <= 2 <= INT_MAX /\
  calculateSMA 0 falling4 = (Ret S754_nan, falling4) /\
  calculateWMA 0 falling4 = (Ret S754_nan, falling4) /\
  calculateStandardDeviation 0 falling4 = (Ret S754_nan, falling4) /\
  calculateBollingerBands 0 (of_int 2) true falling4 = (Ret S754_nan, falling4) /\
  detectTrend 2 0 falling4 = (Ret "Sideways"%string, falling4) /\
  (size falling4 = 0 ->
   calculateEMA 0 falling4 = (Undefined, falling4) /\
   calculateRSI 0 falling4 = (Ret (of_int 0), falling4)) /\
  (1 <= size falling4 ->
   calculateEMA 0 falling4 = (Ret (price (prices falling4) 0), falling4) /\
   calculateRSI 0 falling4 = (Ret S754_nan, falling4)).
Proof.
  assert (H : 0 <= 2 <= INT_MAX) by (split; vm_compute; congruence).
  split; [exact H|].
  exact (period_zero_is_not_a_number falling4 2 (of_int 2) true H).
Defined.

Lemma fadd_zero_finite (x : double) :
  is_finite x = true -> x <> S754_zero true -> fadd (S754_zero false) x = x.
Proof.
  destruct x as [s|s| |s m e]; try discriminate; intros _ Hx; [|reflexivity].
  destruct s; [congruence | reflexivity].
Qed.

(** X4.  With period 1 the averages are the latest price itself: on a
    non-empty series whose first price is a finite double other than [-0],
    SMA(1), EMA(1) and WMA(1) return that price bit for bit, the standard
    deviation is 0, and both bands, for a finite multiplier, are the price. *)
Theorem period_one_returns_latest_price (a : TimeSeriesAnalyzer)
    (multiplier : double) (upper : bool) :
  1 <= size a -> is_double (price (prices a) 0) ->
  is_finite (price (prices a) 0) = true -> price (prices a) 0 <> S754_zero true ->
  is_finite multiplier = true ->
  calculateSMA 1 a = (Ret (price (prices a) 0), a) /\
  calculateEMA 1 a = (Ret (price (prices a) 0), a) /\
  calculateWMA 1 a = (Ret (price (prices a) 0), a) /\
  calculateStandardDeviation 1 a = (Ret (S754_zero false), a) /\
  calculateBollingerBands 1 multiplier upper a = (Ret (price (prices a) 0), a).
Proof.
  intros Hsz Hd Hf Hz Hm.
  assert (HM : 1 < INT_MAX) by (vm_compute; reflexivity).
  set (p0 := price (prices a) 0) in *.
  assert (Hval : sma_value (prices a) 1 = p0).
  { unfold sma_value, sum_first. change (Z.to_nat 1) with 1%nat; cbn [loop_pure].
    fold p0. rewrite fadd_zero_finite, fdiv_one by assumption. reflexivity. }
  assert (Hsma : calculateSMA 1 a = (Ret p0, a)).
  { rewrite calculateSMA_value by lia. rewrite Hval. reflexivity. }
  assert (Hsdv : sd_value (prices a) 1 = S754_zero false).
  { unfold sd_value. rewrite Hval.
    change (Z.to_nat 1) with 1%nat; cbn [loop_pure]. fold p0.
    rewrite fsub_self by assumption. reflexivity. }
  assert (Hsd : calculateStandardDeviation 1 a = (Ret (S754_zero false), a)).
  { rewrite calculateStandardDeviation_value by lia. rewrite Hsdv. reflexivity. }
  split; [exact Hsma|].
  split; [rewrite calculateEMA_value by lia; reflexivity|].
  split.
  { rewrite calculateWMA_value by lia. unfold wma_sums.
    change (Z.to_nat 1) with 1%nat; cbn [loop_pure]. unfold wma_step.
    cbn [fst snd]. fold p0. change (1 - 0) with 1.
    rewrite fmul_one by assumption. rewrite of_int_0, fadd_zero_finite by assumption.
    change (fadd (S754_zero false) (of_int 1)) with (of_int 1).
    rewrite fdiv_one by assumption. reflexivity. }
  split; [exact Hsd|].
  rewrite (calculateBollingerBands_from a 1 multiplier _ _ upper Hsma Hsd).
  rewrite band_of_zero_deviation by assumption. reflexivity.
Qed.

Lemma period_one_returns_latest_price_witness :
  (1 <= size tenths /\ is_double (price (prices tenths) 0) /\
   is_finite (price (prices tenths) 0) = true /\
   price (prices tenths) 0 <> S754_zero true /\ is_finite (of_int 2) = true) /\
  calculateSMA 1 tenths = (Ret (price (prices tenths) 0), tenths) /\
  calculateEMA 1 tenths = (Ret (price (prices tenths) 0), tenths) /\
  calculateWMA 1 tenths = (Ret (price (prices tenths) 0), tenths) /\
  calculateStandardDeviation 1 tenths = (Ret (S754_zero false), tenths) /\
  calculateBollingerBands 1 (of_int 2) true tenths
  = (Ret (price (prices tenths) 0), tenths).
Proof.
  assert (H1 : 1 <= size tenths) by (vm_compute; congruence).
  assert (H2 : is_double (price (prices tenths) 0)) by (vm_compute; reflexivity).
  assert (H3 : is_finite (price (prices tenths) 0) = true) by (vm_compute; reflexivity).
  assert (H4 : price (prices tenths) 0 <> S754_zero true) by (vm_compute; discriminate).
  assert (H5 : is_finite (of_int 2) = true) by reflexivity.
  split; [auto 6|].
  exact (period_one_returns_latest_price tenths (of_int 2) true H1 H2 H3 H4 H5).
Defined.

(** ** Windows of one price, and what a window is *)

Lemma trend_label_same (x : double) : trend_label x x = "Sideways"%string.
Proof.
  unfold trend_label. change (fgt x x) with (flt x x).
  rewrite flt_irrefl. reflexivity.
Qed.

Lemma sma_value_uniform (ps : list double) (p n : Z) :
  1 <= p -> 1 <= n -> n * p < 2 ^ 53 -> uniform ps p (of_int n) ->
  sma_value ps p = of_int n.
Proof.
  intros Hp Hn Hb Hu. unfold sma_value, sum_first.
  rewrite (sum_loop_uniform ps n (Z.to_nat p)); try assumption.
  - rewrite Z2Nat.id by lia. apply fdiv_of_int; assumption.
  - rewrite Z2Nat.id by lia. assumption.
  - intros i Hi. apply Hu. lia.
Qed.

(** X5.  On a window of one repeated positive integer price [n], with
    [n * period < 2^53], nothing rounds: SMA is [n], the standard deviation
    is 0, both bands (finite multiplier) are [n], and the classifier answers
    "Sideways" for every short period inside the window. *)
Theorem uniform_integer_window (a : TimeSeriesAnalyzer) (period n : Z)
    (multiplier : double) (upper : bool) :
  1 <= period <= INT_MAX -> period <= size a ->
  1 <= n -> n * period < 2 ^ 53 ->
  uniform (prices a) period (of_int n) -> is_finite multiplier = true ->
  calculateSMA period a = (Ret (of_int n), a) /\
  calculateStandardDeviation period a = (Ret (S754_zero false), a) /\
  calculateBollingerBands period multiplier upper a = (Ret (of_int n), a) /\
  forall shortPeriod, 1 <= shortPeriod <= period ->
    detectTrend shortPeriod period a = (Ret "Sideways"%string, a).
Proof.
  intros Hp Hsz Hn Hb Hu Hm.
  pose proof (sma_value_uniform (prices a) period n ltac:(lia) Hn Hb Hu) as Hval.
  destruct (of_int_finite n ltac:(nia)) as [Hfin Hnz].
  assert (Hsma : calculateSMA period a = (Ret (of_int n), a)).
  { rewrite calculateSMA_value by lia. rewrite Hval. reflexivity. }
  assert (Hsd : calculateStandardDeviation period a = (Ret (S754_zero false), a)).
  { rewrite calculateStandardDeviation_value by lia. unfold sd_value.
    rewrite (sq_dev_loop_zero (prices a) (of_int n)); try assumption.
    - destruct (of_int_positive period) as (m & e & -> & _);
        [pose proof (int_range_2_53 period); lia | reflexivity].
    - intros i Hi. apply Hu. lia. }
  split; [exact Hsma|]. split; [exact Hsd|]. split.
  - rewrite (calculateBollingerBands_from a period multiplier _ _ upper Hsma Hsd).
    rewrite band_of_zero_deviation by assumption. reflexivity.
  - intros s Hs. rewrite detectTrend_value by lia. unfold sma_result.
    assert (E1 : (size a <? s) = false) by (apply Z.ltb_ge; lia).
    assert (E2 : (size a <? period) = false) by (apply Z.ltb_ge; lia).
    rewrite E1, E2, Hval.
    rewrite (sma_value_uniform (prices a) s n); try lia; try nia.
    + rewrite trend_label_same. reflexivity.
    + intros i Hi. apply Hu. lia.
Qed.

Lemma uniform_integer_window_witness :
  (1 <= 4 <= INT_MAX /\ 4 <= size sevens /\ 1 <= 7 /\ 7 * 4 < 2 ^ 53 /\
   uniform (prices sevens) 4 (of_int 7) /\ is_finite (of_int 2) = true) /\
  calculateSMA 4 sevens = (Ret (of_int 7), sevens) /\
  calculateStandardDeviation 4 sevens = (Ret (S754_zero false), sevens) /\
  calculateBollingerBands 4 (of_int 2) true sevens = (Ret (of_int 7), sevens) /\
  forall shortPeriod, 1 <= shortPeriod <= 4 ->
    detectTrend shortPeriod 4 sevens = (Ret "Sideways"%string, sevens).
Proof.
  assert (H1 : 1 <= 4 <= INT_MAX) by (split; vm_compute; congruence).
  assert (H2 : 4 <= size sevens) by (vm_compute; congruence).
  assert (H3 : 1 <= 7) by (vm_compute; congruence).
  assert (H4 : 7 * 4 < 2 ^ 53) by (vm_compute; reflexivity).
  assert (H5 : uniform (prices sevens) 4 (of_int 7)).
  { intros i Hi.
    assert (Hc : i = 0 \/ i = 1 \/ i = 2 \/ i = 3) by lia.
    destruct Hc as [-> | [-> | [-> | ->]]]; reflexivity. }
  split; [auto 7|].
  exact (uniform_integer_window sevens 4 7 (of_int 2) true H1 H2 H3 H4 H5 eq_refl).
Defined.

(** X6.  SMA, WMA, the standard deviation and the bands of a period read
    the first [period] prices and nothing else: two series that agree there
    give the same results, whatever older points follow. *)
Theorem averages_read_only_their_window (a b : TimeSeriesAnalyzer) (period : Z)
    (multiplier : double) (upper : bool) :
  0 <= period <= INT_MAX -> period <= size a -> period <= size b ->
  firstn (Z.to_nat period) (prices a) = firstn (Z.to_nat period) (prices b) ->
  fst (calculateSMA period a) = fst (calculateSMA period b) /\
  fst (calculateWMA period a) = fst (calculateWMA period b) /\
  fst (calculateStandardDeviation period a)
  = fst (calculateStandardDeviation period b) /\
  fst (calculateBollingerBands period multiplier upper a)
  = fst (calculateBollingerBands period multiplier upper b).
Proof.
  intros Hp Ha Hb Hf.
  pose proof (calculateSMA_value a period ltac:(lia) ltac:(lia)) as Sa.
  pose proof (calculateSMA_value b period ltac:(lia) ltac:(lia)) as Sb.
  pose proof (calculateStandardDeviation_value a period ltac:(lia) ltac:(lia)) as Da.
  pose proof (calculateStandardDeviation_value b period ltac:(lia) ltac:(lia)) as Db.
  assert (Hs : sma_value (prices a) period = sma_value (prices b) period).
  { unfold sma_value. rewrite (sum_first_prefix _ _ period ltac:(lia) Hf). reflexivity. }
  assert (Hd : sd_value (prices a) period = sd_value (prices b) period)
    by (apply sd_value_prefix; [lia | assumption]).
  repeat split.
  - rewrite Sa, Sb, Hs. reflexivity.
  - rewrite !calculateWMA_value by lia. cbn [fst].
    rewrite (wma_sums_prefix _ _ period ltac:(lia) Hf). reflexivity.
  - rewrite Da, Db, Hd. reflexivity.
  - rewrite (calculateBollingerBands_from a period multiplier _ _ upper Sa Da).
    rewrite (calculateBollingerBands_from b period multiplier _ _ upper Sb Db).
    rewrite Hs, Hd. reflexivity.
Qed.

Lemma averages_read_only_their_window_witness :
  (0 <= 2 <= INT_MAX /\ 2 <= size gaining4 /\ 2 <= size falling4 /\
   firstn (Z.to_nat 2) (prices gaining4) = firstn (Z.to_nat 2) (prices falling4)) /\
  fst (calculateSMA 2 gaining4) = fst (calculateSMA 2 falling4) /\
  fst (calculateWMA 2 gaining4) = fst (calculateWMA 2 falling4) /\
  fst (calculateStandardDeviation 2 gaining4)
  = fst (calculateStandardDeviation 2 falling4) /\
  fst (calculateBollingerBands 2 (of_int 2) true gaining4)
  = fst (calculateBollingerBands 2 (of_int 2) true falling4).
Proof.
  assert (H1 : 0 <= 2 <= INT_MAX) by (split; vm_compute; congruence).
  assert (H2 : 2 <= size gaining4) by (vm_compute; congruence).
  assert (H3 : 2 <= size falling4) by (vm_compute; congruence).
  assert (H4 : firstn (Z.to_nat 2) (prices gaining4)
               = firstn (Z.to_nat 2) (prices falling4)) by reflexivity.
  split; [auto|].
  exact (averages_read_only_their_window gaining4 falling4 2 (of_int 2) true
           H1 H2 H3 H4).
Defined.

(** X7.  RSI of a period reads the first [period + 1] prices and nothing
    else. *)
Theorem calculateRSI_reads_only_its_window (a b : TimeSeriesAnalyzer) (period : Z) :
  0 <= period < INT_MAX -> period + 1 <= size a -> period + 1 <= size b ->
  firstn (Z.to_nat (period + 1)) (prices a)
  = firstn (Z.to_nat (period + 1)) (prices b) ->
  fst (calculateRSI period a) = fst (calculateRSI period b).
Proof.
  intros Hp Ha Hb Hf. rewrite !calculateRSI_value by lia. cbn [fst].
  rewrite (rsi_sums_prefix _ _ period ltac:(lia) Hf). reflexivity.
Qed.

Lemma calculateRSI_reads_only_its_window_witness :
  (0 <= 1 < INT_MAX /\ 1 + 1 <= size gaining4 /\ 1 + 1 <= size falling4 /\
   firstn (Z.to_nat (1 + 1)) (prices gaining4)
   = firstn (Z.to_nat (1 + 1)) (prices falling4)) /\
  fst (calculateRSI 1 gaining4) = fst (calculateRSI 1 falling4).
Proof.
  assert (H1 : 0 <= 1 < INT_MAX) by (split; vm_compute; congruence).
  assert (H2 : 1 + 1 <= size gaining4) by (vm_compute; congruence).
  assert (H3 : 1 + 1 <= size falling4) by (vm_compute; congruence).
  assert (H4 : firstn (Z.to_nat (1 + 1)) (prices gaining4)
               = firstn (Z.to_nat (1 + 1)) (prices falling4)) by reflexivity.
  split; [auto|].
  exact (calculateRSI_reads_only_its_window gaining4 falling4 1 H1 H2 H3 H4).
Defined.

(** X8.  With the same period twice the classifier compares a value with
    itself and never answers "Uptrend" or "Downtrend": it answers
    "Insufficient data" on a series shorter than the period and "Sideways"
    otherwise, whatever the prices, NaN included. *)
Theorem detectTrend_same_periods (a : TimeSeriesAnalyzer) (period : Z) :
  0 <= period <= INT_MAX ->
  detectTrend period period a
  = (Ret (if size a <? period then "Insufficient data"%string
          else "Sideways"%string), a).
Proof.
  intro Hp. rewrite detectTrend_result by assumption. unfold trend_result.
  destruct (size a <? period); [reflexivity|].
  rewrite trend_label_same. reflexivity.
Qed.

Lemma detectTrend_same_periods_witness :
  0 <= 3 <= INT_MAX /\
  detectTrend 3 3 falling4
  = (Ret (if size falling4 <? 3 then "Insufficient data"%string
          else "Sideways"%string),
     falling4).
Proof.
  assert (H : 0 <= 3 <= INT_MAX) by (split; vm_compute; congruence).
  split; [exact H|]. exact (detectTrend_same_periods falling4 3 H).
Defined.

(** ** RSI at its other ends *)

Lemma rsi_sums_losing (ps : list double) (n : nat) :
  (forall i, 1 <= i <= Z.of_nat n ->
     is_negative (price_change ps i) = true
     /\ at_least 1 (SFopp (price_change ps i))) ->
  Z.of_nat n <= 2 ^ 53 ->
  exists l, rsi_sums ps n = (S754_zero false, l)
            /\ (n = O -> l = S754_zero false)
            /\ ((1 <= n)%nat -> at_least (Z.of_nat n) l).
Proof.
  induction n as [|n IH]; intros Hc Hb.
  - exists (S754_zero false). split; [reflexivity|]. split; [reflexivity | lia].
  - destruct IH as (l & Hl & Hl0 & Hln); [intros i Hi; apply Hc; lia | lia |].
    rewrite rsi_sums_S, Hl. unfold rsi_step. cbn [fst snd].
    destruct (Hc (Z.of_nat (S n)) ltac:(lia)) as [Hneg Hc1].
    unfold is_negative in Hneg. rewrite (flt_asym _ _ Hneg).
    rewrite fsub_fadd_opp.
    exists (fadd l (SFopp (price_change ps (Z.of_nat (S n))))).
    split; [reflexivity|]. split; [discriminate|]. intros _.
    destruct n as [|n].
    + rewrite (Hl0 eq_refl). rewrite fadd_zero_l by exact Hc1. exact Hc1.
    + apply (at_least_weaken (Z.of_nat (S n) + 1)); [lia|].
      apply fadd_at_least; [apply Hln; lia | exact Hc1 | lia].
Qed.

Lemma rsi_formula_losing (l : double) (p : Z) :
  1 <= p < 2 ^ 53 -> at_least p l ->
  rsi_formula (S754_zero false) l p = S754_zero false.
Proof.
  intros Hp Hl. unfold rsi_formula.
  pose proof (fdiv_of_int_at_least p l Hp Hl) as Havg.
  destruct (of_int_positive p Hp) as (m & e & Ep & _).
  rewrite Ep in *. rewrite of_int_1, of_int_100.
  destruct (fdiv l (S754_finite false m e)) as [s|[|]| |[|] ml el];
    cbn [at_least] in Havg; try tauto; reflexivity.
Qed.

Lemma rsi_sums_flat (ps : list double) (n : nat) :
  (forall i, 1 <= i <= Z.of_nat n -> price_change ps i = S754_zero false) ->
  rsi_sums ps n = (S754_zero false, S754_zero false).
Proof.
  induction n as [|n IH]; intro Hc; [reflexivity|].
  rewrite rsi_sums_S, IH by (intros i Hi; apply Hc; lia).
  unfold rsi_step. rewrite Hc by lia. reflexivity.
Qed.

(** X9.  On a series of doubles with at least [period + 1] points whose
    [period] changes are all losses, the gain stays zero and RSI(period)
    returns exactly 0. *)
Theorem calculateRSI_all_losing (a : TimeSeriesAnalyzer) (period : Z) :
  Forall is_double (prices a) ->
  1 <= period < INT_MAX -> period + 1 <= size a ->
  all_losing (prices a) period ->
  calculateRSI period a = (Ret (S754_zero false), a).
Proof.
  intros Hd Hp Hsz Hloss. rewrite calculateRSI_value by lia.
  pose proof (int_range_2_53 period ltac:(lia)) as H53.
  destruct (rsi_sums_losing (prices a) (Z.to_nat period)) as (l & -> & _ & Hl).
  - intros i Hi. split; [apply Hloss; lia|].
    unfold price_change. apply fsub_negative_at_least.
    + apply double_prices; assumption.
    + apply double_prices; assumption.
    + apply Hloss. lia.
  - lia.
  - cbn [fst snd]. rewrite rsi_formula_losing; [reflexivity | lia |].
    rewrite <- (Z2Nat.id period) at 1 by lia. apply Hl. lia.
Qed.

Lemma calculateRSI_all_losing_witness :
  (Forall is_double (prices losing4) /\ 1 <= 3 < INT_MAX /\
   3 + 1 <= size losing4 /\ all_losing (prices losing4) 3) /\
  calculateRSI 3 losing4 = (Ret (S754_zero false), losing4).
Proof.
  assert (H : Forall is_double (prices losing4)) by (repeat constructor).
  assert (H1 : 1 <= 3 < INT_MAX) by (split; vm_compute; congruence).
  assert (H2 : 3 + 1 <= size losing4) by (vm_compute; congruence).
  assert (H3 : all_losing (prices losing4) 3).
  { intros i Hi.
    assert (Hc : i = 1 \/ i = 2 \/ i = 3) by lia.
    destruct Hc as [-> | [-> | ->]]; vm_compute; reflexivity. }
  split; [auto|]. exact (calculateRSI_all_losing losing4 3 H H1 H2 H3).
Defined.

(** X10.  On [period + 1] copies of one finite price there is neither gain
    nor loss, the ratio is [0 / 0], and RSI(period) returns NaN, not 50 and
    not a fault. *)
Theorem calculateRSI_flat_is_nan (a : TimeSeriesAnalyzer) (period : Z) (c : double) :
  1 <= period < INT_MAX -> period + 1 <= size a ->
  is_finite c = true -> uniform (prices a) (period + 1) c ->
  calculateRSI period a = (Ret S754_nan, a).
Proof.
  intros Hp Hsz Hc Hu. rewrite calculateRSI_value by lia.
  rewrite rsi_sums_flat.
  - cbn [fst snd]. unfold rsi_formula.
    destruct (of_int_positive period) as (m & e & -> & _);
      [pose proof (int_range_2_53 period); lia | reflexivity].
  - intros i Hi. unfold price_change.
    rewrite !Hu by lia. apply fsub_self. exact Hc.
Qed.

Lemma calculateRSI_flat_is_nan_witness :
  (1 <= 3 < INT_MAX /\ 3 + 1 <= size sevens /\ is_finite (of_int 7) = true /\
   uniform (prices sevens) (3 + 1) (of_int 7)) /\
  calculateRSI 3 sevens = (Ret S754_nan, sevens).
Proof.
  assert (H1 : 1 <= 3 < INT_MAX) by (split; vm_compute; congruence).
  assert (H2 : 3 + 1 <= size sevens) by (vm_compute; congruence).
  assert (H3 : uniform (prices sevens) (3 + 1) (of_int 7)).
  { intros i Hi.
    assert (Hc : i = 0 \/ i = 1 \/ i = 2 \/ i = 3) by lia.
    destruct Hc as [-> | [-> | [-> | ->]]]; reflexivity. }
  split; [auto|]. exact (calculateRSI_flat_is_nan sevens 3 (of_int 7) H1 H2 eq_refl H3).
Defined.

(** ** Signs *)

(** X11.  The standard deviation is never below zero: for every period an
    [int] can hold from 0 up and every series, with NaN and infinite prices
    allowed, [calculateStandardDeviation] returns a value that does not
    compare less than 0. *)
Theorem calculateStandardDeviation_not_negative (a : TimeSeriesAnalyzer) (period : Z) :
  0 <= period <= INT_MAX ->
  exists v, calculateStandardDeviation period a = (Ret v, a)
            /\ is_negative v = false.
Proof.
  intro Hp. exists (sd_result a period).
  split; [apply calculateStandardDeviation_result; assumption|].
  unfold sd_result. destruct (size a <? period); [reflexivity|].
  unfold sd_value. apply fsqrt_not_negative.
Qed.

Lemma calculateStandardDeviation_not_negative_witness :
  0 <= 3 <= INT_MAX /\
  exists v, calculateStandardDeviation 3 band3 = (Ret v, band3)
            /\ is_negative v = false.
Proof.
  assert (H : 0 <= 3 <= INT_MAX) by (split; vm_compute; congruence).
  split; [exact H|]. exact (calculateStandardDeviation_not_negative band3 3 H).
Defined.

Lemma sum_loop_sign (ps : list double) (n : nat) :
  Forall nonneg_price ps ->
  has_sign false (loop_pure n 0 (fun i acc => fadd acc (price ps i)) (S754_zero false)).
Proof.
  intro Hf.
  assert (Hp : forall i, nonneg_price (price ps i)).
  { intro i. unfold price.
    destruct (Nat.lt_ge_cases (Z.to_nat i) (List.length ps)) as [Hlt|Hge].
    - rewrite Forall_forall in Hf. apply Hf. apply nth_In. exact Hlt.
    - rewrite nth_overflow by exact Hge. split; reflexivity. }
  induction n as [|n IH]; [reflexivity|].
  rewrite sum_first_S. destruct (Hp (Z.of_nat n)) as [Hfin Hs].
  apply fadd_sign; assumption.
Qed.

(** X12.  When every price is finite and not below zero, SMA of a positive
    period is neither NaN nor negative (it may be [+inf] when the sum
    overflows). *)
Theorem calculateSMA_sign (a : TimeSeriesAnalyzer) (period : Z) :
  Forall nonneg_price (prices a) -> 1 <= period <= INT_MAX ->
  exists v, calculateSMA period a = (Ret v, a) /\ has_sign false v.
Proof.
  intros Hf Hp. exists (sma_result a period).
  split; [apply calculateSMA_result; lia|].
  unfold sma_result. destruct (size a <? period); [reflexivity|].
  unfold sma_value, sum_first.
  destruct (of_int_positive period) as (m & e & -> & _);
    [pose proof (int_range_2_53 period); lia|].
  apply fdiv_sign. apply sum_loop_sign. exact Hf.
Qed.

Lemma calculateSMA_sign_witness :
  (Forall nonneg_price (prices tenths) /\ 1 <= 2 <= INT_MAX) /\
  exists v, calculateSMA 2 tenths = (Ret v, tenths) /\ has_sign false v.
Proof.
  assert (H : Forall nonneg_price (prices tenths))
    by (repeat constructor).
  assert (H1 : 1 <= 2 <= INT_MAX) by (split; vm_compute; congruence).
  split; [auto|]. exact (calculateSMA_sign tenths 2 H H1).
Defined.

(** ** The parser on any payload *)

Section ParserInvariants.
Variable stod : string -> stod_result.
Variable to_millis : string -> Z.

Lemma parseData_cleared (es : list entry) (a : TimeSeriesAnalyzer) :
  parseData stod to_millis (TimeSeries es) a
  = parse_entries stod to_millis es (with_vectors a [] []).
Proof. reflexivity. Qed.

(** Every payload is convertible throughout, or has a first entry that is
    not. *)
Lemma entries_split (es : list entry) :
  (exists vs, Forall2 (fun e v => entry_price stod e = inr v) es vs) \/
  (exists pre bad post vs x,
     es = pre ++ bad :: post
     /\ Forall2 (fun e v => entry_price stod e = inr v) pre vs
     /\ entry_price stod bad = inl x).
Proof.
  induction es as [|e es IH].
  - left. exists []. constructor.
  - destruct (entry_price stod e) as [x|v] eqn:He.
    + right. exists [], e, es, [], x. repeat split; [constructor | exact He].
    + destruct IH as [(vs & Hvs) | (pre & bad & post & vs & x & -> & Hpre & Hbad)].
      * left. exists (v :: vs). constructor; assumption.
      * right. exists (e :: pre), bad, post, (v :: vs), x.
        repeat split; [constructor; assumption | exact Hbad].
Qed.

Lemma parseData_shape (es : list entry) (a : TimeSeriesAnalyzer) :
  exists vs pre,
    snd (parseData stod to_millis (TimeSeries es) a)
    = with_vectors a vs (entry_millis to_millis pre)
    /\ List.length vs = List.length pre
    /\ (List.length pre <= List.length es)%nat
    /\ (fst (parseData stod to_millis (TimeSeries es) a) = Ret tt
        /\ List.length pre = List.length es
        \/ exists x, fst (parseData stod to_millis (TimeSeries es) a) = Throw x
                     /\ (List.length pre < List.length es)%nat).
Proof.
  rewrite parseData_cleared.
  destruct (entries_split es) as [(vs & Hvs) | (pre & bad & post & vs & x & -> & Hpre & Hbad)].
  - exists vs, es. rewrite (parse_entries_all stod to_millis es vs) by assumption.
    cbn [fst snd]. repeat split; try lia.
    + symmetry. eapply Forall2_length. eassumption.
    + left. split; reflexivity.
  - exists vs, pre.
    rewrite (parse_entries_failure stod to_millis pre post bad x vs) by assumption.
    cbn [fst snd]. rewrite length_app. cbn [List.length]. repeat split; try lia.
    + symmetry. eapply Forall2_length. eassumption.
    + right. exists x. split; [reflexivity | lia].
Qed.

(** X13.  For text that is not JSON and for a time series object, [parseData]
    keeps what the class relies on: the key, symbol and interval are never
    touched, the two vectors have the same length afterwards when they had
    before, also when an exception cut the loop short; the result is a
    return or an exception, and a return means one point per entry. *)
Theorem parseData_keeps_vectors_aligned (data : payload) (a : TimeSeriesAnalyzer) :
  List.length (prices a) = List.length (timestamps a) ->
  same_config (snd (parseData stod to_millis data a)) a /\
  List.length (prices (snd (parseData stod to_millis data a)))
  = List.length (timestamps (snd (parseData stod to_millis data a))) /\
  fst (parseData stod to_millis data a) <> Undefined /\
  forall es, data = TimeSeries es ->
    (List.length (prices (snd (parseData stod to_millis data a)))
     <= List.length es)%nat /\
    (fst (parseData stod to_millis data a) = Ret tt ->
     List.length (prices (snd (parseData stod to_millis data a))) = List.length es).
Proof.
  intro Ha. destruct data as [|es].
  - cbn. split; [repeat split|]. split; [exact Ha|].
    split; [discriminate|]. intros es H. discriminate.
  - destruct (parseData_shape es a) as (vs & pre & Hs & Hlen & Hle & Hout).
    rewrite Hs. unfold with_vectors, entry_millis.
    cbn [prices timestamps].
    rewrite length_map. split; [repeat split|]. split; [exact Hlen|]. split.
    + destruct Hout as [[-> _] | (x & -> & _)]; discriminate.
    + intros es' E. injection E as <-. split; [lia|]. intro Hr.
      destruct Hout as [[_ H] | (x & Hx & _)]; [lia | congruence].
Qed.

(** A second parse starts from nothing the first left behind. *)
Lemma parseData_from_config (es : list entry) (a b : TimeSeriesAnalyzer) :
  same_config a b ->
  parseData stod to_millis (TimeSeries es) a
  = parseData stod to_millis (TimeSeries es) b.
Proof.
  intros (Hk & Hs & Hi). rewrite !parseData_cleared. unfold with_vectors.
  rewrite Hk, Hs, Hi. reflexivity.
Qed.

(** X14.  A parse of a time series forgets the series held before: two
    objects with the same key, symbol and interval end up equal, with the
    same outcome, whatever their vectors held; so parsing the same payload
    again changes nothing. *)
Theorem parseData_forgets_previous_series (es : list entry)
    (a b : TimeSeriesAnalyzer) :
  same_config a b ->
  parseData stod to_millis (TimeSeries es) a
  = parseData stod to_millis (TimeSeries es) b /\
  parseData stod to_millis (TimeSeries es)
    (snd (parseData stod to_millis (TimeSeries es) a))
  = parseData stod to_millis (TimeSeries es) b.
Proof.
  intro H. split; [apply parseData_from_config; exact H|].
  apply parseData_from_config.
  destruct (parseData_shape es a) as (vs & pre & -> & _).
  destruct H as (Hk & Hs & Hi). unfold same_config, with_vectors.
  cbn [api_key symbol update_interval]. auto.
Qed.

End ParserInvariants.

Lemma parseData_keeps_vectors_aligned_witness :
  List.length (prices flat4) = List.length (timestamps flat4) /\
  same_config
    (snd (parseData sample_stod sample_millis
            (TimeSeries [good_entry; malformed_entry]) flat4)) flat4 /\
  List.length (prices (snd (parseData sample_stod sample_millis
                              (TimeSeries [good_entry; malformed_entry]) flat4)))
  = List.length (timestamps (snd (parseData sample_stod sample_millis
                              (TimeSeries [good_entry; malformed_entry]) flat4))).
Proof.
  assert (H : List.length (prices flat4) = List.length (timestamps flat4))
    by reflexivity.
  split; [exact H|].
  destruct (parseData_keeps_vectors_aligned sample_stod sample_millis
              (TimeSeries [good_entry; malformed_entry]) flat4 H) as (Hc & Hl & _).
  split; [exact Hc | exact Hl].
Defined.

Lemma parseData_forgets_previous_series_witness :
  same_config flat4 falling4 /\
  parseData sample_stod sample_millis (TimeSeries [good_entry]) flat4
  = parseData sample_stod sample_millis (TimeSeries [good_entry]) falling4 /\
  parseData sample_stod sample_millis (TimeSeries [good_entry])
    (snd (parseData sample_stod sample_millis (TimeSeries [good_entry]) flat4))
  = parseData sample_stod sample_millis (TimeSeries [good_entry]) falling4.
Proof.
  assert (H : same_config flat4 falling4) by (repeat split).
  split; [exact H|].
  exact (parseData_forgets_previous_series sample_stod sample_millis
           [good_entry] flat4 falling4 H).
Defined.

(** ** The transfer *)

Lemma length_append (s t : string) :
  String.length (append s t) = (String.length s + String.length t)%nat.
Proof. induction s as [|c s IH]; cbn; [reflexivity | rewrite IH; reflexivity]. Qed.

Lemma substring_whole (s : string) : substring 0 (String.length s) s = s.
Proof. induction s as [|c s IH]; cbn; [reflexivity | rewrite IH; reflexivity]. Qed.

Lemma length_substring (n : nat) (s : string) :
  (n <= String.length s)%nat -> String.length (substring 0 n s) = n.
Proof.
  revert n. induction s as [|c s IH]; intros n Hn.
  - cbn in Hn. assert (n = O) by lia. subst. reflexivity.
  - destruct n as [|n]; [reflexivity|]. cbn in *. rewrite IH by lia. reflexivity.
Qed.

Lemma substring_append (s t : string) :
  substring 0 (String.length s) (append s t) = s.
Proof. induction s as [|c s IH]; cbn; [destruct t; reflexivity | rewrite IH; reflexivity]. Qed.

Lemma append_assoc (s t u : string) :
  append (append s t) u = append s (append t u).
Proof. induction s as [|c s IH]; cbn; [reflexivity | rewrite IH; reflexivity]. Qed.

Lemma append_empty_r (s : string) : append s EmptyString = s.
Proof. induction s as [|c s IH]; cbn; [reflexivity | rewrite IH; reflexivity]. Qed.

Lemma size_t_mul_1 (n : Z) : 0 <= n < 2 ^ 64 -> size_t_mul 1 n = n.
Proof. intro H. unfold size_t_mul. rewrite Z.mul_1_l. apply Z.mod_small. exact H. Qed.

(** X15.  When the buffer holds the [size * nmemb] bytes (the product taken
    on [size_t]), [WriteCallback] returns that count, the output grows by
    exactly that many bytes, and what it held before is still its beginning. *)
Theorem WriteCallback_appends (contents : string) (size nmemb : Z) (output : string) :
  size_t_mul size nmemb <= Z.of_nat (String.length contents) ->
  exists output',
    WriteCallback contents size nmemb output
    = Some (output', (size * nmemb) mod 2 ^ 64)
    /\ Z.of_nat (String.length output')
       = Z.of_nat (String.length output) + (size * nmemb) mod 2 ^ 64
    /\ prefix output output' = true
    /\ (size_t_mul size nmemb = Z.of_nat (String.length contents) ->
        output' = append output contents).
Proof.
  intro H. unfold WriteCallback. cbv zeta.
  assert (H0 : 0 <= size_t_mul size nmemb)
    by (unfold size_t_mul; apply Z.mod_pos_bound; reflexivity).
  destruct (size_t_mul size nmemb <=? Z.of_nat (String.length contents)) eqn:E;
    [|apply Z.leb_gt in E; lia].
  eexists. split; [reflexivity|]. split; [|split].
  - rewrite length_append, length_substring by lia.
    fold (size_t_mul size nmemb). lia.
  - apply prefix_correct. apply substring_append.
  - intro Heq. rewrite Heq, Nat2Z.id, substring_whole. reflexivity.
Qed.

Lemma WriteCallback_appends_witness :
  size_t_mul 1 3 <= Z.of_nat (String.length "abcde") /\
  exists output',
    WriteCallback "abcde" 1 3 "xy" = Some (output', (1 * 3) mod 2 ^ 64)
    /\ Z.of_nat (String.length output')
       = Z.of_nat (String.length "xy") + (1 * 3) mod 2 ^ 64
    /\ prefix "xy" output' = true
    /\ (size_t_mul 1 3 = Z.of_nat (String.length "abcde") ->
        output' = append "xy" "abcde").
Proof.
  assert (H : size_t_mul 1 3 <= Z.of_nat (String.length "abcde"))
    by (vm_compute; congruence).
  split; [exact H|]. exact (WriteCallback_appends "abcde" 1 3 "xy" H).
Defined.

Lemma deliver_all (chunks : list string) (readBuffer : string) :
  Forall (fun c => Z.of_nat (String.length c) < 2 ^ 64) chunks ->
  deliver chunks readBuffer = Some (append readBuffer (body_of chunks)).
Proof.
  intro H. revert readBuffer. induction H as [|c rest Hc _ IH]; intro readBuffer.
  - cbn. rewrite append_empty_r. reflexivity.
  - cbn [deliver body_of fold_right]. unfold WriteCallback. cbv zeta.
    rewrite size_t_mul_1 by lia. rewrite Z.leb_refl, Z.eqb_refl.
    rewrite Nat2Z.id, substring_whole, IH, append_assoc. reflexivity.
Qed.

(** X16.  [fetchData] returns the chunks of the body put end to end, in
    order, whatever result code the transfer ended with, and the empty
    string when no handle could be made; it leaves the object as it was. *)
Theorem fetchData_returns_body (net : curl_env) (a : TimeSeriesAnalyzer) :
  short_chunks net a ->
  fetchData net a = (Ret (fetched net a), a) /\
  (curl_easy_init net = false -> fetched net a = EmptyString) /\
  (curl_easy_init net = true ->
   fetched net a
   = body_of (fst (curl_easy_perform net (query_url (symbol a) (api_key a))))).
Proof.
  intro H. unfold fetchData, fetched. destruct (curl_easy_init net).
  - rewrite deliver_all by exact H. repeat split. discriminate.
  - repeat split. discriminate.
Qed.

Lemma fetchData_returns_body_witness :
  short_chunks sample_net flat4 /\
  fetchData sample_net flat4 = (Ret (fetched sample_net flat4), flat4) /\
  (curl_easy_init sample_net = false -> fetched sample_net flat4 = EmptyString) /\
  (curl_easy_init sample_net = true ->
   fetched sample_net flat4
   = body_of (fst (curl_easy_perform sample_net
                     (query_url (symbol flat4) (api_key flat4))))).
Proof.
  assert (H : short_chunks sample_net flat4) by (repeat constructor).
  split; [exact H|]. exact (fetchData_returns_body sample_net flat4 H).
Defined.

(** ** The polling loop *)

Lemma io_bind_lift {A B} (m : M A) (k : A -> IO B) (a : TimeSeriesAnalyzer)
    (tr : list event) (v : A) (a' : TimeSeriesAnalyzer) :
  m a = (Ret v, a') ->
  io_bind (lift m) k (mkProcess a tr) = k v (mkProcess a' tr).
Proof. intro H. unfold io_bind, lift. cbn [object trace]. rewrite H. reflexivity. Qed.

Lemma io_bind_lift_throw {A B} (m : M A) (k : A -> IO B) (a : TimeSeriesAnalyzer)
    (tr : list event) (x : exn) (a' : TimeSeriesAnalyzer) :
  m a = (Throw x, a') ->
  io_bind (lift m) k (mkProcess a tr) = (Throw x, mkProcess a' tr).
Proof. intro H. unfold io_bind, lift. cbn [object trace]. rewrite H. reflexivity. Qed.

Lemma io_bind_lift_undefined {A B} (m : M A) (k : A -> IO B) (a : TimeSeriesAnalyzer)
    (tr : list event) (a' : TimeSeriesAnalyzer) :
  m a = (Undefined, a') ->
  io_bind (lift m) k (mkProcess a tr) = (Undefined, mkProcess a' tr).
Proof. intro H. unfold io_bind, lift. cbn [object trace]. rewrite H. reflexivity. Qed.

Lemma io_bind_emit {B} (e : event) (k : unit -> IO B) (a : TimeSeriesAnalyzer)
    (tr : list event) :
  io_bind (emit e) k (mkProcess a tr) = k tt (mkProcess a (tr ++ [e])).
Proof. reflexivity. Qed.

Lemma fetchData_fetched (net : curl_env) (a : TimeSeriesAnalyzer) :
  short_chunks net a -> fetchData net a = (Ret (fetched net a), a).
Proof.
  intro H. unfold fetchData, fetched. destruct (curl_easy_init net); [|reflexivity].
  rewrite deliver_all by exact H. reflexivity.
Qed.

Lemma price_at_empty (a : TimeSeriesAnalyzer) :
  prices a = [] -> price_at 0 a = (Undefined, a).
Proof. intro H. unfold price_at. rewrite H. reflexivity. Qed.

Section PollingFacts.
Variable stod : string -> stod_result.
Variable to_millis : string -> Z.
Variable json_parse : string -> payload.

Lemma run_cycle_throws (net : curl_env) (a a' : TimeSeriesAnalyzer)
    (tr : list event) (x : exn) :
  short_chunks net a ->
  parsed stod to_millis json_parse net a = (Throw x, a') ->
  run_cycle stod to_millis json_parse net (mkProcess a tr)
  = (Throw x, mkProcess a' tr).
Proof.
  intros Hc Hp. unfold run_cycle.
  rewrite (io_bind_lift (fetchData net) _ a tr _ a (fetchData_fetched net a Hc)).
  apply (io_bind_lift_throw (parseData stod to_millis (json_parse (fetched net a)))).
  exact Hp.
Qed.

Lemma run_cycle_empty (net : curl_env) (a a' : TimeSeriesAnalyzer)
    (tr : list event) :
  short_chunks net a ->
  parsed stod to_millis json_parse net a = (Ret tt, a') -> prices a' = [] ->
  fst (run_cycle stod to_millis json_parse net (mkProcess a tr)) = Undefined.
Proof.
  intros Hc Hp He. unfold run_cycle.
  rewrite (io_bind_lift (fetchData net) _ a tr _ a (fetchData_fetched net a Hc)).
  rewrite (io_bind_lift (parseData stod to_millis (json_parse (fetched net a)))
             _ a tr tt a' Hp).
  rewrite (io_bind_lift get_symbol _ a' tr (symbol a') a' eq_refl).
  rewrite !io_bind_emit.
  rewrite (io_bind_lift_undefined (price_at 0) _ a' _ a' (price_at_empty a' He)).
  reflexivity.
Qed.

Lemma run_cycle_reports (net : curl_env) (a a' : TimeSeriesAnalyzer)
    (tr : list event) :
  short_chunks net a ->
  parsed stod to_millis json_parse net a = (Ret tt, a') -> 1 <= size a' ->
  run_cycle stod to_millis json_parse net (mkProcess a tr)
  = (Ret tt, mkProcess a' (tr ++ report a')).
Proof.
  intros Hc Hp Hs. unfold run_cycle.
  assert (H5 : 1 <= 5 < INT_MAX) by (split; vm_compute; congruence).
  assert (H10 : 1 <= 10 < INT_MAX) by (split; vm_compute; congruence).
  assert (H14 : 1 <= 14 < INT_MAX) by (split; vm_compute; congruence).
  assert (H20 : 1 <= 20 < INT_MAX) by (split; vm_compute; congruence).
  assert (H30 : 1 <= 30 < INT_MAX) by (split; vm_compute; congruence).
  rewrite (io_bind_lift (fetchData net) _ a tr _ a (fetchData_fetched net a Hc)).
  rewrite (io_bind_lift (parseData stod to_millis (json_parse (fetched net a)))
             _ a tr tt a' Hp).
  rewrite (io_bind_lift get_symbol _ a' tr (symbol a') a' eq_refl).
  rewrite !io_bind_emit.
  rewrite (io_bind_lift (price_at 0) _ a' _ _ a' (price_at_ok a' 0 ltac:(lia))).
  rewrite !io_bind_emit.
  rewrite (io_bind_lift (calculateSMA 5) _ a' _ _ a'
             (calculateSMA_result a' 5 ltac:(lia))).
  rewrite !io_bind_emit.
  rewrite (io_bind_lift (calculateEMA 10) _ a' _ _ a'
             (calculateEMA_result a' 10 ltac:(lia))).
  rewrite !io_bind_emit.
  rewrite (io_bind_lift (calculateWMA 20) _ a' _ _ a'
             (calculateWMA_result a' 20 ltac:(lia))).
  rewrite !io_bind_emit.
  rewrite (io_bind_lift (calculateStandardDeviation 20) _ a' _ _ a'
             (calculateStandardDeviation_result a' 20 ltac:(lia))).
  rewrite !io_bind_emit.
  rewrite (io_bind_lift (calculateBollingerBands 20 (of_int 2) true) _ a' _ _ a'
             (calculateBollingerBands_result a' 20 (of_int 2) true ltac:(lia))).
  rewrite !io_bind_emit.
  rewrite (io_bind_lift (calculateBollingerBands 20 (of_int 2) false) _ a' _ _ a'
             (calculateBollingerBands_result a' 20 (of_int 2) false ltac:(lia))).
  rewrite !io_bind_emit.
  rewrite (io_bind_lift (detectTrend 10 30) _ a' _ _ a'
             (detectTrend_result a' 10 30 ltac:(lia) ltac:(lia))).
  rewrite !io_bind_emit.
  rewrite (io_bind_lift (calculateRSI 14) _ a' _ _ a'
             (calculateRSI_result a' 14 ltac:(lia))).
  rewrite !io_bind_emit.
  rewrite (io_bind_lift get_update_interval _ a' _ (update_interval a') a' eq_refl).
  rewrite !io_bind_emit.
  unfold emit. cbn [object trace]. unfold report.
  rewrite <- !app_assoc. reflexivity.
Qed.

End PollingFacts.

Section PollingLoop.
Variable stod : string -> stod_result.
Variable to_millis : string -> Z.
Variable json_parse : string -> payload.

Lemma fetched_config (net : curl_env) (a b : TimeSeriesAnalyzer) :
  same_config a b -> fetched net a = fetched net b.
Proof. intros (Hk & Hs & _). unfold fetched. rewrite Hk, Hs. reflexivity. Qed.

Lemma short_chunks_config (net : curl_env) (a b : TimeSeriesAnalyzer) :
  same_config a b -> short_chunks net a -> short_chunks net b.
Proof. intros (Hk & Hs & _). unfold short_chunks. rewrite Hk, Hs. tauto. Qed.

Lemma same_config_sym (a b : TimeSeriesAnalyzer) : same_config a b -> same_config b a.
Proof. unfold same_config. intuition congruence. Qed.

Lemma parsed_series (net : curl_env) (a : TimeSeriesAnalyzer) (es : list entry)
    (vs : list double) :
  json_parse (fetched net a) = TimeSeries es ->
  Forall2 (fun e v => entry_price stod e = inr v) es vs ->
  parsed stod to_millis json_parse net a
  = (Ret tt, with_vectors a vs (entry_millis to_millis es)).
Proof.
  intros Hj Hvs. unfold parsed. rewrite Hj, parseData_cleared.
  rewrite (parse_entries_all stod to_millis es vs) by exact Hvs. reflexivity.
Qed.

Lemma good_cycle_parsed (net : curl_env) (a b : TimeSeriesAnalyzer) :
  good_cycle stod json_parse net a -> same_config b a ->
  parsed stod to_millis json_parse net b
  = (Ret tt, snd (parsed stod to_millis json_parse net a))
  /\ 1 <= size (snd (parsed stod to_millis json_parse net a))
  /\ same_config (snd (parsed stod to_millis json_parse net a)) a.
Proof.
  intros (_ & e & es & vs & Hj & Hvs) Hc.
  rewrite (parsed_series net a (e :: es) vs Hj Hvs).
  rewrite (parsed_series net b (e :: es) vs) by
    (try rewrite (fetched_config net b a Hc); assumption).
  cbn [snd]. destruct Hc as (Hk & Hs & Hi). split; [|split].
  - unfold with_vectors. rewrite Hk, Hs, Hi. reflexivity.
  - unfold size, with_vectors. cbn [prices].
    pose proof (Forall2_length Hvs) as Hl. cbn [List.length] in Hl. lia.
  - repeat split.
Qed.

Lemma run_good (a : TimeSeriesAnalyzer) (nets : list curl_env) :
  Forall (fun net => good_cycle stod json_parse net a) nets ->
  forall (b : TimeSeriesAnalyzer) (tr : list event), same_config b a ->
  run stod to_millis json_parse nets (mkProcess b tr)
  = (Ret tt,
     mkProcess
       (fold_left (fun s net => snd (parsed stod to_millis json_parse net s)) nets b)
       (tr ++ flat_map
                (fun net => report (snd (parsed stod to_millis json_parse net a)))
                nets)).
Proof.
  induction 1 as [|net rest Hg _ IH]; intros b tr Hc.
  - cbn. rewrite app_nil_r. reflexivity.
  - destruct (good_cycle_parsed net a b Hg Hc) as (Hp & Hs & Hc').
    cbn [run fold_left flat_map]. unfold io_bind at 1.
    rewrite (run_cycle_reports stod to_millis json_parse net b _ tr
               (short_chunks_config net a b (same_config_sym b a Hc) (proj1 Hg))
               Hp Hs).
    rewrite Hp. cbn [snd]. rewrite IH by exact Hc'.
    rewrite <- app_assoc. reflexivity.
Qed.

Lemma cycles_keep_config (a : TimeSeriesAnalyzer) (nets : list curl_env) :
  Forall (fun net => good_cycle stod json_parse net a) nets ->
  forall b, same_config b a ->
  same_config
    (fold_left (fun s net => snd (parsed stod to_millis json_parse net s)) nets b) a.
Proof.
  induction 1 as [|n rest Hg _ IH]; intros b Hb; [exact Hb|].
  cbn [fold_left]. apply IH.
  destruct (good_cycle_parsed n a b Hg Hb) as (Hp & _ & Hc'). rewrite Hp. exact Hc'.
Qed.

(** X17.  One turn of the loop on a payload of at least one entry, all
    closes convertible: the object then holds the prices of this payload,
    and the turn wrote one report on them and slept once; it neither threw
    nor read outside the vector, however short the series is. *)
Theorem run_cycle_reports_the_payload (net : curl_env) (a : TimeSeriesAnalyzer)
    (tr : list event) (e : entry) (es : list entry) (vs : list double) :
  short_chunks net a ->
  json_parse (fetched net a) = TimeSeries (e :: es) ->
  Forall2 (fun e v => entry_price stod e = inr v) (e :: es) vs ->
  run_cycle stod to_millis json_parse net (mkProcess a tr)
  = (Ret tt,
     mkProcess (with_vectors a vs (entry_millis to_millis (e :: es)))
       (tr ++ report (with_vectors a vs (entry_millis to_millis (e :: es))))).
Proof.
  intros Hc Hj Hvs. apply run_cycle_reports; [exact Hc | |].
  - apply parsed_series; assumption.
  - unfold size, with_vectors. cbn [prices].
    pose proof (Forall2_length Hvs) as Hl. cbn [List.length] in Hl. lia.
Qed.

(** X18.  A body that parses but holds no time series (no such key, or an
    empty object) leaves the vector empty, and the turn then reads
    [prices[0]] of an empty vector: undefined behaviour, not an error
    message. *)
Theorem run_cycle_without_series_is_undefined (net : curl_env)
    (a : TimeSeriesAnalyzer) (tr : list event) :
  short_chunks net a ->
  json_parse (fetched net a) = TimeSeries [] ->
  fst (run_cycle stod to_millis json_parse net (mkProcess a tr)) = Undefined.
Proof.
  intros Hc Hj.
  apply (run_cycle_empty stod to_millis json_parse net a (with_vectors a [] []) tr Hc).
  - unfold parsed. rewrite Hj. reflexivity.
  - reflexivity.
Qed.

(** X19.  An exception of the parser leaves [run]: nothing is written,
    there is no sleep, and no later turn is made.  The object keeps what the
    parser left in it. *)
Theorem run_stops_at_parser_exception (net : curl_env) (rest : list curl_env)
    (a : TimeSeriesAnalyzer) (tr : list event) (x : exn) :
  short_chunks net a ->
  fst (parsed stod to_millis json_parse net a) = Throw x ->
  run stod to_millis json_parse (net :: rest) (mkProcess a tr)
  = (Throw x, mkProcess (snd (parsed stod to_millis json_parse net a)) tr).
Proof.
  intros Hc Hx. cbn [run]. unfold io_bind at 1.
  rewrite (run_cycle_throws stod to_millis json_parse net a
             (snd (parsed stod to_millis json_parse net a)) tr x Hc).
  - reflexivity.
  - rewrite <- Hx. apply surjective_pairing.
Qed.

(** X20.  While every payload is a series of at least one convertible
    entry, [run] keeps turning: it writes one report per turn, each on the
    prices of that turn's payload alone, and the object holds the series of
    the last payload. *)
Theorem run_reports_every_cycle (a : TimeSeriesAnalyzer) (nets : list curl_env)
    (tr : list event) :
  Forall (fun net => good_cycle stod json_parse net a) nets ->
  run stod to_millis json_parse nets (mkProcess a tr)
  = (Ret tt,
     mkProcess
       (fold_left (fun s net => snd (parsed stod to_millis json_parse net s)) nets a)
       (tr ++ flat_map
                (fun net => report (snd (parsed stod to_millis json_parse net a)))
                nets)) /\
  forall net, In net nets ->
    parsed stod to_millis json_parse net
      (fold_left (fun s net => snd (parsed stod to_millis json_parse net s)) nets a)
    = parsed stod to_millis json_parse net a.
Proof.
  intro H. split; [apply run_good; [exact H | repeat split]|].
  intros net Hin.
  pose proof (cycles_keep_config a nets H a ltac:(repeat split)) as Hc.
  rewrite Forall_forall in H.
  destruct (good_cycle_parsed net a _ (H net Hin) Hc) as (Hp & _).
  rewrite Hp. symmetry.
  destruct (good_cycle_parsed net a a (H net Hin) ltac:(repeat split)) as (Hp' & _).
  rewrite Hp' at 1. reflexivity.
Qed.

End PollingLoop.

Lemma run_cycle_reports_the_payload_witness :
  (short_chunks sample_net (new_analyzer "demo" "IBM" 60) /\
   sample_json_parse (fetched sample_net (new_analyzer "demo" "IBM" 60))
   = TimeSeries [good_entry] /\
   Forall2 (fun e v => entry_price sample_stod e = inr v) [good_entry]
     [fdiv (of_int 203) (of_int 2)]) /\
  run_cycle sample_stod sample_millis sample_json_parse sample_net
    (mkProcess (new_analyzer "demo" "IBM" 60) [])
  = (Ret tt,
     mkProcess
       (with_vectors (new_analyzer "demo" "IBM" 60) [fdiv (of_int 203) (of_int 2)]
          (entry_millis sample_millis [good_entry]))
       ([] ++ report
                (with_vectors (new_analyzer "demo" "IBM" 60)
                   [fdiv (of_int 203) (of_int 2)]
                   (entry_millis sample_millis [good_entry])))).
Proof.
  assert (H1 : short_chunks sample_net (new_analyzer "demo" "IBM" 60))
    by (repeat constructor).
  assert (H2 : sample_json_parse (fetched sample_net (new_analyzer "demo" "IBM" 60))
               = TimeSeries [good_entry]) by reflexivity.
  assert (H3 : Forall2 (fun e v => entry_price sample_stod e = inr v) [good_entry]
                 [fdiv (of_int 203) (of_int 2)])
    by (repeat constructor).
  split; [auto|].
  exact (run_cycle_reports_the_payload sample_stod sample_millis sample_json_parse
           sample_net (new_analyzer "demo" "IBM" 60) [] good_entry []
           [fdiv (of_int 203) (of_int 2)] H1 H2 H3).
Defined.

Lemma run_cycle_without_series_is_undefined_witness :
  (short_chunks note_net (new_analyzer "demo" "IBM" 60) /\
   sample_json_parse (fetched note_net (new_analyzer "demo" "IBM" 60))
   = TimeSeries []) /\
  fst (run_cycle sample_stod sample_millis sample_json_parse note_net
         (mkProcess (new_analyzer "demo" "IBM" 60) [])) = Undefined.
Proof.
  assert (H1 : short_chunks note_net (new_analyzer "demo" "IBM" 60))
    by (repeat constructor).
  assert (H2 : sample_json_parse (fetched note_net (new_analyzer "demo" "IBM" 60))
               = TimeSeries []) by reflexivity.
  split; [auto|].
  exact (run_cycle_without_series_is_undefined sample_stod sample_millis
           sample_json_parse note_net (new_analyzer "demo" "IBM" 60) [] H1 H2).
Defined.

Lemma run_stops_at_parser_exception_witness :
  (short_chunks no_handle flat4 /\
   fst (parsed sample_stod sample_millis sample_json_parse no_handle flat4)
   = Throw parse_error) /\
  run sample_stod sample_millis sample_json_parse [no_handle; sample_net]
    (mkProcess flat4 [])
  = (Throw parse_error,
     mkProcess (snd (parsed sample_stod sample_millis sample_json_parse
                       no_handle flat4)) []).
Proof.
  assert (H1 : short_chunks no_handle flat4) by (repeat constructor).
  assert (H2 : fst (parsed sample_stod sample_millis sample_json_parse no_handle flat4)
               = Throw parse_error) by reflexivity.
  split; [auto|].
  exact (run_stops_at_parser_exception sample_stod sample_millis sample_json_parse
           no_handle [sample_net] flat4 [] parse_error H1 H2).
Defined.

Lemma run_reports_every_cycle_witness :
  Forall (fun net => good_cycle sample_stod sample_json_parse net
                       (new_analyzer "demo" "IBM" 60)) [sample_net; sample_net] /\
  run sample_stod sample_millis sample_json_parse [sample_net; sample_net]
    (mkProcess (new_analyzer "demo" "IBM" 60) [])
  = (Ret tt,
     mkProcess
       (fold_left
          (fun s net => snd (parsed sample_stod sample_millis sample_json_parse net s))
          [sample_net; sample_net] (new_analyzer "demo" "IBM" 60))
       ([] ++ flat_map
                (fun net =>
                   report (snd (parsed sample_stod sample_millis sample_json_parse
                                  net (new_analyzer "demo" "IBM" 60))))
                [sample_net; sample_net])).
Proof.
  assert (G : good_cycle sample_stod sample_json_parse sample_net
                (new_analyzer "demo" "IBM" 60)).
  { split; [repeat constructor|].
    exists good_entry, [], [fdiv (of_int 203) (of_int 2)].
    split; [reflexivity | repeat constructor]. }
  assert (H : Forall (fun net => good_cycle sample_stod sample_json_parse net
                                   (new_analyzer "demo" "IBM" 60))
                [sample_net; sample_net])
    by (constructor; [exact G|]; constructor; [exact G|]; constructor).
  split; [exact H|].
  exact (proj1 (run_reports_every_cycle sample_stod sample_millis sample_json_parse
                  (new_analyzer "demo" "IBM" 60) [sample_net; sample_net] [] H)).
Defined.
